(** * Layout reconstruction, engine adapters and cropping of the OCR service

    A shallow embedding of [services/ocr_service.py] and of
    [ImageProcessor.crop] from [utils/image_processor.py], with the
    properties the specification states about them.

    Modelling conventions.
    - Python numbers (pixel coordinates, confidences) have two embeddings.
      In [Layout], [Engines] and the modules built on them they are
      rationals [Q] and their arithmetic is exact.  In [PyNumber], [PyLayout]
      and [PyEngines] a number is an [int] (a [Z] of any size, exact) or a
      [float] (binary64, every operation rounded to nearest, module
      [Binary64]), and an operation raises what Python's raises
      ([OverflowError], [ValueError]).  On boxes of [int]s below [2^48] in
      absolute value the two are the same function
      ([reconstruct_layout_small_ints]); on [float]s they differ by the
      rounding, and what is stated of the code on all numbers is stated on
      the second embedding.  Integers handed to [crop] and Tesseract's
      integer columns are [Z].
    - Python [str] is [string]; a character is one [ascii].
    - A raised exception is a value of [exn]; an operation that may raise
      (indexing, [min] and [max], a division by a computed number) returns a
      [result].  Memory is not bounded: building a list or a string never
      fails (there is no [MemoryError]).
    - The only object [reconstruct_layout] writes to is the list it is given
      ([lines.sort]); the embedding returns the final content of that list
      next to the function's result. *)

From Stdlib Require Import QArith Qabs Qround ZArith List String Ascii Bool Lia.
From Stdlib Require Import Permutation Sorted Morphisms Setoid SetoidList SetoidPermutation Qminmax Lqa.
From Stdlib Require Import Qpower Floats.
Import ListNotations.

Local Open Scope string_scope.
Local Open Scope Q_scope.

(** ** Exceptions and results *)

Inductive exn : Type :=
| IndexError                     (* "list index out of range" *)
| ZeroDivisionError              (* "division by zero" *)
| ValueError (msg : string)
| OverflowError (msg : string)
| RuntimeError (msg : string).   (* whatever a backend raises *)

(** [str(e)] *)
Definition str_exn (e : exn) : string :=
  match e with
  | IndexError => "list index out of range"
  | ZeroDivisionError => "division by zero"
  | ValueError msg => msg
  | OverflowError msg => msg
  | RuntimeError msg => msg
  end.

Inductive result (A : Type) : Type :=
| Ok (a : A)
| Err (e : exn).
Arguments Ok {A} a.
Arguments Err {A} e.

Definition bind {A B} (m : result A) (k : A -> result B) : result B :=
  match m with
  | Ok a => k a
  | Err e => Err e
  end.

Notation "x <- m ;; k" := (bind m (fun x => k))
  (at level 61, m at next level, right associativity).

Fixpoint mapM {A B} (f : A -> result B) (l : list A) : result (list B) :=
  match l with
  | [] => Ok []
  | a :: l' => b <- f a ;; bs <- mapM f l' ;; Ok (b :: bs)
  end.

(** Left-to-right loop with a state and a body that may raise. *)
Fixpoint foldM {S A} (body : S -> A -> result S) (l : list A) (s : S) : result S :=
  match l with
  | [] => Ok s
  | a :: l' => s' <- body s a ;; foldM body l' s'
  end.

(** The value carried by a result; only used where the result is [Ok]. *)
Definition val (r : result Q) : Q :=
  match r with
  | Ok q => q
  | Err _ => 0
  end.

(** ** Python built-ins on numbers, lists and strings *)

(** [a < b] on numbers. *)
Definition Qltb (a b : Q) : bool :=
  (Qnum a * QDen b <? Qnum b * QDen a)%Z.

(** [int(q)]: truncation towards zero. *)
Definition py_int (q : Q) : Z := Z.quot (Qnum q) (Zpos (Qden q)).

(** [max(a, b)] with two arguments: the first one unless the second is greater. *)
Definition py_max2 (a b : Q) : Q := if Qltb a b then b else a.

(** [sum(xs)]: starts from 0 and adds from the left. *)
Definition py_sum (xs : list Q) : Q := fold_left Qplus xs 0.

(** [min(xs)] and [max(xs)]: the first extremal element; empty input raises. *)
Definition py_min (xs : list Q) : result Q :=
  match xs with
  | [] => Err (ValueError "min() arg is an empty sequence")
  | x :: xs' => Ok (fold_left (fun m v => if Qltb v m then v else m) xs' x)
  end.

Definition py_max (xs : list Q) : result Q :=
  match xs with
  | [] => Err (ValueError "max() arg is an empty sequence")
  | x :: xs' => Ok (fold_left (fun m v => if Qltb m v then v else m) xs' x)
  end.

(** [len(xs)] as a number. *)
Definition py_len {A} (xs : list A) : Q := inject_Z (Z.of_nat (List.length xs)).

(** [a / b]: true division. *)
Definition py_div (a b : Q) : result Q :=
  if Qeq_bool b 0 then Err ZeroDivisionError else Ok (a / b).

(** [s * n]: [n] copies of [s], none when [n <= 0]. *)
Fixpoint str_repeat (s : string) (n : nat) : string :=
  match n with
  | O => ""
  | S n' => s ++ str_repeat s n'
  end.

Definition str_mul (s : string) (n : Z) : string := str_repeat s (Z.to_nat n).

Definition newline : string := String (ascii_of_nat 10) "".

(** [sep.join(l)] *)
Definition join (sep : string) (l : list string) : string := String.concat sep l.

(** [str.isspace] on one character (code points below 256). *)
Definition isspace (c : ascii) : bool :=
  let n := nat_of_ascii c in
  ((9 <=? n) && (n <=? 13) || (28 <=? n) && (n <=? 32)
   || (n =? 133) || (n =? 160))%nat.

Fixpoint lstrip (s : string) : string :=
  match s with
  | EmptyString => EmptyString
  | String c s' => if isspace c then lstrip s' else s
  end.

Fixpoint rstrip (s : string) : string :=
  match s with
  | EmptyString => EmptyString
  | String c s' =>
      match rstrip s' with
      | EmptyString => if isspace c then EmptyString else String c EmptyString
      | r => String c r
      end
  end.

(** [s.strip()] *)
Definition strip (s : string) : string := rstrip (lstrip s).

(** [l[-1]] *)
Definition last_item {A} (l : list A) : result A :=
  match rev l with
  | [] => Err IndexError
  | a :: _ => Ok a
  end.

(** [l[i]] for [0 <= i]. *)
Definition index {A} (l : list A) (i : nat) : result A :=
  match nth_error l i with
  | Some a => Ok a
  | None => Err IndexError
  end.

(** *** [list.sort(key=...)]

    The sort is stable and compares keys with [<] only.  Keys are computed
    for every element before anything is moved; if a key raises, the list is
    left as it was.  The outcome of a stable sort does not depend on the
    algorithm ([sort_by_unique] below), so insertion stands for it. *)

Fixpoint insert_keyed {A} (k : Q) (x : A) (l : list (Q * A)) : list (Q * A) :=
  match l with
  | [] => [(k, x)]
  | (k', y) :: l' =>
      if Qltb k' k then (k', y) :: insert_keyed k x l' else (k, x) :: (k', y) :: l'
  end.

Fixpoint sort_keyed {A} (l : list (Q * A)) : list (Q * A) :=
  match l with
  | [] => []
  | (k, x) :: l' => insert_keyed k x (sort_keyed l')
  end.

Definition list_sort {A} (key : A -> result Q) (l : list A) : result (list A) :=
  keys <- mapM key l ;;
  Ok (map snd (sort_keyed (combine keys l))).

(** ** Data model *)

Definition point : Type := Q * Q.

(** A bounding box is a Python list: four numbers [[x, y, w, h]], or the
    points of a polygon [[[x1, y1], [x2, y2], ...]] (four of them from the
    engines).  The code tells the two apart by [isinstance(bbox[0], list)]:
    a polygon is its first point [bbox[0]] and the points after it. *)
Inductive BoundingBox : Type :=
| AxisAligned (x y w h : Q)
| Polygon (p : point) (ps : list point).

(** One recognised text region: the dict [{"text", "confidence", "bbox"}]. *)
Record fragment : Type := Fragment {
  text : string;
  confidence : Q;
  bbox : BoundingBox
}.

(** The dict an adapter returns; a key that is absent is [None]. *)
Record RecognitionResult : Type := Result {
  success : bool;
  res_text : option string;
  res_lines : option (list fragment);
  engine : option string;
  error : option string
}.

(** ** [reconstruct_layout] *)

Module Layout.

(** Center Y of a box. *)
Definition get_cy (b : BoundingBox) : result Q :=
  match b with
  | Polygon p ps =>
      let ys := map snd (p :: ps) in
      py_div (py_sum ys) (py_len ys)
  | AxisAligned x y w h => Ok (y + h / 2)
  end.

(** Center X of a box. *)
Definition get_cx (b : BoundingBox) : result Q :=
  match b with
  | Polygon p ps =>
      let xs := map fst (p :: ps) in
      py_div (py_sum xs) (py_len xs)
  | AxisAligned x y w h => Ok (x + w / 2)
  end.

(** Left X of a box. *)
Definition get_x (b : BoundingBox) : result Q :=
  match b with
  | Polygon p ps => py_min (map fst (p :: ps))
  | AxisAligned x y w h => Ok x
  end.

(** Height of a box. *)
Definition get_h (b : BoundingBox) : result Q :=
  match b with
  | Polygon p ps =>
      let ys := map snd (p :: ps) in
      hi <- py_max ys ;; lo <- py_min ys ;; Ok (hi - lo)
  | AxisAligned x y w h => Ok h
  end.

(** The right edge the row loop stores in [last_x_end]. *)
Definition get_x_end (b : BoundingBox) : result Q :=
  match b with
  | Polygon p ps => py_max (map fst (p :: ps))
  | AxisAligned x y w h => Ok (x + w)
  end.

(** State of the grouping loop: [rows] and [current_row]. *)
Definition group_state : Type := list (list fragment) * list fragment.

(** Body of [for i in range(1, len(lines))]. *)
Definition group_step (st : group_state) (box : fragment) : result group_state :=
  let '(rows, current_row) := st in
  prev_box <- last_item current_row ;;
  h <- get_h (bbox prev_box) ;;
  c <- get_cy (bbox box) ;;
  p <- get_cy (bbox prev_box) ;;
  let y_diff := Qabs (c - p) in
  if Qltb y_diff (h * (1 # 2))
  then Ok (rows, (current_row ++ [box])%list)
  else Ok ((rows ++ [current_row])%list, [box]).

(** Lines 66-89: the rows of a list already sorted by center Y. *)
Definition group_rows (lines : list fragment) : result (list (list fragment)) :=
  match lines with
  | [] => Ok []
  | first :: rest =>
      st <- foldM group_step rest ([], [first]) ;;
      let '(rows, current_row) := st in
      match current_row with
      | [] => Ok rows
      | _ => Ok (rows ++ [current_row])%list
      end
  end.

(** State of the loop over one row: [line_text] and [last_x_end]. *)
Definition line_state : Type := string * Q.

(** Body of [for item in row]. *)
Definition line_step (st : line_state) (item : fragment) : result line_state :=
  let '(line_text, last_x_end) := st in
  let box := bbox item in
  x_start <- get_x box ;;
  let line_text :=
    if Qltb 0 last_x_end
    then
      let gap := py_max2 0 (x_start - last_x_end) in
      let spaces := py_int (gap / 10) in
      line_text ++ str_mul " " spaces
    else line_text in
  let line_text := line_text ++ text item in
  last_x_end <- get_x_end box ;;
  Ok (line_text, last_x_end).

(** Body of [for row in rows]: the text of one row. *)
Definition build_line (row : list fragment) : result string :=
  row <- list_sort (fun l => get_x (bbox l)) row ;;
  st <- foldM line_step row ("", 0) ;;
  Ok (fst st).

(** [reconstruct_layout(lines)].  The first component is the content of the
    list object [lines] when the call ends, the second what the call returns
    or raises. *)
Definition reconstruct_layout (lines : list fragment) : list fragment * result string :=
  match lines with
  | [] => (lines, Ok "")
  | _ =>
      match list_sort (fun l => get_cy (bbox l)) lines with
      | Err e => (lines, Err e)
      | Ok lines =>
          (lines,
           rows <- group_rows lines ;;
           output_lines <- mapM build_line rows ;;
           Ok (join newline output_lines))
      end
  end.

End Layout.

(** ** Engine adapters *)

Module Engines.
Import Layout.

(** The interface [OCREngine]: one method, [recognize(image_path)]. *)
Class OCREngine (E : Type) : Type :=
  recognize : E -> string -> RecognitionResult.

(** The dict of the [except Exception as e] branch of an adapter. *)
Definition failure (kind : string) (e : exn) : RecognitionResult :=
  {| success := false; res_text := None; res_lines := None;
     engine := Some kind; error := Some (str_exn e) |}.

(** [try: <body> except Exception as e: return <failure>] *)
Definition try_except (kind : string) (body : result RecognitionResult)
  : RecognitionResult :=
  match body with
  | Ok r => r
  | Err e => failure kind e
  end.

(** *** PaddleOCR *)

(** One raw detection [[bbox, (text, confidence)]]. *)
Record paddle_line : Type := PaddleLine {
  pl_bbox : BoundingBox;
  pl_text : string;
  pl_confidence : Q
}.

(** What [self.ocr.ocr] returns: [None], or a list with one entry per page,
    each [None] or a list of detections. *)
Definition paddle_output : Type := option (list (option (list paddle_line))).

(** The engine object: its backend handle [self.ocr]. *)
Record PaddleOCREngine : Type := {
  ocr : string -> result paddle_output
}.

Definition paddle_empty : RecognitionResult :=
  {| success := true; res_text := Some ""; res_lines := Some [];
     engine := Some "paddleocr"; error := None |}.

Definition paddle_fragment (line : paddle_line) : fragment :=
  {| text := pl_text line; confidence := pl_confidence line;
     bbox := pl_bbox line |}.

(** The [try] block of [PaddleOCREngine.recognize]. *)
Definition paddle_body (self : PaddleOCREngine) (image_path : string)
  : result RecognitionResult :=
  result <- ocr self image_path ;;
  match result with
  | None | Some [] | Some (None :: _) | Some (Some [] :: _) => Ok paddle_empty
  | Some (Some page :: _) =>
      let lines := map paddle_fragment page in
      let '(lines, layout) := reconstruct_layout lines in
      t <- layout ;;
      Ok {| success := true; res_text := Some t; res_lines := Some lines;
            engine := Some "paddleocr"; error := None |}
  end.

#[export] Instance paddle_recognize : OCREngine PaddleOCREngine :=
  fun self image_path => try_except "paddleocr" (paddle_body self image_path).

(** *** Tesseract *)

(** The dict of columns [image_to_data] returns. *)
Record tess_data : Type := TessData {
  d_text : list string;
  d_conf : list Z;
  d_left : list Z;
  d_top : list Z;
  d_width : list Z;
  d_height : list Z
}.

(** The engine object; [image] is the type of opened images. *)
Record TesseractOCREngine (image : Type) : Type := {
  Image_open : string -> result image;
  image_to_data : image -> string -> result tess_data;
  image_to_string : image -> string -> result string;
  lang : string
}.
Arguments Image_open {image} _ _.
Arguments image_to_data {image} _ _ _.
Arguments image_to_string {image} _ _ _.
Arguments lang {image} _.

(** Body of [for i in range(n_boxes)]. *)
Definition tess_step (data : tess_data) (lines : list fragment) (i : nat)
  : result (list fragment) :=
  c <- index (d_conf data) i ;;
  if (0 <? c)%Z then
    t <- index (d_text data) i ;;
    c <- index (d_conf data) i ;;
    l <- index (d_left data) i ;;
    tp <- index (d_top data) i ;;
    w <- index (d_width data) i ;;
    h <- index (d_height data) i ;;
    Ok (lines ++ [ {| text := t;
                      confidence := inject_Z c / 100;
                      bbox := AxisAligned (inject_Z l) (inject_Z tp)
                                          (inject_Z w) (inject_Z h) |} ])%list
  else Ok lines.

(** Lines 283-297: the fragments built from the columns. *)
Definition tess_lines (data : tess_data) : result (list fragment) :=
  let n_boxes := List.length (d_text data) in
  foldM (tess_step data) (seq 0 n_boxes) [].

(** The [try] block of [TesseractOCREngine.recognize]. *)
Definition tess_body {image} (self : TesseractOCREngine image) (image_path : string)
  : result RecognitionResult :=
  img <- Image_open self image_path ;;
  data <- image_to_data self img (lang self) ;;
  whole <- image_to_string self img (lang self) ;;
  let t := strip whole in
  lines <- tess_lines data ;;
  Ok {| success := true; res_text := Some t; res_lines := Some lines;
        engine := Some "tesseract"; error := None |}.

#[export] Instance tess_recognize {image} : OCREngine (TesseractOCREngine image) :=
  fun self image_path => try_except "tesseract" (tess_body self image_path).

(** *** EasyOCR *)

(** One raw detection [(bbox, text, prob)]; the box is a list of points,
    here its first point and the others. *)
Record easy_detection : Type := EasyDetection {
  ed_bbox : point * list point;
  ed_text : string;
  ed_prob : Q
}.

(** [[int(p[0]), int(p[1])]] *)
Definition int_point (p : point) : point :=
  (inject_Z (py_int (fst p)), inject_Z (py_int (snd p))).

(** The engine object: its backend handle [self.reader]. *)
Record EasyOCREngine : Type := {
  readtext : string -> result (list easy_detection)
}.

Definition easy_fragment (d : easy_detection) : fragment :=
  {| text := ed_text d; confidence := ed_prob d;
     bbox := Polygon (int_point (fst (ed_bbox d)))
                     (map int_point (snd (ed_bbox d))) |}.

(** The [try] block of [EasyOCREngine.recognize]. *)
Definition easy_body (self : EasyOCREngine) (image_path : string)
  : result RecognitionResult :=
  results <- readtext self image_path ;;
  let lines := map easy_fragment results in
  let '(lines, layout) := reconstruct_layout lines in
  t <- layout ;;
  Ok {| success := true; res_text := Some t; res_lines := Some lines;
        engine := Some "easyocr"; error := None |}.

#[export] Instance easy_recognize : OCREngine EasyOCREngine :=
  fun self image_path => try_except "easyocr" (easy_body self image_path).

End Engines.

(** ** [OCRService] *)

Module Service.
Import Engines.

(** The service object: [self.engine_type] and [self.engine]. *)
Record OCRService (E : Type) : Type := {
  engine_type : string;
  engine : E
}.
Arguments engine_type {E} _.
Arguments engine {E} _.

(** [OCRService.process_image].  [path_exists] is [Path(p).exists()] when the
    call is made.  The second component lists the paths [self.engine.recognize]
    was invoked on during the call. *)
Definition process_image {E} `{OCREngine E} (path_exists : string -> bool)
    (self : OCRService E) (image_path : string)
  : RecognitionResult * list string :=
  if negb (path_exists image_path) then
    (* {"success": False, "error": ...}: no text, lines or engine key *)
    (Result false None None None
            (Some ("Image file not found: " ++ image_path)), [])
  else
    (recognize (engine self) image_path, [image_path]).

End Service.

(** ** [ImageProcessor.crop] *)

Module ImageProcessor.

Local Open Scope Z_scope.

(** An image is the list of its pixel rows; a pixel is any value (a gray
    level or a vector of channels). *)
Definition ndarray (A : Type) : Type := list (list A).

(** [image.shape[:2]]: height and width. *)
Definition shape {A} (image : ndarray A) : Z * Z :=
  (Z.of_nat (List.length image),
   match image with
   | [] => 0
   | r :: _ => Z.of_nat (List.length r)
   end).

(** [l[a:b]] for [0 <= a] and [0 <= b]. *)
Definition slice {A} (l : list A) (a b : Z) : list A :=
  skipn (Z.to_nat a) (firstn (Z.to_nat b) l).

Definition crop {A} (image : ndarray A) (x y w h : Z) : ndarray A :=
  let '(height, width) := shape image in
  let x := Z.max 0 (Z.min x width) in
  let y := Z.max 0 (Z.min y height) in
  let w := Z.max 0 (Z.min w (width - x)) in
  let h := Z.max 0 (Z.min h (height - y)) in
  if (w =? 0) || (h =? 0) then image
  else map (fun r => slice r x (x + w)) (slice image y (y + h)).

End ImageProcessor.

(** ** Vocabulary of the specification *)

Module Spec.
Import Layout.

(** The geometry of a fragment, as numbers. *)
Definition cy (f : fragment) : Q := val (get_cy (bbox f)).
Definition left_x (f : fragment) : Q := val (get_x (bbox f)).
Definition right_x (f : fragment) : Q := val (get_x_end (bbox f)).
Definition height (f : fragment) : Q := val (get_h (bbox f)).

(** An element with its key, as the sort holds it. *)
Definition decorate {A} (kv : A -> Q) (a : A) : Q * A := (kv a, a).

(** The list [l] after [l.sort(key=kv)] for a key that does not raise. *)
Definition sort_by {A} (kv : A -> Q) (l : list A) : list A :=
  map snd (sort_keyed (map (decorate kv) l)).

(** Order of decorated elements [(key, element)]. *)
Definition key_le {A} (p q : Q * A) : Prop := fst p <= fst q.

(** Ascending keys. *)
Definition ascending {A} (kv : A -> Q) (l : list A) : Prop :=
  StronglySorted (fun a b => kv a <= kv b) l.

(** The elements of [l] whose key equals [k], in the order of [l]. *)
Definition with_key {A} (kv : A -> Q) (k : Q) (l : list A) : list A :=
  filter (fun a => Qeq_bool (kv a) k) l.


(** [cur] is vertically aligned with [prev]: the row test of the grouping
    loop. *)
Definition close (prev cur : fragment) : Prop :=
  Qabs (cy cur - cy prev) < (1 # 2) * height prev.

Definition closeb (prev cur : fragment) : bool :=
  Qltb (Qabs (cy cur - cy prev)) (height prev * (1 # 2)).

(** Every member of a row but the first is close to the member before it. *)
Fixpoint chained (row : list fragment) : Prop :=
  match row with
  | a :: (b :: _) as tl => close a b /\ chained tl
  | _ => True
  end.

(** The first member of a row is not close to the last member of the row
    before it. *)
Fixpoint separated (rows : list (list fragment)) : Prop :=
  match rows with
  | r1 :: (r2 :: _) as tl =>
      (forall a b, last_item r1 = Ok a -> hd_error r2 = Some b -> ~ close a b)
      /\ separated tl
  | _ => True
  end.

(** The rows of a list sorted by center Y, cut where two neighbours are not
    close. *)
Fixpoint split_rows (lines : list fragment) : list (list fragment) :=
  match lines with
  | [] => []
  | a :: tl =>
      match hd_error tl, split_rows tl with
      | Some b, r :: rs => if closeb a b then (a :: r) :: rs else [a] :: r :: rs
      | _, _ => [[a]]
      end
  end.

(** [cur] put in front of the first row of [rows]. *)
Definition extend_first (cur : list fragment) (rows : list (list fragment))
  : list (list fragment) :=
  match rows with
  | [] => [cur]
  | r :: rs => (cur ++ r)%list :: rs
  end.

(** [n] space characters. *)
Definition spaces (n : Z) : string := str_mul " " n.

(** The number of spaces for a gap: [floor(max(0, left - previous_right) / 10)]. *)
Definition gap_spaces (previous_right left : Q) : Z :=
  Qfloor (Qmax 0 (left - previous_right) / 10).

(** The text of a row whose members are in reading order, after a member
    ending at [previous_right]: the gap is inserted only when
    [previous_right > 0]. *)
Fixpoint line_after (previous_right : Q) (row : list fragment) : string :=
  match row with
  | [] => ""
  | item :: rest =>
      (if Qltb 0 previous_right
       then spaces (gap_spaces previous_right (left_x item))
       else "")
      ++ text item ++ line_after (right_x item) rest
  end.

Definition line_of (row : list fragment) : string :=
  match row with
  | [] => ""
  | first :: rest => text first ++ line_after (right_x first) rest
  end.

(** The text of a row as the specification words it: a gap before every
    member but the first. *)
Fixpoint spec_line_after (previous_right : Q) (row : list fragment) : string :=
  match row with
  | [] => ""
  | item :: rest =>
      spaces (gap_spaces previous_right (left_x item))
      ++ text item ++ spec_line_after (right_x item) rest
  end.

Definition spec_line_of (row : list fragment) : string :=
  match row with
  | [] => ""
  | first :: rest => text first ++ spec_line_after (right_x first) rest
  end.

(** Every character is whitespace. *)
Fixpoint all_space (s : string) : bool :=
  match s with
  | EmptyString => true
  | String c s' => isspace c && all_space s'
  end.

(** The first, the last character is whitespace. *)
Definition starts_space (s : string) : bool :=
  match s with
  | EmptyString => false
  | String c _ => isspace c
  end.

Fixpoint ends_space (s : string) : bool :=
  match s with
  | EmptyString => false
  | String c EmptyString => isspace c
  | String _ s' => ends_space s'
  end.

(** The fragments the PaddleOCR adapter extracts from a backend answer. *)
Definition paddle_fragments (out : Engines.paddle_output) : list fragment :=
  match out with
  | Some (Some page :: _) => map Engines.paddle_fragment page
  | _ => []
  end.

(** The columns of a Tesseract answer have one entry per token. *)
Definition columns_aligned (data : Engines.tess_data) : Prop :=
  let n := List.length (Engines.d_text data) in
  List.length (Engines.d_conf data) = n /\
  List.length (Engines.d_left data) = n /\
  List.length (Engines.d_top data) = n /\
  List.length (Engines.d_width data) = n /\
  List.length (Engines.d_height data) = n.

(** What token [i] of a Tesseract answer contributes: one fragment when its
    confidence is positive, nothing otherwise. *)
Definition token_fragments (data : Engines.tess_data) (i : nat) : list fragment :=
  let c := nth i (Engines.d_conf data) 0%Z in
  if (0 <? c)%Z then
    [ {| text := nth i (Engines.d_text data) "";
         confidence := inject_Z c / 100;
         bbox := AxisAligned (inject_Z (nth i (Engines.d_left data) 0%Z))
                             (inject_Z (nth i (Engines.d_top data) 0%Z))
                             (inject_Z (nth i (Engines.d_width data) 0%Z))
                             (inject_Z (nth i (Engines.d_height data) 0%Z)) |} ]
  else [].

(** [v] clamped into [[lo, hi]]. *)
Definition clamp (lo hi v : Z) : Z :=
  if (v <? lo)%Z then lo else if (hi <? v)%Z then hi else v.

(** An image of [H] rows of [W] pixels. *)
Definition rectangular {A} (H W : nat) (image : ImageProcessor.ndarray A) : Prop :=
  List.length image = H /\ Forall (fun r => List.length r = W) image.

(** The pixel in row [i], column [j]. *)
Definition pixel {A} (image : ImageProcessor.ndarray A) (i j : nat) : option A :=
  match nth_error image i with
  | Some r => nth_error r j
  | None => None
  end.

(** The four corners of the rectangle [[x, y, w, h]]. *)
Definition corners (x y w h : Q) : list point :=
  [(x, y); (x + w, y); (x + w, y + h); (x, y + h)].

End Spec.

(** ** More Python built-ins *)

Module Py.

(** [c.lower()] for one character (code points below 256). *)
Definition lower_char (c : ascii) : ascii :=
  let n := nat_of_ascii c in
  if ((65 <=? n) && (n <=? 90) || (192 <=? n) && (n <=? 214)
      || (216 <=? n) && (n <=? 222))%nat
  then ascii_of_nat (n + 32)
  else c.

(** [s.lower()] *)
Fixpoint str_lower (s : string) : string :=
  match s with
  | EmptyString => EmptyString
  | String c s' => String (lower_char c) (str_lower s')
  end.

(** [s.split(sep)] for a separator of one character. *)
Fixpoint split_on (sep : ascii) (s : string) : list string :=
  match s with
  | EmptyString => [EmptyString]
  | String c s' =>
      if Ascii.eqb c sep then EmptyString :: split_on sep s'
      else match split_on sep s' with
           | [] => [String c EmptyString]
           | w :: ws => String c w :: ws
           end
  end.

(** [x in l] for strings. *)
Definition str_in (x : string) (l : list string) : bool :=
  existsb (String.eqb x) l.

(** [set(a) == set(b)] for lists of strings. *)
Definition set_eqb (a b : list string) : bool :=
  forallb (fun x => str_in x b) a && forallb (fun x => str_in x a) b.

(** [d.get(key, default)] on a key modelled as an option. *)
Definition get {A} (o : option A) (default : A) : A :=
  match o with
  | Some a => a
  | None => default
  end.

End Py.

(** ** The rest of [ImageProcessor] *)

Module Preprocessing.
Import ImageProcessor.

(** An image array: two-dimensional (gray levels) or three-dimensional
    (a list of channels per pixel). *)
Inductive image : Type :=
| Gray (px : ndarray Z)
| Color (px : ndarray (list Z)).

(** [len(image.shape)] *)
Definition ndim (im : image) : nat :=
  match im with
  | Gray _ => 2
  | Color _ => 3
  end.

(** [image.shape[:2]] *)
Definition shape2 (im : image) : Z * Z :=
  match im with
  | Gray px => shape px
  | Color px => shape px
  end.

(** [ImageProcessor.crop] on either kind of image. *)
Definition crop_image (im : image) (x y w h : Z) : image :=
  match im with
  | Gray px => Gray (crop px x y w h)
  | Color px => Color (crop px x y w h)
  end.

(** The elements of [l] with their positions. *)
Definition enumerate {A} (l : list A) : list (nat * A) :=
  combine (seq 0 (List.length l)) l.

(** [np.column_stack(np.where(image > 0))]: the index of every element that
    is positive, in row-major order. *)
Definition where_positive (im : image) : list (list nat) :=
  match im with
  | Gray px =>
      flat_map (fun '(i, r) =>
        flat_map (fun '(j, v) => if (0 <? v)%Z then [[i; j]] else [])
                 (enumerate r))
        (enumerate px)
  | Color px =>
      flat_map (fun '(i, r) =>
        flat_map (fun '(j, p) =>
          flat_map (fun '(k, v) => if (0 <? v)%Z then [[i; j; k]] else [])
                   (enumerate p))
          (enumerate r))
        (enumerate px)
  end.

(** The OpenCV calls the class makes, with the arguments it fixes.  Each may
    raise; [imread] returns [None] for a file it cannot read. *)
Record cv2 (matrix : Type) : Type := {
  imread : string -> option image;
  (* cv2.cvtColor(image, cv2.COLOR_BGR2GRAY) *)
  cvtColor_BGR2GRAY : image -> result image;
  (* cv2.threshold(image, 0, 255, THRESH_BINARY + THRESH_OTSU)[1] *)
  threshold_otsu : image -> result image;
  (* cv2.adaptiveThreshold(image, 255, ADAPTIVE_THRESH_GAUSSIAN_C, THRESH_BINARY, 11, 2) *)
  adaptiveThreshold : image -> result image;
  (* cv2.fastNlMeansDenoising(image, None, 10, 7, 21) *)
  fastNlMeansDenoising : image -> result image;
  (* cv2.minAreaRect(coords)[-1] *)
  minAreaRect_angle : list (list nat) -> result Q;
  (* cv2.getRotationMatrix2D(center, angle, 1.0) *)
  getRotationMatrix2D : Z * Z -> Q -> matrix;
  (* cv2.warpAffine(image, M, (w, h), flags=INTER_CUBIC, borderMode=BORDER_REPLICATE) *)
  warpAffine : image -> matrix -> Z * Z -> result image
}.
Arguments imread {matrix} _ _.
Arguments cvtColor_BGR2GRAY {matrix} _ _.
Arguments threshold_otsu {matrix} _ _.
Arguments adaptiveThreshold {matrix} _ _.
Arguments fastNlMeansDenoising {matrix} _ _.
Arguments minAreaRect_angle {matrix} _ _.
Arguments getRotationMatrix2D {matrix} _ _ _.
Arguments warpAffine {matrix} _ _ _ _.

Definition load_image {matrix} (cv : cv2 matrix) (image_path : string)
  : result image :=
  match imread cv image_path with
  | None => Err (ValueError ("Failed to load image from " ++ image_path))
  | Some im => Ok im
  end.

Definition convert_to_grayscale {matrix} (cv : cv2 matrix) (im : image)
  : result image :=
  if (ndim im =? 3)%nat then cvtColor_BGR2GRAY cv im else Ok im.

Definition apply_threshold {matrix} (cv : cv2 matrix) (im : image)
    (method : string) : result image :=
  if String.eqb method "otsu" then threshold_otsu cv im
  else if String.eqb method "adaptive" then adaptiveThreshold cv im
  else Err (ValueError ("Unknown threshold method: " ++ method)).

Definition denoise {matrix} (cv : cv2 matrix) (im : image) : result image :=
  fastNlMeansDenoising cv im.

(** Lines 140-143 of [deskew]: the angle handed to the rotation. *)
Definition deskew_angle (angle : Q) : Q :=
  if Qltb angle (-45) then - (90 + angle) else - angle.

Definition deskew {matrix} (cv : cv2 matrix) (im : image) : result image :=
  let coords := where_positive im in
  match coords with
  | [] => Ok im
  | _ =>
      angle <- minAreaRect_angle cv coords ;;
      let angle := deskew_angle angle in
      let '(h, w) := shape2 im in
      let center := ((w / 2)%Z, (h / 2)%Z) in
      let M := getRotationMatrix2D cv center angle in
      warpAffine cv im M (w, h)
  end.

Definition preprocess {matrix} (cv : cv2 matrix) (image_path : string)
    (grayscale threshold denoise_image deskew_image : bool) : result image :=
  im <- load_image cv image_path ;;
  im <- (if grayscale then convert_to_grayscale cv im else Ok im) ;;
  im <- (if denoise_image && (ndim im =? 2)%nat then denoise cv im else Ok im) ;;
  im <- (if deskew_image && (ndim im =? 2)%nat then deskew cv im else Ok im) ;;
  im <- (if threshold && (ndim im =? 2)%nat
         then apply_threshold cv im "otsu" else Ok im) ;;
  Ok im.

End Preprocessing.

(** ** [OCRService.__init__] *)

Module ServiceInit.
Import Engines Py.

(** A [lang] argument: a string for PaddleOCR and Tesseract, a list for
    EasyOCR. *)
Inductive lang_value : Type :=
| LangStr (s : string)
| LangList (l : list string).

(** The keyword arguments the callers pass on to the engine class. *)
Record kwargs : Type := {
  kw_use_gpu : option bool;
  kw_lang : option lang_value
}.

(** The constructors of the three engine classes: they import and start the
    backend, and raise when it is missing. *)
Record engine_classes (image : Type) : Type := {
  new_PaddleOCREngine : kwargs -> result PaddleOCREngine;
  new_TesseractOCREngine : kwargs -> result (TesseractOCREngine image);
  new_EasyOCREngine : kwargs -> result EasyOCREngine
}.
Arguments new_PaddleOCREngine {image} _ _.
Arguments new_TesseractOCREngine {image} _ _.
Arguments new_EasyOCREngine {image} _ _.

(** An engine object of any of the three classes. *)
Inductive engine_object (image : Type) : Type :=
| PaddleObject (e : PaddleOCREngine)
| TesseractObject (e : TesseractOCREngine image)
| EasyObject (e : EasyOCREngine).
Arguments PaddleObject {image} e.
Arguments TesseractObject {image} e.
Arguments EasyObject {image} e.

(** Method dispatch: [self.engine.recognize]. *)
#[export] Instance engine_object_recognize {image}
  : OCREngine (engine_object image) :=
  fun self image_path =>
    match self with
    | PaddleObject e => recognize e image_path
    | TesseractObject e => recognize e image_path
    | EasyObject e => recognize e image_path
    end.

Definition unknown_engine (engine_type : string) : string :=
  "Unknown OCR engine: " ++ engine_type
  ++ ". Supported engines: 'paddleocr', 'tesseract', 'easyocr'".

(** [OCRService(engine_type, **kwargs)] *)
Definition new_OCRService {image} (classes : engine_classes image)
    (engine_type : string) (kw : kwargs)
  : result (Service.OCRService (engine_object image)) :=
  let self_engine_type := str_lower engine_type in
  if String.eqb self_engine_type "paddleocr" then
    e <- new_PaddleOCREngine classes kw ;;
    Ok {| Service.engine_type := self_engine_type; Service.engine := PaddleObject e |}
  else if String.eqb self_engine_type "tesseract" then
    e <- new_TesseractOCREngine classes kw ;;
    Ok {| Service.engine_type := self_engine_type; Service.engine := TesseractObject e |}
  else if String.eqb self_engine_type "easyocr" then
    e <- new_EasyOCREngine classes kw ;;
    Ok {| Service.engine_type := self_engine_type; Service.engine := EasyObject e |}
  else Err (ValueError (unknown_engine engine_type)).

End ServiceInit.

(** ** [api/routes.py] *)

Module Routes.
Import Engines ServiceInit Py Preprocessing.

(** The values of [config] the routes read. *)
Record config : Type := {
  OCR_ENGINE : string;
  PADDLE_USE_GPU : bool;
  PADDLE_LANG : string;
  TESSERACT_LANG : string;
  EASYOCR_LANG : list string;
  EASYOCR_USE_GPU : bool
}.

Definition service (image : Type) : Type :=
  Service.OCRService (engine_object image).

(** The module's globals [ocr_service] and [ocr_init_error]. *)
Record globals (image : Type) : Type := {
  ocr_service : option (service image);
  ocr_init_error : option exn
}.
Arguments ocr_service {image} _.
Arguments ocr_init_error {image} _.

(** The globals when the module is loaded. *)
Definition initial_globals {image} : globals image :=
  {| ocr_service := None; ocr_init_error := None |}.

(** [get_ocr_service()]: the globals after the call, and what it returns or
    raises.  [classes] are the engine classes as they are at the call. *)
Definition get_ocr_service {image} (cfg : config) (classes : engine_classes image)
    (g : globals image) : globals image * result (service image) :=
  match ocr_service g with
  | Some s => (g, Ok s)
  | None =>
      match ocr_init_error g with
      | Some e => (g, Err e)
      | None =>
          let made :=
            if String.eqb (OCR_ENGINE cfg) "paddleocr" then
              new_OCRService classes "paddleocr"
                {| kw_use_gpu := Some (PADDLE_USE_GPU cfg);
                   kw_lang := Some (LangStr (PADDLE_LANG cfg)) |}
            else if String.eqb (OCR_ENGINE cfg) "easyocr" then
              new_OCRService classes "easyocr"
                {| kw_use_gpu := Some (EASYOCR_USE_GPU cfg);
                   kw_lang := Some (LangList (EASYOCR_LANG cfg)) |}
            else
              new_OCRService classes "tesseract"
                {| kw_use_gpu := None;
                   kw_lang := Some (LangStr (TESSERACT_LANG cfg)) |} in
          match made with
          | Ok s => ({| ocr_service := Some s; ocr_init_error := None |}, Ok s)
          | Err e => ({| ocr_service := None; ocr_init_error := Some e |}, Err e)
          end
      end
  end.

(** The response of [/health]. *)
Record HealthResponse : Type := {
  status : string;
  ocr_engine : string;
  version : string
}.

Definition health_check {image} (cfg : config) (g : globals image)
  : HealthResponse :=
  let ocr_status :=
    match ocr_service g with
    | Some _ => "ready"
    | None => "not_initialized"
    end in
  {| status := "healthy";
     ocr_engine := OCR_ENGINE cfg ++ " (" ++ ocr_status ++ ")";
     version := "1.0.0" |}.

Inductive HTTPException : Type :=
| HTTPError (status_code : Z) (detail : string).

(** Lines 105-139 of [perform_ocr]: the service that handles the request.
    [language] is the form field, [None] when absent. *)
Definition select_service {image} (cfg : config) (classes : engine_classes image)
    (g : globals image) (language : option string)
  : globals image * (HTTPException + service image) :=
  let '(g, got) := get_ocr_service cfg classes g in
  let chosen :=
    s <- got ;;
    match language with
    | Some (String c rest as language) =>
        if String.eqb (OCR_ENGINE cfg) "easyocr" then
          let requested_langs := split_on "," language in
          if negb (set_eqb requested_langs (EASYOCR_LANG cfg)) then
            new_OCRService classes "easyocr"
              {| kw_use_gpu := Some (EASYOCR_USE_GPU cfg);
                 kw_lang := Some (LangList requested_langs) |}
          else Ok s
        else Ok s
    | _ => Ok s
    end in
  match chosen with
  | Ok s => (g, inr s)
  | Err e =>
      (g, inl (HTTPError 500
                 ("OCR service initialization failed: " ++ str_exn e)))
  end.

(** A float form field (a finite number) as a condition: absent and 0 are
    false. *)
Definition truthy (o : option Q) : bool :=
  match o with
  | Some q => negb (Qeq_bool q 0)
  | None => false
  end.

Definition positive (o : option Q) : bool :=
  match o with
  | Some q => Qltb 0 q
  | None => false
  end.

(** Lines 172-187 of [perform_ocr]: the image handed to [save_image] to
    replace the upload, [None] when the upload is left as it is (no crop asked
    for, or the image could not be loaded). *)
Definition crop_upload {matrix} (cv : cv2 matrix) (temp_path : string)
    (crop_x crop_y crop_width crop_height : option Q) : option image :=
  if truthy crop_width && truthy crop_height
     && positive crop_width && positive crop_height then
    match load_image cv temp_path with
    | Ok im =>
        let x := match crop_x with Some q => py_int q | None => 0%Z end in
        let y := match crop_y with Some q => py_int q | None => 0%Z end in
        let w := py_int (get crop_width 0) in
        let h := py_int (get crop_height 0) in
        Some (crop_image im x y w h)
    | Err _ => None
    end
  else None.

(** The models of [api/models.py]. *)
Record OCRLine : Type := {
  line_text : string;
  line_confidence : Q;
  line_bbox : option BoundingBox
}.

Record OCRResponse : Type := {
  r_success : bool;
  r_text : string;
  r_lines : list OCRLine;
  r_engine : string;
  r_error : option string
}.

(** Validation of one line: [confidence] is declared [ge=0.0, le=1.0]. *)
Definition valid_line (line : fragment) : bool :=
  Qle_bool 0 (confidence line) && Qle_bool (confidence line) 1.

Definition new_OCRLine (line : fragment) : OCRLine :=
  {| line_text := text line; line_confidence := confidence line;
     line_bbox := Some (bbox line) |}.

(** [OCRResponse(success=..., text=..., lines=[...], engine=..., error=...)]:
    the model validates every line.  [validation_error] is the text of the
    error it raises for a list it rejects. *)
Definition new_OCRResponse (validation_error : list fragment -> string)
    (success : bool) (text : string) (lines : list fragment) (engine : string)
    (error : option string) : result OCRResponse :=
  if forallb valid_line lines then
    Ok {| r_success := success; r_text := text;
          r_lines := map new_OCRLine lines;
          r_engine := engine; r_error := error |}
  else Err (ValueError (validation_error lines)).

(** Lines 229-261 of [perform_ocr]: the response built from the result of
    [process_image]. *)
Definition build_response (cfg : config)
    (validation_error : list fragment -> string)
    (ocr_result : RecognitionResult) : result OCRResponse :=
  if success ocr_result then
    new_OCRResponse validation_error true
      (get (res_text ocr_result) "")
      (get (res_lines ocr_result) [])
      (get (engine ocr_result) (OCR_ENGINE cfg))
      None
  else
    new_OCRResponse validation_error false
      ""
      []
      (get (engine ocr_result) (OCR_ENGINE cfg))
      (Some (get (error ocr_result) "Unknown error")).

(** Lines 220-272: OCR on the chosen input, then the response; any exception
    becomes a 500. *)
Definition respond {E} `{OCREngine E} (cfg : config)
    (validation_error : list fragment -> string) (path_exists : string -> bool)
    (s : Service.OCRService E) (ocr_input : string)
  : HTTPException + OCRResponse :=
  let result := fst (Service.process_image path_exists s ocr_input) in
  match build_response cfg validation_error result with
  | Ok response => inr response
  | Err e => inl (HTTPError 500 ("OCR processing failed: " ++ str_exn e))
  end.

End Routes.

(** ** More vocabulary *)

Module Terms.
Import Layout Engines.

(** The string [reconstruct_layout] returns. *)
Definition layout_text (lines : list fragment) : string :=
  match snd (reconstruct_layout lines) with
  | Ok t => t
  | Err _ => ""
  end.

(** The list [lines] as [reconstruct_layout] leaves it. *)
Definition layout_order (lines : list fragment) : list fragment :=
  fst (reconstruct_layout lines).

(** The dict of a successful recognition. *)
Definition success_result (kind t : string) (lines : list fragment)
  : RecognitionResult :=
  {| success := true; res_text := Some t; res_lines := Some lines;
     engine := Some kind; error := None |}.

(** The box of a fragment is of the [[x, y, w, h]] kind. *)
Definition axis_aligned (f : fragment) : Prop :=
  match bbox f with
  | AxisAligned _ _ _ _ => True
  | Polygon _ _ => False
  end.

(** A point with whole-number coordinates. *)
Definition integral (p : point) : Prop :=
  exists a b : Z, p = (inject_Z a, inject_Z b).

(** The name the class of an engine object puts under ["engine"]. *)
Definition engine_name {image} (e : ServiceInit.engine_object image) : string :=
  match e with
  | ServiceInit.PaddleObject _ => "paddleocr"
  | ServiceInit.TesseractObject _ => "tesseract"
  | ServiceInit.EasyObject _ => "easyocr"
  end.

(** The engine names [OCRService] knows. *)
Definition supported_engines : list string :=
  ["paddleocr"; "tesseract"; "easyocr"].

(** Two lists with the same members. *)
Definition same_set (a b : list string) : Prop :=
  forall x, In x a <-> In x b.

(** A confidence the response model accepts. *)
Definition valid_confidence (f : fragment) : Prop :=
  0 <= confidence f /\ confidence f <= 1.

(** A form field that is absent or not above zero. *)
Definition not_positive (o : option Q) : Prop :=
  match o with
  | Some q => q <= 0
  | None => True
  end.

(** All the elements of an image array. *)
Definition elements (im : Preprocessing.image) : list Z :=
  match im with
  | Preprocessing.Gray px => concat px
  | Preprocessing.Color px => concat (map (@concat Z) px)
  end.

(** An image with no element above zero. *)
Definition blank (im : Preprocessing.image) : Prop :=
  Forall (fun v => (v <= 0)%Z) (elements im).




End Terms.

(** ** Python's numbers

    The modules above compute with exact rationals.  The modules below are
    [reconstruct_layout] and the two adapters that call it with the numbers
    Python computes with: [int], of any size and exact, and [float], the
    binary64 numbers, every operation on them rounded to the nearest one. *)

(** *** binary64 *)

Module Binary64.

(** A binary64 number: a finite one, given by its value, an infinity or
    NaN.  The two zeros are one value here; the code does nothing that tells
    them apart (it prints no number and divides by none it has computed). *)
Inductive float : Type :=
| Finite (q : Q)
| PosInf
| NegInf
| NaN.

(** For [q > 0], the [e] with [2^e <= q < 2^(e+1)]. *)
Definition floor_log2 (q : Q) : Z :=
  let e := (Z.log2 (Qnum q) - Z.log2 (Zpos (Qden q)))%Z in
  if Qle_bool (2 ^ e) q then e else (e - 1)%Z.

(** The nearest integer, the even one of two that are equally near. *)
Definition round_half_even (q : Q) : Z :=
  let f := Qfloor q in
  match Qcompare (q - inject_Z f) (1 # 2) with
  | Lt => f
  | Eq => if Z.even f then f else (f + 1)%Z
  | Gt => (f + 1)%Z
  end.

(** The exponent of the unit in the last place around [q]: 53 significant
    bits, and no exponent below that of the subnormal numbers. *)
Definition ulp_exp (q : Q) : Z :=
  Z.max (floor_log2 (Qabs q) - 52) (-1074).

(** Rounding to nearest, ties to even: the binary64 number that stands for
    the real [q], an infinity from [2^1024] on. *)
Definition round (q : Q) : float :=
  let q := Qred q in
  if Qeq_bool q 0 then Finite 0
  else
    let u := ulp_exp q in
    let r := Qred (inject_Z (round_half_even (q / 2 ^ u)) * 2 ^ u) in
    if Qle_bool (2 ^ 1024) r then PosInf
    else if Qle_bool r (- 2 ^ 1024) then NegInf
    else Finite r.

Definition is_negative (a : float) : bool :=
  match a with
  | Finite q => Qltb q 0
  | NegInf => true
  | _ => false
  end.

Definition infinity (negative : bool) : float :=
  if negative then NegInf else PosInf.

Definition fopp (a : float) : float :=
  match a with
  | Finite q => Finite (- q)
  | PosInf => NegInf
  | NegInf => PosInf
  | NaN => NaN
  end.

Definition fabs (a : float) : float :=
  match a with
  | Finite q => Finite (Qabs q)
  | PosInf | NegInf => PosInf
  | NaN => NaN
  end.

Definition fadd (a b : float) : float :=
  match a, b with
  | NaN, _ | _, NaN => NaN
  | Finite x, Finite y => round (x + y)
  | PosInf, NegInf | NegInf, PosInf => NaN
  | PosInf, _ | _, PosInf => PosInf
  | NegInf, _ | _, NegInf => NegInf
  end.

Definition fsub (a b : float) : float := fadd a (fopp b).

Definition fmul (a b : float) : float :=
  match a, b with
  | NaN, _ | _, NaN => NaN
  | Finite x, Finite y => round (x * y)
  | Finite x, _ | _, Finite x =>
      if Qeq_bool x 0 then NaN
      else infinity (xorb (is_negative a) (is_negative b))
  | _, _ => infinity (xorb (is_negative a) (is_negative b))
  end.

(** [a / b] for a divisor that is not zero. *)
Definition fdiv (a b : float) : float :=
  match a, b with
  | NaN, _ | _, NaN => NaN
  | Finite x, Finite y => round (x / y)
  | Finite _, _ => Finite 0
  | _, Finite _ => infinity (xorb (is_negative a) (is_negative b))
  | _, _ => NaN
  end.

(** [a < b]: false whenever one of the two is NaN. *)
Definition flt (a b : float) : bool :=
  match a, b with
  | NaN, _ | _, NaN => false
  | Finite x, Finite y => Qltb x y
  | _, NegInf => false
  | NegInf, _ => true
  | PosInf, _ => false
  | _, PosInf => true
  end.

(** The value of a float of the machine, for comparing [round] and the
    operations above with the processor's own. *)
Definition of_machine (f : PrimFloat.float) : float :=
  match Prim2SF f with
  | S754_zero _ => Finite 0
  | S754_infinity negative => infinity negative
  | S754_nan => NaN
  | S754_finite negative m e =>
      Finite (Qred (inject_Z (if negative then Z.neg m else Z.pos m) * 2 ^ e))
  end.

End Binary64.

(** *** [int] and [float] together *)

Module PyNumber.
Import Binary64.

Inductive number : Type :=
| Int (z : Z)
| Float (f : float).

(** The value of a number, exactly.  Python compares two numbers by their
    values, also an [int] with a [float]. *)
Definition exact (n : number) : float :=
  match n with
  | Int z => Finite (inject_Z z)
  | Float f => f
  end.

(** [a < b] *)
Definition lt (a b : number) : bool := flt (exact a) (exact b).

(** A rational that sorts as the number does among the numbers that can be
    keys of a sort here (no NaN, and every finite float computed below
    [2^1024]). *)
Definition sort_key (n : number) : Q :=
  match exact n with
  | Finite q => q
  | PosInf => 2 ^ 1024
  | NegInf => - 2 ^ 1024
  | NaN => 0
  end.

(** [float(n)], also the conversion of an [int] that meets a [float] in an
    operation. *)
Definition to_float (n : number) : result float :=
  match n with
  | Float f => Ok f
  | Int z =>
      match round (inject_Z z) with
      | Finite q => Ok (Finite q)
      | _ => Err (OverflowError "int too large to convert to float")
      end
  end.

(** [a + b], [a - b], [a * b]: exact on two [int]s, in binary64 otherwise. *)
Definition add (a b : number) : result number :=
  match a, b with
  | Int x, Int y => Ok (Int (x + y))
  | _, _ => x <- to_float a ;; y <- to_float b ;; Ok (Float (fadd x y))
  end.

Definition sub (a b : number) : result number :=
  match a, b with
  | Int x, Int y => Ok (Int (x - y))
  | _, _ => x <- to_float a ;; y <- to_float b ;; Ok (Float (fsub x y))
  end.

Definition mul (a b : number) : result number :=
  match a, b with
  | Int x, Int y => Ok (Int (x * y))
  | _, _ => x <- to_float a ;; y <- to_float b ;; Ok (Float (fmul x y))
  end.

(** [a / n] for an [int] [n >= 1] (the code divides by [2], by [10] and by
    the length of a list that is not empty): always a [float]; the quotient
    of two [int]s is rounded once. *)
Definition div_int (a : number) (n : positive) : result number :=
  match a with
  | Int x =>
      match round (inject_Z x / inject_Z (Zpos n)) with
      | Finite q => Ok (Float (Finite q))
      | _ => Err (OverflowError "integer division result too large for a float")
      end
  | Float f => d <- to_float (Int (Zpos n)) ;; Ok (Float (fdiv f d))
  end.

(** [abs(a)] *)
Definition abs (a : number) : number :=
  match a with
  | Int z => Int (Z.abs z)
  | Float f => Float (fabs f)
  end.

(** [int(a)]: truncation towards zero. *)
Definition int (a : number) : result Z :=
  match a with
  | Int z => Ok z
  | Float (Finite q) => Ok (py_int q)
  | Float NaN => Err (ValueError "cannot convert float NaN to integer")
  | Float _ => Err (OverflowError "cannot convert float infinity to integer")
  end.

(** [max(a, b)]: the first one unless the second is greater. *)
Definition max2 (a b : number) : number := if lt a b then b else a.

(** [min] and [max] of a sequence that is not empty: the first extremal
    element. *)
Definition min_of (first : number) (rest : list number) : number :=
  fold_left (fun m v => if lt v m then v else m) rest first.

Definition max_of (first : number) (rest : list number) : number :=
  fold_left (fun m v => if lt m v then v else m) rest first.

(** [sum(xs)]: starts from the [int] 0 and adds from the left.  (From Python
    3.12 on, [sum] corrects the rounding errors of [float] additions; this is
    [sum] up to 3.11.  On [int]s the two are the same.) *)
Definition sum (xs : list number) : result number := foldM add xs (Int 0).

(** [s * n] for a string: the count must fit the machine's index type
    ([sys.maxsize] is [2^63 - 1]).  Below that the string is built; the model
    has no bound for the memory it takes. *)
Definition str_times (s : string) (n : Z) : result string :=
  if (2 ^ 63 - 1 <? n)%Z
  then Err (OverflowError "cannot fit 'int' into an index-sized integer")
  else Ok (str_mul s n).

End PyNumber.

(** ** [reconstruct_layout] on Python's numbers *)

Module PyLayout.
Import Binary64 PyNumber.

(** A coordinate as the engines give it: an [int] or a finite [float], the
    latter given by its value. *)
Inductive coordinate : Type :=
| IntCoord (z : Z)
| FloatCoord (q : Q).

Definition num (c : coordinate) : number :=
  match c with
  | IntCoord z => Int z
  | FloatCoord q => Float (Finite q)
  end.

(** The coordinate a [float] literal stands for (a literal in the range of
    binary64). *)
Definition literal (q : Q) : coordinate :=
  match round q with
  | Finite r => FloatCoord r
  | _ => FloatCoord 0
  end.

Definition point : Type := coordinate * coordinate.

(** The two kinds of box, as in [BoundingBox]. *)
Inductive box : Type :=
| AxisAligned (x y w h : coordinate)
| Polygon (p : point) (ps : list point).

(** The dict [{"text", "confidence", "bbox"}]. *)
Record fragment : Type := Fragment {
  text : string;
  confidence : number;
  bbox : box
}.

(** Center Y of a box. *)
Definition get_cy (b : box) : result number :=
  match b with
  | Polygon p ps =>
      let ys := map (fun p => num (snd p)) (p :: ps) in
      s <- sum ys ;;
      div_int s (Pos.of_succ_nat (List.length ps))
  | AxisAligned x y w h =>
      half <- div_int (num h) 2 ;;
      add (num y) half
  end.

(** Center X of a box. *)
Definition get_cx (b : box) : result number :=
  match b with
  | Polygon p ps =>
      let xs := map (fun p => num (fst p)) (p :: ps) in
      s <- sum xs ;;
      div_int s (Pos.of_succ_nat (List.length ps))
  | AxisAligned x y w h =>
      half <- div_int (num w) 2 ;;
      add (num x) half
  end.

(** Left X of a box. *)
Definition get_x (b : box) : number :=
  match b with
  | Polygon p ps => min_of (num (fst p)) (map (fun p => num (fst p)) ps)
  | AxisAligned x y w h => num x
  end.

(** Height of a box. *)
Definition get_h (b : box) : result number :=
  match b with
  | Polygon p ps =>
      let first := num (snd p) in
      let rest := map (fun p => num (snd p)) ps in
      sub (max_of first rest) (min_of first rest)
  | AxisAligned x y w h => Ok (num h)
  end.

(** The right edge the row loop stores in [last_x_end]. *)
Definition get_x_end (b : box) : result number :=
  match b with
  | Polygon p ps => Ok (max_of (num (fst p)) (map (fun p => num (fst p)) ps))
  | AxisAligned x y w h => add (num x) (num w)
  end.

(** [lines.sort(key=...)] with numbers as keys. *)
Definition list_sort_by {A} (key : A -> result number) (l : list A)
  : result (list A) :=
  list_sort (fun a => k <- key a ;; Ok (sort_key k)) l.

(** State of the grouping loop: [rows] and [current_row]. *)
Definition group_state : Type := list (list fragment) * list fragment.

(** Body of [for i in range(1, len(lines))]. *)
Definition group_step (st : group_state) (box : fragment) : result group_state :=
  let '(rows, current_row) := st in
  prev_box <- last_item current_row ;;
  h <- get_h (bbox prev_box) ;;
  c <- get_cy (bbox box) ;;
  p <- get_cy (bbox prev_box) ;;
  d <- sub c p ;;
  let y_diff := abs d in
  t <- mul h (Float (Finite (1 # 2))) ;;
  if lt y_diff t
  then Ok (rows, (current_row ++ [box])%list)
  else Ok ((rows ++ [current_row])%list, [box]).

(** Lines 66-89: the rows of a list already sorted by center Y. *)
Definition group_rows (lines : list fragment) : result (list (list fragment)) :=
  match lines with
  | [] => Ok []
  | first :: rest =>
      st <- foldM group_step rest ([], [first]) ;;
      let '(rows, current_row) := st in
      match current_row with
      | [] => Ok rows
      | _ => Ok (rows ++ [current_row])%list
      end
  end.

(** State of the loop over one row: [line_text] and [last_x_end]. *)
Definition line_state : Type := string * number.

(** Body of [for item in row]. *)
Definition line_step (st : line_state) (item : fragment) : result line_state :=
  let '(line_text, last_x_end) := st in
  let box := bbox item in
  let x_start := get_x box in
  line_text <-
    (if lt (Int 0) last_x_end
     then
       d <- sub x_start last_x_end ;;
       let gap := max2 (Int 0) d in
       q <- div_int gap 10 ;;
       spaces <- int q ;;
       pad <- str_times " " spaces ;;
       Ok (line_text ++ pad)
     else Ok line_text) ;;
  let line_text := line_text ++ text item in
  last_x_end <- get_x_end box ;;
  Ok (line_text, last_x_end).

(** Body of [for row in rows]: the text of one row. *)
Definition build_line (row : list fragment) : result string :=
  row <- list_sort_by (fun l => Ok (get_x (bbox l))) row ;;
  st <- foldM line_step row ("", Int 0) ;;
  Ok (fst st).

(** [reconstruct_layout(lines)].  The first component is the content of the
    list object [lines] when the call ends, the second what the call returns
    or raises. *)
Definition reconstruct_layout (lines : list fragment) : list fragment * result string :=
  match lines with
  | [] => (lines, Ok "")
  | _ =>
      match list_sort_by (fun l => get_cy (bbox l)) lines with
      | Err e => (lines, Err e)
      | Ok lines =>
          (lines,
           rows <- group_rows lines ;;
           output_lines <- mapM build_line rows ;;
           Ok (join newline output_lines))
      end
  end.

End PyLayout.

(** ** The adapters that call [reconstruct_layout], on Python's numbers *)

Module PyEngines.
Import PyNumber PyLayout.

(** The dict an adapter returns; a key that is absent is [None]. *)
Record RecognitionResult : Type := Result {
  success : bool;
  res_text : option string;
  res_lines : option (list fragment);
  engine : option string;
  error : option string
}.

(** The dict of the [except Exception as e] branch of an adapter. *)
Definition failure (kind : string) (e : exn) : RecognitionResult :=
  {| success := false; res_text := None; res_lines := None;
     engine := Some kind; error := Some (str_exn e) |}.

(** [try: <body> except Exception as e: return <failure>] *)
Definition try_except (kind : string) (body : result RecognitionResult)
  : RecognitionResult :=
  match body with
  | Ok r => r
  | Err e => failure kind e
  end.

(** *** PaddleOCR *)

(** One raw detection [[bbox, (text, confidence)]]. *)
Record paddle_line : Type := PaddleLine {
  pl_bbox : box;
  pl_text : string;
  pl_confidence : number
}.

Definition paddle_output : Type := option (list (option (list paddle_line))).

Record PaddleOCREngine : Type := {
  ocr : string -> result paddle_output
}.

Definition paddle_empty : RecognitionResult :=
  {| success := true; res_text := Some ""; res_lines := Some [];
     engine := Some "paddleocr"; error := None |}.

(** Body of [for line in result[0]]: the dict appended to [lines]. *)
Definition paddle_fragment (line : paddle_line) : result fragment :=
  c <- to_float (pl_confidence line) ;;
  Ok {| text := pl_text line; confidence := Float c; bbox := pl_bbox line |}.

(** The [try] block of [PaddleOCREngine.recognize]. *)
Definition paddle_body (self : PaddleOCREngine) (image_path : string)
  : result RecognitionResult :=
  result <- ocr self image_path ;;
  match result with
  | None | Some [] | Some (None :: _) | Some (Some [] :: _) => Ok paddle_empty
  | Some (Some page :: _) =>
      lines <- mapM paddle_fragment page ;;
      let '(lines, layout) := reconstruct_layout lines in
      t <- layout ;;
      Ok {| success := true; res_text := Some t; res_lines := Some lines;
            engine := Some "paddleocr"; error := None |}
  end.

Definition paddle_recognize (self : PaddleOCREngine) (image_path : string)
  : RecognitionResult :=
  try_except "paddleocr" (paddle_body self image_path).

(** *** EasyOCR *)

(** One raw detection [(bbox, text, prob)]; the box is a list of points,
    here its first point and the others, each a pair of numbers. *)
Record easy_detection : Type := EasyDetection {
  ed_bbox : (number * number) * list (number * number);
  ed_text : string;
  ed_prob : number
}.

(** [[int(p[0]), int(p[1])]] *)
Definition int_point (p : number * number) : result point :=
  x <- int (fst p) ;;
  y <- int (snd p) ;;
  Ok (IntCoord x, IntCoord y).

Record EasyOCREngine : Type := {
  readtext : string -> result (list easy_detection)
}.

(** Body of [for (bbox, text, prob) in results]: the dict appended to
    [lines]. *)
Definition easy_fragment (d : easy_detection) : result fragment :=
  c <- to_float (ed_prob d) ;;
  p <- int_point (fst (ed_bbox d)) ;;
  ps <- mapM int_point (snd (ed_bbox d)) ;;
  Ok {| text := ed_text d; confidence := Float c; bbox := Polygon p ps |}.

(** The [try] block of [EasyOCREngine.recognize]. *)
Definition easy_body (self : EasyOCREngine) (image_path : string)
  : result RecognitionResult :=
  results <- readtext self image_path ;;
  lines <- mapM easy_fragment results ;;
  let '(lines, layout) := reconstruct_layout lines in
  t <- layout ;;
  Ok {| success := true; res_text := Some t; res_lines := Some lines;
        engine := Some "easyocr"; error := None |}.

Definition easy_recognize (self : EasyOCREngine) (image_path : string)
  : RecognitionResult :=
  try_except "easyocr" (easy_body self image_path).

(** *** Tesseract

    The engine object and the columns of [image_to_data] are those of
    [Engines]; the adapter does not call [reconstruct_layout]. *)

(** Body of [for i in range(n_boxes)]. *)
Definition tess_step (data : Engines.tess_data) (lines : list fragment) (i : nat)
  : result (list fragment) :=
  c <- index (Engines.d_conf data) i ;;
  if (0 <? c)%Z then
    t <- index (Engines.d_text data) i ;;
    c <- index (Engines.d_conf data) i ;;
    cf <- to_float (Int c) ;;
    let conf := Binary64.fdiv cf (Binary64.Finite 100) in
    l <- index (Engines.d_left data) i ;;
    tp <- index (Engines.d_top data) i ;;
    w <- index (Engines.d_width data) i ;;
    h <- index (Engines.d_height data) i ;;
    Ok (lines ++ [ {| text := t;
                      confidence := Float conf;
                      bbox := AxisAligned (IntCoord l) (IntCoord tp)
                                          (IntCoord w) (IntCoord h) |} ])%list
  else Ok lines.

(** Lines 283-297: the fragments built from the columns. *)
Definition tess_lines (data : Engines.tess_data) : result (list fragment) :=
  let n_boxes := List.length (Engines.d_text data) in
  foldM (tess_step data) (seq 0 n_boxes) [].

(** The [try] block of [TesseractOCREngine.recognize]. *)
Definition tess_body {image} (self : Engines.TesseractOCREngine image)
  (image_path : string) : result RecognitionResult :=
  img <- Engines.Image_open self image_path ;;
  data <- Engines.image_to_data self img (Engines.lang self) ;;
  whole <- Engines.image_to_string self img (Engines.lang self) ;;
  let t := strip whole in
  lines <- tess_lines data ;;
  Ok {| success := true; res_text := Some t; res_lines := Some lines;
        engine := Some "tesseract"; error := None |}.

Definition tess_recognize {image} (self : Engines.TesseractOCREngine image)
  (image_path : string) : RecognitionResult :=
  try_except "tesseract" (tess_body self image_path).

End PyEngines.

(** ** Vocabulary for the layout on Python's numbers *)

Module PyTerms.
Import Binary64 PyNumber PyLayout.

(** The row test of the grouping loop, as the code evaluates it:
    [abs(get_cy(box) - get_cy(prev)) < get_h(prev) * 0.5]. *)
Definition same_row (prev cur : fragment) : result bool :=
  h <- get_h (bbox prev) ;;
  c <- get_cy (bbox cur) ;;
  p <- get_cy (bbox prev) ;;
  d <- sub c p ;;
  t <- mul h (Float (Finite (1 # 2))) ;;
  Ok (lt (abs d) t).

(** Every member of a row but the first passed the row test against the
    member before it. *)
Fixpoint chained (row : list fragment) : Prop :=
  match row with
  | a :: (b :: _) as tl => same_row a b = Ok true /\ chained tl
  | _ => True
  end.

(** The first member of a row failed the row test against the last member
    of the row before it. *)
Fixpoint separated (rows : list (list fragment)) : Prop :=
  match rows with
  | r1 :: (r2 :: _) as tl =>
      (forall a b, last_item r1 = Ok a -> hd_error r2 = Some b ->
                   same_row a b = Ok false)
      /\ separated tl
  | _ => True
  end.

(** What the grouping loop keeps true of [rows] and [current_row]. *)
Definition grouped (done : list fragment) (st : group_state) : Prop :=
  snd st <> []
  /\ (concat (fst st) ++ snd st)%list = done
  /\ Forall (fun row => row <> []) (fst st)
  /\ Forall chained (fst st ++ [snd st])
  /\ separated (fst st ++ [snd st]).

(** The keys of the two sorts. *)
Definition cy_key (f : fragment) : Q :=
  val (k <- get_cy (bbox f) ;; Ok (sort_key k)).

Definition left_key (f : fragment) : Q := sort_key (get_x (bbox f)).

(** The number of spaces put before a member that starts at [x_start] after
    one that ends at [last_x_end], as the code evaluates it:
    [int(max(0, x_start - last_x_end) / 10)]. *)
Definition gap_spaces (last_x_end x_start : number) : result Z :=
  d <- sub x_start last_x_end ;;
  q <- div_int (max2 (Int 0) d) 10 ;;
  int q.

(** The four corners of the rectangle [[x, y, w, h]] of [int]s. *)
Definition int_corners (x y w h : Z) : list point :=
  [(IntCoord x, IntCoord y); (IntCoord (x + w), IntCoord y);
   (IntCoord (x + w), IntCoord (y + h)); (IntCoord x, IntCoord (y + h))].

(** A number that is neither NaN nor an infinity; one that is not NaN. *)
Definition finite (n : number) : Prop :=
  match n with
  | Float (Finite _) | Int _ => True
  | _ => False
  end.

Definition not_nan (n : number) : Prop := n <> Float NaN.

(** The exception is an [OverflowError]. *)
Definition is_overflow (e : exn) : Prop := exists msg, e = OverflowError msg.

(** The fragment of token [i] of a Tesseract answer: its confidence is the
    binary64 number nearest to the hundredth of the token's. *)
Definition token (data : Engines.tess_data) (i : nat) : fragment :=
  {| text := nth i (Engines.d_text data) "";
     confidence :=
       Float (round (inject_Z (nth i (Engines.d_conf data) 0%Z) / 100));
     bbox := AxisAligned (IntCoord (nth i (Engines.d_left data) 0%Z))
                         (IntCoord (nth i (Engines.d_top data) 0%Z))
                         (IntCoord (nth i (Engines.d_width data) 0%Z))
                         (IntCoord (nth i (Engines.d_height data) 0%Z)) |}.

(** The tokens of positive confidence, in order. *)
Definition kept (data : Engines.tess_data) : list nat :=
  filter (fun i => (0 <? nth i (Engines.d_conf data) 0)%Z)
         (seq 0 (List.length (Engines.d_text data))).

End PyTerms.

(** ** From Python's numbers to exact ones *)

Module Exact.

(** The value of a coordinate. *)
Definition value (c : PyLayout.coordinate) : Q :=
  match c with
  | PyLayout.IntCoord z => inject_Z z
  | PyLayout.FloatCoord q => q
  end.

Definition exact_point (p : PyLayout.point) : point :=
  (value (fst p), value (snd p)).

(** A box and a fragment with the values of their coordinates in place of
    the numbers: what the modules on exact rationals work on. *)
Definition exact_box (b : PyLayout.box) : BoundingBox :=
  match b with
  | PyLayout.AxisAligned x y w h =>
      AxisAligned (value x) (value y) (value w) (value h)
  | PyLayout.Polygon p ps => Polygon (exact_point p) (map exact_point ps)
  end.

Definition exact_fragment (f : PyLayout.fragment) : fragment :=
  {| text := PyLayout.text f;
     confidence := PyNumber.sort_key (PyLayout.confidence f);
     bbox := exact_box (PyLayout.bbox f) |}.

(** A coordinate that is an [int] below [bound] in absolute value. *)
Definition small_int (bound : Z) (c : PyLayout.coordinate) : Prop :=
  match c with
  | PyLayout.IntCoord z => (Z.abs z < bound)%Z
  | PyLayout.FloatCoord _ => False
  end.

(** A box of such coordinates: [[x, y, w, h]] or four points. *)
Definition small_int_box (bound : Z) (b : PyLayout.box) : Prop :=
  match b with
  | PyLayout.AxisAligned x y w h =>
      small_int bound x /\ small_int bound y
      /\ small_int bound w /\ small_int bound h
  | PyLayout.Polygon p ps =>
      List.length ps = 3%nat
      /\ Forall (fun p => small_int bound (fst p) /\ small_int bound (snd p))
                (p :: ps)
  end.

(** A fragment whose box has [int] coordinates below [2^48] in absolute
    value: every box of pixel coordinates of an image. *)
Definition small_ints (f : PyLayout.fragment) : Prop :=
  small_int_box (2 ^ 48) (PyLayout.bbox f).

End Exact.

(** * Properties *)

(** [Forall P [a; b; ...]] with every [P a] in reach of [auto]. *)
Ltac each_member := repeat (apply Forall_cons; [auto|]); apply Forall_nil.

(** ** Numbers *)

Lemma Qltb_lt (a b : Q) : Qltb a b = true <-> a < b.
Proof. unfold Qltb, Qlt. apply Z.ltb_lt. Qed.

Lemma Qltb_ge (a b : Q) : Qltb a b = false <-> b <= a.
Proof. unfold Qltb, Qle. apply Z.ltb_ge. Qed.

#[export] Instance Qltb_Proper : Proper (Qeq ==> Qeq ==> eq) Qltb.
Proof.
  intros a a' Ha b b' Hb.
  destruct (Qltb a b) eqn:E, (Qltb a' b') eqn:E'; trivial.
  - apply Qltb_lt in E. apply Qltb_ge in E'. rewrite Ha, Hb in E.
    exfalso. apply (Qlt_irrefl a'). eapply Qlt_le_trans; eassumption.
  - apply Qltb_ge in E. apply Qltb_lt in E'. rewrite <- Ha, <- Hb in E'.
    exfalso. apply (Qlt_irrefl a). eapply Qlt_le_trans; eassumption.
Qed.

Lemma py_max2_Qmax (a b : Q) : py_max2 a b == Qmax a b.
Proof.
  unfold py_max2. destruct (Qltb a b) eqn:E.
  - apply Qltb_lt in E. symmetry. apply Q.max_r. now apply Qlt_le_weak.
  - apply Qltb_ge in E. symmetry. now apply Q.max_l.
Qed.

Lemma py_int_floor (q : Q) : 0 <= q -> py_int q = Qfloor q.
Proof.
  destruct q as [n d]. unfold py_int, Qfloor, Qle. simpl. intros H.
  apply Z.quot_div_nonneg; lia.
Qed.

(** The number of spaces the row loop inserts is the floor the specification
    names. *)
Lemma py_int_gap (x_start last_x_end : Q) :
  py_int (py_max2 0 (x_start - last_x_end) / 10)
  = Spec.gap_spaces last_x_end x_start.
Proof.
  unfold Spec.gap_spaces.
  rewrite py_int_floor.
  - now rewrite py_max2_Qmax.
  - apply Qle_shift_div_l; [reflexivity|].
    rewrite Qmult_0_l, py_max2_Qmax. apply Q.le_max_l.
Qed.

(** ** The result monad *)

Lemma mapM_Ok {A B} (f : A -> result B) (g : A -> B) (l : list A) :
  Forall (fun a => f a = Ok (g a)) l -> mapM f l = Ok (map g l).
Proof.
  induction 1 as [|a l Ha _ IH]; simpl; [reflexivity|].
  now rewrite Ha, IH.
Qed.

Lemma foldM_cons {S A} (body : S -> A -> result S) (a : A) (l : list A) (s : S) :
  foldM body (a :: l) s = (s' <- body s a ;; foldM body l s').
Proof. reflexivity. Qed.

Lemma bind_Ok {A B} (a : A) (k : A -> result B) : bind (Ok a) k = k a.
Proof. reflexivity. Qed.

Lemma foldM_app {S A} (body : S -> A -> result S) (l1 l2 : list A) (s : S) :
  foldM body (l1 ++ l2) s = (s' <- foldM body l1 s ;; foldM body l2 s').
Proof.
  revert s. induction l1 as [|a l1 IH]; intros s; simpl; [reflexivity|].
  destruct (body s a); simpl; auto.
Qed.

(** ** Stable sorting *)

Section Sorting.
Import Spec.
Context {A : Type}.
Implicit Types (l : list (Q * A)) (k : Q) (x : A).

Lemma insert_keyed_perm k x l : Permutation ((k, x) :: l) (insert_keyed k x l).
Proof.
  induction l as [|[k' y] l IH]; simpl; [reflexivity|].
  destruct (Qltb k' k); [|reflexivity].
  rewrite perm_swap. now apply perm_skip.
Qed.

Lemma sort_keyed_perm l : Permutation l (sort_keyed l).
Proof.
  induction l as [|[k x] l IH]; simpl; [reflexivity|].
  rewrite <- insert_keyed_perm. now apply perm_skip.
Qed.

Lemma insert_keyed_sorted k x l :
  StronglySorted key_le l -> StronglySorted key_le (insert_keyed k x l).
Proof.
  induction 1 as [|[k' y] l Hs IH Hall]; simpl.
  - repeat constructor.
  - destruct (Qltb k' k) eqn:E.
    + constructor; [assumption|].
      rewrite <- insert_keyed_perm. constructor; [|assumption].
      apply Qltb_lt in E. now apply Qlt_le_weak.
    + apply Qltb_ge in E. constructor; [now constructor|].
      constructor; [exact E|].
      eapply Forall_impl; [|exact Hall].
      intros [k'' z] Hz. unfold key_le in *; simpl in *.
      eapply Qle_trans; eassumption.
Qed.

Lemma sort_keyed_sorted l : StronglySorted key_le (sort_keyed l).
Proof.
  induction l as [|[k x] l IH]; simpl; [constructor|].
  now apply insert_keyed_sorted.
Qed.

(** Stability: the elements with one key stay in their order. *)
Lemma insert_keyed_filter (c : Q) k x l :
  filter (fun p => Qeq_bool (fst p) c) (insert_keyed k x l)
  = filter (fun p => Qeq_bool (fst p) c) ((k, x) :: l).
Proof.
  induction l as [|[k' y] l IH]; [reflexivity|].
  simpl insert_keyed. destruct (Qltb k' k) eqn:E; [|reflexivity].
  simpl in *. rewrite IH.
  destruct (Qeq_bool k' c) eqn:E1, (Qeq_bool k c) eqn:E2; try reflexivity.
  apply Qeq_bool_iff in E1, E2. apply Qltb_lt in E.
  rewrite E1, E2 in E. now apply Qlt_irrefl in E.
Qed.

Lemma sort_keyed_filter (c : Q) l :
  filter (fun p => Qeq_bool (fst p) c) (sort_keyed l)
  = filter (fun p => Qeq_bool (fst p) c) l.
Proof.
  induction l as [|[k x] l IH]; [reflexivity|].
  simpl sort_keyed. rewrite insert_keyed_filter. simpl. now rewrite IH.
Qed.

Section SortBy.
Context (kv : A -> Q).
Implicit Types (L : list A).


Lemma decorated_sorted L :
  StronglySorted key_le (map (decorate kv) L) <-> ascending kv L.
Proof.
  unfold ascending. induction L as [|a L IH]; simpl.
  - split; constructor.
  - split; intros H; apply StronglySorted_inv in H as [H1 H2];
      (constructor; [now apply IH|]).
    + rewrite Forall_map in H2. exact H2.
    + rewrite Forall_map. exact H2.
Qed.

Lemma decorated_filter (c : Q) L :
  filter (fun p => Qeq_bool (fst p) c) (map (decorate kv) L) = map (decorate kv) (with_key kv c L).
Proof.
  unfold with_key. induction L as [|a L IH]; simpl; [reflexivity|].
  rewrite IH. now destruct (Qeq_bool (kv a) c).
Qed.

Lemma sort_keyed_decorated L :
  sort_keyed (map (decorate kv) L) = map (decorate kv) (sort_by kv L).
Proof.
  unfold sort_by.
  assert (H : Forall (fun p => p = (decorate kv) (snd p)) (sort_keyed (map (decorate kv) L))).
  { rewrite <- sort_keyed_perm. rewrite Forall_map.
    apply Forall_forall. reflexivity. }
  induction H as [|p P Hp _ IH]; simpl; [reflexivity|].
  now rewrite <- IH, <- Hp.
Qed.

Lemma map_dec_inj L L' : map (decorate kv) L = map (decorate kv) L' -> L = L'.
Proof.
  intros H. apply (f_equal (map snd)) in H.
  rewrite !map_map in H. simpl in H. now rewrite !map_id in H.
Qed.

Lemma sort_by_perm L : Permutation L (sort_by kv L).
Proof.
  unfold sort_by.
  rewrite <- sort_keyed_perm, map_map. simpl. now rewrite map_id.
Qed.

Lemma sort_by_ascending L : ascending kv (sort_by kv L).
Proof.
  apply decorated_sorted. rewrite <- sort_keyed_decorated.
  apply sort_keyed_sorted.
Qed.

Lemma sort_by_stable (c : Q) L : with_key kv c (sort_by kv L) = with_key kv c L.
Proof.
  apply map_dec_inj.
  now rewrite <- !decorated_filter, <- sort_keyed_decorated, sort_keyed_filter.
Qed.

(** [list.sort] with a key that does not raise. *)
Lemma list_sort_Ok (key : A -> result Q) L :
  Forall (fun a => key a = Ok (kv a)) L ->
  list_sort key L = Ok (sort_by kv L).
Proof.
  intros H. unfold list_sort, sort_by.
  rewrite (mapM_Ok _ _ _ H). simpl. do 3 f_equal.
  clear H. induction L as [|a L IH]; simpl; [reflexivity|]. now rewrite IH.
Qed.

Lemma with_key_cons (c : Q) (a : A) L :
  with_key kv c (a :: L)
  = if Qeq_bool (kv a) c then a :: with_key kv c L else with_key kv c L.
Proof. reflexivity. Qed.

Lemma with_key_In (c : Q) (a : A) L : In a (with_key kv c L) -> In a L.
Proof. unfold with_key. intros H. now apply filter_In in H. Qed.

(** A sorted list is determined by its elements of each key: whatever stable
    algorithm sorts [L], the outcome is [sort_by kv L]. *)
Lemma stable_sorted_unique L1 L2 :
  ascending kv L1 -> ascending kv L2 ->
  (forall c, with_key kv c L1 = with_key kv c L2) ->
  L1 = L2.
Proof.
  revert L2. induction L1 as [|a T1 IH]; intros [|b T2] H1 H2 H.
  - reflexivity.
  - specialize (H (kv b)). rewrite with_key_cons, Qeq_bool_refl in H.
    discriminate.
  - specialize (H (kv a)). rewrite with_key_cons, Qeq_bool_refl in H.
    discriminate.
  - apply StronglySorted_inv in H1 as [H1 Ha], H2 as [H2 Hb].
    rewrite Forall_forall in Ha, Hb.
    assert (a = b) as <-.
    { pose proof (H (kv a)) as Ea. pose proof (H (kv b)) as Eb.
      rewrite !with_key_cons, Qeq_bool_refl in Ea, Eb.
      destruct (Qeq_bool (kv b) (kv a)) eqn:E; [congruence|].
      rewrite Qeq_bool_comm, E in Eb.
      assert (In a T2) as Ia by (eapply with_key_In; rewrite <- Ea; now left).
      assert (In b T1) as Ib by (eapply with_key_In; rewrite Eb; now left).
      apply Qeq_bool_neq in E. exfalso. apply E.
      apply Qle_antisym; auto. }
    f_equal. apply IH; trivial.
    intros c. specialize (H c). rewrite !with_key_cons in H.
    destruct (Qeq_bool (kv a) c); congruence.
Qed.

Lemma sort_by_unique L L' :
  ascending kv L' ->
  (forall c, with_key kv c L' = with_key kv c L) ->
  L' = sort_by kv L.
Proof.
  intros Hs Hk. apply stable_sorted_unique; trivial.
  - apply sort_by_ascending.
  - intros c. now rewrite sort_by_stable.
Qed.





End SortBy.
End Sorting.

(** ** Sums, minima and maxima *)

Section Numbers.

Lemma fold_left_Qplus (xs : list Q) (a : Q) :
  fold_left Qplus xs a == a + fold_right Qplus 0 xs.
Proof.
  revert a. induction xs as [|x xs IH]; intros a; simpl.
  - now rewrite Qplus_0_r.
  - rewrite IH. now rewrite Qplus_assoc.
Qed.

Lemma py_sum_perm (xs ys : list Q) : Permutation xs ys -> py_sum xs == py_sum ys.
Proof.
  intros HP. unfold py_sum. rewrite !fold_left_Qplus. apply Qplus_comp; [reflexivity|].
  induction HP as [|x l l' _ IH|x y l|l l' l'' _ IH1 _ IH2]; simpl.
  - reflexivity.
  - now rewrite IH.
  - rewrite !Qplus_assoc, (Qplus_comm y x). reflexivity.
  - now rewrite IH1.
Qed.

(** [min] returns a member that is below every member. *)
Lemma fold_min_spec (xs : list Q) (x : Q) :
  let m := fold_left (fun m v => if Qltb v m then v else m) xs x in
  In m (x :: xs) /\ Forall (fun v => m <= v) (x :: xs).
Proof.
  revert x. induction xs as [|y xs IH]; intros x; simpl.
  - split; [now left|]. repeat constructor. apply Qle_refl.
  - destruct (Qltb y x) eqn:E.
    + destruct (IH y) as [Hin Hall]. simpl in Hin, Hall.
      split; [now right|].
      apply Forall_cons_iff in Hall as [Hy Hall].
      constructor; [|now constructor].
      apply Qltb_lt in E. eapply Qle_trans; [exact Hy|now apply Qlt_le_weak].
    + destruct (IH x) as [Hin Hall]. simpl in Hin, Hall.
      split; [destruct Hin; auto|].
      apply Forall_cons_iff in Hall as [Hx Hall].
      constructor; [exact Hx|]. constructor; [|exact Hall].
      apply Qltb_ge in E. eapply Qle_trans; eassumption.
Qed.

(** [max] returns a member that is above every member. *)
Lemma fold_max_spec (xs : list Q) (x : Q) :
  let m := fold_left (fun m v => if Qltb m v then v else m) xs x in
  In m (x :: xs) /\ Forall (fun v => v <= m) (x :: xs).
Proof.
  revert x. induction xs as [|y xs IH]; intros x; simpl.
  - split; [now left|]. repeat constructor. apply Qle_refl.
  - destruct (Qltb x y) eqn:E.
    + destruct (IH y) as [Hin Hall]. simpl in Hin, Hall.
      split; [now right|].
      apply Forall_cons_iff in Hall as [Hy Hall].
      constructor; [|now constructor].
      apply Qltb_lt in E. eapply Qle_trans; [apply Qlt_le_weak; exact E|exact Hy].
    + destruct (IH x) as [Hin Hall]. simpl in Hin, Hall.
      split; [destruct Hin; auto|].
      apply Forall_cons_iff in Hall as [Hx Hall].
      constructor; [exact Hx|]. constructor; [|exact Hall].
      apply Qltb_ge in E. eapply Qle_trans; eassumption.
Qed.

Lemma py_min_spec (xs : list Q) :
  xs <> [] ->
  exists m, py_min xs = Ok m /\ In m xs /\ Forall (fun v => m <= v) xs.
Proof.
  destruct xs as [|x xs]; [congruence|]. intros _.
  eexists. split; [reflexivity|]. apply fold_min_spec.
Qed.

Lemma py_max_spec (xs : list Q) :
  xs <> [] ->
  exists m, py_max xs = Ok m /\ In m xs /\ Forall (fun v => v <= m) xs.
Proof.
  destruct xs as [|x xs]; [congruence|]. intros _.
  eexists. split; [reflexivity|]. apply fold_max_spec.
Qed.

(** The least of the values [a], [a + d] with [0 <= d] is [a], in whatever
    order and number they come. *)
Lemma py_min_two (a d : Q) (xs : list Q) :
  0 <= d -> In a xs -> Forall (fun v => v = a \/ v = a + d) xs ->
  exists m, py_min xs = Ok m /\ m == a.
Proof.
  intros Hd Ha Hall.
  destruct (py_min_spec xs) as (m & E & Hin & Hle).
  { intros ->. inversion Ha. }
  exists m. split; [exact E|].
  rewrite Forall_forall in Hall, Hle.
  destruct (Hall m Hin) as [->| ->]; [reflexivity|].
  apply Qle_antisym; [now apply Hle|].
  rewrite <- (Qplus_0_r a) at 1. apply Qplus_le_r. exact Hd.
Qed.

Lemma py_max_two (a d : Q) (xs : list Q) :
  0 <= d -> In (a + d) xs -> Forall (fun v => v = a \/ v = a + d) xs ->
  exists m, py_max xs = Ok m /\ m == a + d.
Proof.
  intros Hd Ha Hall.
  destruct (py_max_spec xs) as (m & E & Hin & Hle).
  { intros ->. inversion Ha. }
  exists m. split; [exact E|].
  rewrite Forall_forall in Hall, Hle.
  destruct (Hall m Hin) as [->| ->]; [|reflexivity].
  apply Qle_antisym; [|now apply Hle].
  rewrite <- (Qplus_0_r a) at 1. apply Qplus_le_r. exact Hd.
Qed.

Lemma py_len_cons {B} (a : B) (l : list B) : ~ py_len (a :: l) == 0.
Proof. unfold py_len, Qeq. simpl. lia. Qed.

Lemma py_div_Ok (a b : Q) : ~ b == 0 -> py_div a b = Ok (a / b).
Proof.
  intros Hb. unfold py_div.
  destruct (Qeq_bool b 0) eqn:E; [|reflexivity].
  now apply Qeq_bool_iff in E.
Qed.

End Numbers.

(** ** The geometry accessors never raise *)

Section Geometry.
Import Layout Spec.

Lemma get_cy_Ok b : get_cy b = Ok (val (get_cy b)).
Proof.
  destruct b as [x y w h|p ps]; [reflexivity|].
  unfold get_cy. now rewrite py_div_Ok by apply py_len_cons.
Qed.

Lemma get_cx_Ok b : get_cx b = Ok (val (get_cx b)).
Proof.
  destruct b as [x y w h|p ps]; [reflexivity|].
  unfold get_cx. now rewrite py_div_Ok by apply py_len_cons.
Qed.

Lemma get_x_Ok b : get_x b = Ok (val (get_x b)).
Proof. destruct b; reflexivity. Qed.

Lemma get_x_end_Ok b : get_x_end b = Ok (val (get_x_end b)).
Proof. destruct b; reflexivity. Qed.

Lemma get_h_Ok b : get_h b = Ok (val (get_h b)).
Proof. destruct b; reflexivity. Qed.

Lemma closeb_close prev cur : closeb prev cur = true <-> close prev cur.
Proof. unfold closeb, close. rewrite Qltb_lt, (Qmult_comm (height prev)). reflexivity. Qed.

Lemma closeb_not_close prev cur : closeb prev cur = false <-> ~ close prev cur.
Proof.
  rewrite <- closeb_close. destruct (closeb prev cur); split; congruence.
Qed.

End Geometry.

(** ** Row grouping *)

Section Grouping.
Import Layout Spec.

Lemma last_item_snoc {A} (l : list A) (a : A) : last_item (l ++ [a]) = Ok a.
Proof. unfold last_item. now rewrite rev_unit. Qed.

(** One turn of the grouping loop, the current row ending in [prev]. *)
Lemma group_step_spec rows cur prev box :
  group_step (rows, (cur ++ [prev])%list) box
  = Ok (if closeb prev box
        then (rows, ((cur ++ [prev]) ++ [box])%list)
        else ((rows ++ [(cur ++ [prev])%list])%list, [box])).
Proof.
  unfold group_step.
  rewrite last_item_snoc. cbv beta iota delta [bind].
  rewrite (get_h_Ok (bbox prev)), (get_cy_Ok (bbox box)), (get_cy_Ok (bbox prev)).
  fold (cy box) (cy prev) (height prev).
  change (Qltb (Qabs (cy box - cy prev)) (height prev * (1 # 2)))
    with (closeb prev box).
  now destruct (closeb prev box).
Qed.

Lemma split_rows_cons a b tl :
  exists r rs,
    split_rows (b :: tl) = (b :: r) :: rs /\
    split_rows (a :: b :: tl)
    = if closeb a b then (a :: b :: r) :: rs else [a] :: (b :: r) :: rs.
Proof.
  revert a b. induction tl as [|c tl IH]; intros a b.
  - exists [], []. simpl. now destruct (closeb a b).
  - destruct (IH b c) as (r & rs & E1 & E2).
    assert (exists r' rs', split_rows (b :: c :: tl) = (b :: r') :: rs')
      as (r' & rs' & E).
    { rewrite E2. destruct (closeb b c); eauto. }
    exists r', rs'. split; [exact E|].
    change (split_rows (a :: b :: c :: tl))
      with (match split_rows (b :: c :: tl) with
            | r :: rs => if closeb a b then (a :: r) :: rs else [a] :: r :: rs
            | [] => [[a]]
            end).
    now rewrite E.
Qed.

(** The loop from any state whose current row ends in [p]. *)
Lemma foldM_group_step rest : forall rows cur p,
  exists rows' cur',
    foldM group_step rest (rows, (cur ++ [p])%list) = Ok (rows', cur')
    /\ cur' <> []
    /\ (rows' ++ [cur'] = rows ++ extend_first cur (split_rows (p :: rest)))%list.
Proof.
  induction rest as [|b rest IH]; intros rows cur p.
  - exists rows, (cur ++ [p])%list. simpl. repeat split.
    now destruct cur.
  - rewrite foldM_cons, group_step_spec, bind_Ok.
    destruct (split_rows_cons p b rest) as (r & rs & E1 & E2). rewrite E2.
    destruct (closeb p b).
    + destruct (IH rows (cur ++ [p])%list b) as (rows' & cur' & F & N & E).
      exists rows', cur'. repeat split; trivial.
      rewrite E, E1. simpl. now rewrite <- app_assoc.
    + destruct (IH (rows ++ [(cur ++ [p])%list])%list [] b)
        as (rows' & cur' & F & N & E).
      exists rows', cur'. repeat split; trivial.
      rewrite E, E1. simpl. now rewrite <- app_assoc.
Qed.

(** The grouping loop never raises and computes [split_rows]. *)
Lemma group_rows_split lines : group_rows lines = Ok (split_rows lines).
Proof.
  destruct lines as [|first rest]; [reflexivity|].
  unfold group_rows.
  destruct (foldM_group_step rest [] [] first) as (rows & cur & F & N & E).
  simpl app in F. rewrite F, bind_Ok.
  destruct cur as [|c cur]; [now elim N|].
  rewrite E. f_equal.
  assert (exists r rs, split_rows (first :: rest) = r :: rs) as (r & rs & Es).
  { destruct rest as [|b rest]; [simpl; eauto|].
    destruct (split_rows_cons first b rest) as (r & rs & _ & E2).
    rewrite E2. destruct (closeb first b); eauto. }
  now rewrite Es.
Qed.




Lemma split_rows_separated lines : separated (split_rows lines).
Proof.
  induction lines as [|a [|b tl] IH]; [exact I|exact I|].
  destruct (split_rows_cons a b tl) as (r & rs & E1 & E2).
  rewrite E2. rewrite E1 in IH.
  destruct (closeb a b) eqn:E.
  - destruct rs as [|r2 rs]; [exact I|].
    destruct IH as [IH1 IH2]. split; trivial.
    intros x y Hx Hy. apply IH1; trivial.
    unfold last_item in *. simpl in *.
    destruct (rev r ++ [b])%list eqn:Er; [now destruct (rev r)|].
    simpl in Hx. exact Hx.
  - split; trivial. intros x y [= <-] [= <-]. now apply closeb_not_close.
Qed.

End Grouping.

(** ** Building the text of a row *)

Section Lines.
Import Layout Spec.

Lemma append_assoc (a b c : string) : ((a ++ b) ++ c = a ++ (b ++ c))%string.
Proof. induction a as [|ch a IH]; simpl; [reflexivity|]. now rewrite IH. Qed.

Lemma append_nil_r (a : string) : (a ++ "" = a)%string.
Proof. induction a as [|ch a IH]; simpl; [reflexivity|]. now rewrite IH. Qed.

Lemma lstrip_spec (s : string) :
  exists pre, s = (pre ++ lstrip s)%string
              /\ all_space pre = true /\ starts_space (lstrip s) = false.
Proof.
  induction s as [|c s (pre & E & Hp & Hs)].
  - exists "". auto.
  - simpl. destruct (isspace c) eqn:Ec.
    + exists (String c pre). simpl. rewrite Ec, Hp, <- E. auto.
    + exists "". simpl. auto.
Qed.

Lemma rstrip_spec (s : string) :
  exists post, s = (rstrip s ++ post)%string
               /\ all_space post = true /\ ends_space (rstrip s) = false
               /\ (starts_space s = false -> starts_space (rstrip s) = false).
Proof.
  induction s as [|c s (post & E & Hp & He & _)].
  - exists "". auto.
  - simpl. destruct (rstrip s) as [|d r] eqn:Er.
    + simpl in E. subst post. destruct (isspace c) eqn:Ec.
      * exists (String c s). simpl. rewrite Ec, Hp. auto.
      * exists s. simpl. rewrite Ec. auto.
    + exists post. rewrite E at 1. repeat split; auto.
Qed.

(** [strip] removes a run of whitespace at each end and nothing else. *)
Lemma strip_spec (s : string) :
  exists pre post,
    s = (pre ++ strip s ++ post)%string
    /\ all_space pre = true /\ all_space post = true
    /\ starts_space (strip s) = false /\ ends_space (strip s) = false.
Proof.
  destruct (lstrip_spec s) as (pre & E1 & Hpre & Hs).
  destruct (rstrip_spec (lstrip s)) as (post & E2 & Hpost & He & Hs').
  exists pre, post. unfold strip.
  split; [now rewrite <- E2|]. repeat split; auto.
Qed.

(** One turn of the loop over a row. *)
Lemma line_step_spec line_text last_x_end item :
  line_step (line_text, last_x_end) item
  = Ok (line_text
        ++ (if Qltb 0 last_x_end
            then spaces (gap_spaces last_x_end (left_x item))
            else "")
        ++ text item,
        right_x item).
Proof.
  unfold line_step.
  rewrite (get_x_Ok (bbox item)), bind_Ok, (get_x_end_Ok (bbox item)), bind_Ok.
  fold (left_x item) (right_x item). rewrite py_int_gap.
  destruct (Qltb 0 last_x_end); unfold spaces.
  - now rewrite append_assoc.
  - reflexivity.
Qed.

Lemma foldM_line_step row : forall line_text last_x_end,
  exists x_end,
    foldM line_step row (line_text, last_x_end)
    = Ok (line_text ++ line_after last_x_end row, x_end).
Proof.
  induction row as [|item row IH]; intros line_text last_x_end.
  - exists last_x_end. simpl. now rewrite append_nil_r.
  - rewrite foldM_cons, line_step_spec, bind_Ok.
    destruct (IH (line_text
                  ++ (if Qltb 0 last_x_end
                      then spaces (gap_spaces last_x_end (left_x item))
                      else "")
                  ++ text item) (right_x item)) as (x_end & E).
    exists x_end. rewrite E. simpl line_after.
    now rewrite !append_assoc.
Qed.

Lemma line_after_0 row : line_after 0 row = line_of row.
Proof. destruct row; reflexivity. Qed.

(** The text of one row: its members by ascending left edge, gaps between. *)
Lemma build_line_spec row :
  build_line row = Ok (line_of (sort_by left_x row)).
Proof.
  unfold build_line.
  rewrite (list_sort_Ok left_x).
  - rewrite bind_Ok.
    destruct (foldM_line_step (sort_by left_x row) "" 0) as (x_end & E).
    rewrite E, bind_Ok. simpl. now rewrite line_after_0.
  - apply Forall_forall. intros f _. apply get_x_Ok.
Qed.

(** The whole function: it never raises. *)
Lemma reconstruct_layout_spec lines :
  reconstruct_layout lines
  = (sort_by cy lines,
     Ok (join newline
           (map (fun row => line_of (sort_by left_x row))
                (split_rows (sort_by cy lines))))).
Proof.
  destruct lines as [|f lines]; [reflexivity|].
  unfold reconstruct_layout.
  rewrite (list_sort_Ok cy).
  2:{ apply Forall_forall. intros g _. apply get_cy_Ok. }
  rewrite group_rows_split, bind_Ok.
  rewrite (mapM_Ok _ (fun row => line_of (sort_by left_x row))); [reflexivity|].
  apply Forall_forall. intros row _. apply build_line_spec.
Qed.

End Lines.

(** ** Claims about [reconstruct_layout] *)

Section LayoutClaims.
Import Layout Spec.






End LayoutClaims.

(** ** Claims about the engine adapters *)

Section EngineClaims.
Import Layout Engines Spec.

Lemma try_except_cases kind body :
  (exists r, body = Ok r /\ try_except kind body = r)
  \/ (exists e, body = Err e
                /\ try_except kind body
                   = {| success := false; res_text := None; res_lines := None;
                        engine := Some kind; error := Some (str_exn e) |}).
Proof. destruct body as [r|e]; [left|right]; eauto. Qed.

Lemma try_except_success kind body r :
  try_except kind body = r -> success r = true -> body = Ok r.
Proof. destruct body as [r'|e]; simpl; intros <-; [reflexivity|discriminate]. Qed.

(** A backend that raises: the adapter returns the failure, with the
    exception's message. *)
Example paddle_recognize_backend_error :
  let self := {| ocr := fun _ => Err (RuntimeError "could not read image") |} in
  recognize self "scan.png"
  = {| success := false; res_text := None; res_lines := None;
       engine := Some "paddleocr";
       error := Some "could not read image" |}.
Proof. reflexivity. Qed.

(** Ragged Tesseract columns: the [IndexError] of the loop is caught. *)
Example tess_recognize_ragged_columns :
  let self : TesseractOCREngine unit :=
    {| Image_open := fun _ => Ok tt;
       image_to_data := fun _ _ => Ok (TessData ["a"; "b"] [90%Z] [0%Z] [0%Z] [5%Z] [5%Z]);
       image_to_string := fun _ _ => Ok "a b";
       lang := "eng" |} in
  recognize self "scan.png"
  = {| success := false; res_text := None; res_lines := None;
       engine := Some "tesseract";
       error := Some "list index out of range" |}.
Proof. reflexivity. Qed.

(** *** Tesseract tokens *)

Lemma index_nth {A} (l : list A) (i : nat) (d : A) :
  (i < List.length l)%nat -> index l i = Ok (nth i l d).
Proof.
  intros H. unfold index.
  destruct (nth_error l i) eqn:E.
  - now rewrite (nth_error_nth _ _ d E).
  - apply nth_error_None in E. lia.
Qed.

Lemma tess_step_spec data lines i :
  columns_aligned data ->
  (i < List.length (d_text data))%nat ->
  tess_step data lines i = Ok (lines ++ token_fragments data i)%list.
Proof.
  intros (Hc & Hl & Ht & Hw & Hh) Hi. unfold tess_step, token_fragments.
  rewrite (index_nth _ _ 0%Z) by lia. rewrite bind_Ok.
  destruct (0 <? nth i (d_conf data) 0%Z)%Z.
  - rewrite (index_nth _ _ "") by lia. rewrite bind_Ok.
    rewrite bind_Ok.
    rewrite (index_nth (d_left data) _ 0%Z) by lia. rewrite bind_Ok.
    rewrite (index_nth (d_top data) _ 0%Z) by lia. rewrite bind_Ok.
    rewrite (index_nth (d_width data) _ 0%Z) by lia. rewrite bind_Ok.
    rewrite (index_nth (d_height data) _ 0%Z) by lia. rewrite bind_Ok.
    reflexivity.
  - now rewrite app_nil_r.
Qed.

Lemma foldM_tess_step data : forall n lines,
  columns_aligned data ->
  (n <= List.length (d_text data))%nat ->
  foldM (tess_step data) (seq 0 n) lines
  = Ok (lines ++ flat_map (token_fragments data) (seq 0 n))%list.
Proof.
  induction n as [|n IH]; intros lines Ha Hn.
  - simpl. now rewrite app_nil_r.
  - rewrite seq_S, foldM_app, IH by (trivial; lia). rewrite bind_Ok.
    simpl foldM. rewrite tess_step_spec by (trivial; lia). rewrite bind_Ok.
    rewrite flat_map_app. simpl. now rewrite app_nil_r, app_assoc.
Qed.

(** C7, as the code has it.  On success the Tesseract adapter's text is the
    whole-image string of [image_to_string] with leading and trailing
    whitespace stripped; it does not come from the fragments, which stay in
    token order.  On success the PaddleOCR and EasyOCR adapters' text is
    [reconstruct_layout] of the extracted fragments, and their [lines] is that
    list as [reconstruct_layout] left it. *)
Theorem C7_result_text :
  (forall image (self : TesseractOCREngine image) image_path r,
     recognize self image_path = r -> success r = true ->
     exists img data whole lines,
       Image_open self image_path = Ok img
       /\ image_to_data self img (lang self) = Ok data
       /\ image_to_string self img (lang self) = Ok whole
       /\ tess_lines data = Ok lines
       /\ res_text r = Some (strip whole)
       /\ res_lines r = Some lines)
  /\ (forall (self : PaddleOCREngine) image_path r,
        recognize self image_path = r -> success r = true ->
        exists out t,
          ocr self image_path = Ok out
          /\ snd (reconstruct_layout (paddle_fragments out)) = Ok t
          /\ res_text r = Some t
          /\ res_lines r = Some (fst (reconstruct_layout (paddle_fragments out))))
  /\ (forall (self : EasyOCREngine) image_path r,
        recognize self image_path = r -> success r = true ->
        exists results t,
          readtext self image_path = Ok results
          /\ snd (reconstruct_layout (map easy_fragment results)) = Ok t
          /\ res_text r = Some t
          /\ res_lines r
             = Some (fst (reconstruct_layout (map easy_fragment results)))).
Proof.
  split; [|split].
  - intros image self image_path r Hr Hs.
    apply try_except_success in Hr; trivial.
    unfold tess_body in Hr.
    destruct (Image_open self image_path) as [img|] eqn:E1; [|discriminate].
    rewrite bind_Ok in Hr.
    destruct (image_to_data self img (lang self)) as [data|] eqn:E2;
      [|discriminate].
    rewrite bind_Ok in Hr.
    destruct (image_to_string self img (lang self)) as [whole|] eqn:E3;
      [|discriminate].
    rewrite bind_Ok in Hr.
    destruct (tess_lines data) as [lines|] eqn:E4; [|discriminate].
    rewrite bind_Ok in Hr. injection Hr as <-.
    exists img, data, whole, lines. repeat split; trivial.
  - intros self image_path r Hr Hs.
    apply try_except_success in Hr; trivial.
    unfold paddle_body in Hr.
    destruct (ocr self image_path) as [out|] eqn:E1; [|discriminate].
    rewrite bind_Ok in Hr. exists out.
    destruct out as [[|[[|line page]|] pages]|];
      try (injection Hr as <-; exists ""; repeat split; reflexivity).
    unfold paddle_fragments.
    destruct (reconstruct_layout (map paddle_fragment (line :: page)))
      as [lines [t|e]]; [|discriminate].
    rewrite bind_Ok in Hr. injection Hr as <-.
    exists t. repeat split; reflexivity.
  - intros self image_path r Hr Hs.
    apply try_except_success in Hr; trivial.
    unfold easy_body in Hr.
    destruct (readtext self image_path) as [results|] eqn:E1; [|discriminate].
    rewrite bind_Ok in Hr. exists results.
    destruct (reconstruct_layout (map easy_fragment results))
      as [lines [t|e]]; [|discriminate].
    rewrite bind_Ok in Hr. injection Hr as <-.
    exists t. repeat split; reflexivity.
Qed.

Lemma C7_result_text_witness :
  let self := {| readtext := fun _ =>
                   Ok [EasyDetection ((1 # 2, 0), [(30, 0); (30, 12); (0, 12)])
                                     "Hi" (9 # 10)] |} in
  let r := recognize self "scan.png" in
  success r = true /\ res_text r = Some "Hi".
Proof.
  intros self r.
  assert (Hs : success r = true) by reflexivity.
  split; [exact Hs|].
  destruct C7_result_text as (_ & _ & H).
  destruct (H self "scan.png" r eq_refl Hs) as (results & t & Hres & Ht & Htext & _).
  rewrite Htext. injection Hres as <-.
  vm_compute in Ht. injection Ht as <-. reflexivity.
Defined.

(** C7 as stated fails: the text is not the whole-image string verbatim when
    that string ends (or starts) with whitespace. *)
Lemma C7_counterexample :
  let whole := ("hi" ++ newline)%string in
  let self : TesseractOCREngine unit :=
    {| Image_open := fun _ => Ok tt;
       image_to_data := fun _ _ => Ok (TessData [] [] [] [] [] []);
       image_to_string := fun _ _ => Ok whole;
       lang := "eng" |} in
  let r := recognize self "scan.png" in
  image_to_string self tt (lang self) = Ok whole
  /\ success r = true
  /\ res_text r = Some "hi"
  /\ res_text r <> Some whole.
Proof.
  intros whole self r. repeat (split; [reflexivity|]). discriminate.
Qed.

(** C8.  For a path that does not exist, [process_image] returns
    [success = False] with the error ["Image file not found: <path>"] and
    does not call the adapter's [recognize]; for a path that exists it calls
    [recognize] once on that path and returns what it returns. *)
Theorem C8_process_image {E} `{OCREngine E} (path_exists : string -> bool)
    (self : Service.OCRService E) (image_path : string) :
  (path_exists image_path = false ->
   Service.process_image path_exists self image_path
   = ({| success := false; res_text := None; res_lines := None; engine := None;
         error := Some ("Image file not found: " ++ image_path)%string |}, []))
  /\ (path_exists image_path = true ->
      Service.process_image path_exists self image_path
      = (recognize (Service.engine self) image_path, [image_path])).
Proof.
  unfold Service.process_image. split; intros ->; reflexivity.
Qed.

Lemma C8_process_image_witness :
  let path_exists := fun p => String.eqb p "a.png" in
  let self := {| Service.engine_type := "easyocr";
                 Service.engine := {| readtext := fun _ => Ok [] |} |} in
  path_exists "b.png" = false
  /\ path_exists "a.png" = true
  /\ Service.process_image path_exists self "b.png"
     = ({| success := false; res_text := None; res_lines := None; engine := None;
           error := Some "Image file not found: b.png" |}, [])
  /\ Service.process_image path_exists self "a.png"
     = ({| success := true; res_text := Some ""; res_lines := Some [];
           engine := Some "easyocr"; error := None |}, ["a.png"]).
Proof.
  intros path_exists self.
  assert (Hb : path_exists "b.png" = false) by reflexivity.
  assert (Ha : path_exists "a.png" = true) by reflexivity.
  split; [exact Hb|]. split; [exact Ha|]. split.
  - exact (proj1 (C8_process_image path_exists self "b.png") Hb).
  - exact (proj2 (C8_process_image path_exists self "a.png") Ha).
Defined.

End EngineClaims.

(** ** Claim about [ImageProcessor.crop] *)

Section CropClaims.
Import ImageProcessor Spec.
Local Open Scope Z_scope.
Context {A : Type}.
Implicit Types (image : ndarray A) (l : list A).

Lemma max_min_clamp (hi v : Z) : 0 <= hi -> Z.max 0 (Z.min v hi) = clamp 0 hi v.
Proof.
  intros Hhi. unfold clamp.
  destruct (Z.ltb_spec v 0), (Z.ltb_spec hi v); lia.
Qed.

Lemma clamp_bounds (hi v : Z) : 0 <= hi -> 0 <= clamp 0 hi v <= hi.
Proof.
  intros Hhi. unfold clamp.
  destruct (Z.ltb_spec v 0), (Z.ltb_spec hi v); lia.
Qed.

Lemma slice_length {B} (l : list B) (a n : Z) :
  0 <= a -> 0 <= n -> a + n <= Z.of_nat (List.length l) ->
  List.length (slice l a (a + n)) = Z.to_nat n.
Proof.
  intros Ha Hn Hl. unfold slice. rewrite length_skipn, length_firstn. lia.
Qed.

Lemma slice_nth_error {B} (l : list B) (a n : Z) (i : nat) :
  0 <= a -> Z.of_nat i < n ->
  nth_error (slice l a (a + n)) i = nth_error l (Z.to_nat a + i).
Proof.
  intros Ha Hi. unfold slice. rewrite nth_error_skipn, nth_error_firstn.
  destruct (Nat.ltb_spec (Z.to_nat a + i) (Z.to_nat (a + n))); [reflexivity|lia].
Qed.

Lemma slice_In {B} (l : list B) (a b : Z) (v : B) : In v (slice l a b) -> In v l.
Proof.
  unfold slice. intros Hv.
  rewrite <- (firstn_skipn (Z.to_nat b) l). apply in_or_app. left.
  rewrite <- (firstn_skipn (Z.to_nat a) (firstn (Z.to_nat b) l)).
  apply in_or_app. now right.
Qed.

Lemma slice_all {B} (l : list B) : slice l 0 (0 + Z.of_nat (List.length l)) = l.
Proof. unfold slice. simpl. apply firstn_all2. lia. Qed.

(** The shape of a rectangular image with at least one row. *)
Lemma shape_rectangular image (H W : nat) :
  rectangular H W image -> (0 < H)%nat ->
  shape image = (Z.of_nat H, Z.of_nat W).
Proof.
  intros [Hh Hw] Hpos. unfold shape. rewrite Hh. f_equal.
  destruct image as [|r image]; [simpl in Hh; lia|].
  apply Forall_cons_iff in Hw as [-> _]. reflexivity.
Qed.

(** [crop] in terms of the clamped request. *)
Lemma crop_clamped image (H W : nat) (x y w h : Z) :
  rectangular H W image ->
  let X := clamp 0 (Z.of_nat W) x in
  let Y := clamp 0 (Z.of_nat H) y in
  let CW := clamp 0 (Z.of_nat W - X) w in
  let CH := clamp 0 (Z.of_nat H - Y) h in
  crop image x y w h
  = if (CW =? 0) || (CH =? 0) then image
    else map (fun r => slice r X (X + CW)) (slice image Y (Y + CH)).
Proof.
  intros Hrect X Y CW CH.
  destruct H as [|H'].
  - destruct Hrect as [Hlen _]. destruct image; [|discriminate].
    assert (Hnil : forall a b, map (fun r : list A => slice r a (a + b))
                                   (slice (@nil (list A)) Y (Y + CH)) = []).
    { intros a b. unfold slice. now rewrite firstn_nil, skipn_nil. }
    rewrite Hnil. unfold crop, shape. cbv zeta iota beta.
    unfold slice at 2. rewrite firstn_nil, skipn_nil. simpl map.
    now do 2 destruct (_ || _).
  - unfold crop. rewrite (shape_rectangular image (S H') W Hrect) by lia.
    rewrite !max_min_clamp.
    + reflexivity.
    + pose proof (clamp_bounds (Z.of_nat (S H')) y). lia.
    + pose proof (clamp_bounds (Z.of_nat W) x). lia.
    + lia.
    + lia.
Qed.

(** C9.  On an image of [H] rows and [W] columns, [crop] clamps [x] into
    [[0, W]], [y] into [[0, H]], [w] into [[0, W - x]] and [h] into
    [[0, H - y]] (with the clamped [x] and [y]); if the clamped width or
    height is 0 it returns the image it was given, otherwise the region of
    the clamped height and width whose pixel [(i, j)] is the image's pixel
    [(y + i, x + j)].  On a 100 x 100 image, [crop(-5, -5, 10000, 10000)] is
    the whole image. *)
Theorem C9_crop image (H W : nat) (x y w h : Z) :
  rectangular H W image ->
  let X := clamp 0 (Z.of_nat W) x in
  let Y := clamp 0 (Z.of_nat H) y in
  let CW := clamp 0 (Z.of_nat W - X) w in
  let CH := clamp 0 (Z.of_nat H - Y) h in
  (0 <= X <= Z.of_nat W /\ 0 <= Y <= Z.of_nat H
   /\ 0 <= CW <= Z.of_nat W - X /\ 0 <= CH <= Z.of_nat H - Y)
  /\ (CW = 0 \/ CH = 0 -> crop image x y w h = image)
  /\ (CW <> 0 -> CH <> 0 ->
      rectangular (Z.to_nat CH) (Z.to_nat CW) (crop image x y w h)
      /\ forall i j : nat,
           Z.of_nat i < CH -> Z.of_nat j < CW ->
           pixel (crop image x y w h) i j
           = pixel image (Z.to_nat Y + i) (Z.to_nat X + j))
  /\ (H = 100%nat -> W = 100%nat ->
      crop image (-5) (-5) 10000 10000 = image).
Proof.
  intros Hrect X Y CW CH.
  assert (HX : 0 <= X <= Z.of_nat W) by (apply clamp_bounds; lia).
  assert (HY : 0 <= Y <= Z.of_nat H) by (apply clamp_bounds; lia).
  assert (HCW : 0 <= CW <= Z.of_nat W - X) by (apply clamp_bounds; lia).
  assert (HCH : 0 <= CH <= Z.of_nat H - Y) by (apply clamp_bounds; lia).
  pose proof (crop_clamped image H W x y w h Hrect) as E.
  cbv zeta in E. fold X Y in E. fold CW CH in E.
  split; [auto|]. split; [|split].
  - intros [H0|H0]; rewrite E, H0; simpl; [reflexivity|].
    now rewrite orb_true_r.
  - intros HW0 HH0. rewrite E.
    apply Z.eqb_neq in HW0 as ->. apply Z.eqb_neq in HH0 as ->. simpl.
    destruct Hrect as [Hlen Hrows].
    assert (Hsub : Forall (fun r => List.length r = W) (slice image Y (Y + CH))).
    { apply Forall_forall. intros r Hr. apply slice_In in Hr.
      rewrite Forall_forall in Hrows. now apply Hrows. }
    split; [split|].
    + rewrite length_map. apply slice_length; lia.
    + rewrite Forall_map. eapply Forall_impl; [|exact Hsub].
      intros r Hr. cbv beta in Hr |- *. apply slice_length; lia.
    + intros i j Hi Hj. unfold pixel.
      rewrite nth_error_map, slice_nth_error by lia.
      destruct (nth_error image (Z.to_nat Y + i)) as [r|]; [|reflexivity].
      simpl. apply slice_nth_error; lia.
  - intros -> ->. rewrite (crop_clamped image 100 100 _ _ _ _ Hrect).
    change (map (fun r : list A => slice r 0 (0 + Z.of_nat 100))
                (slice image 0 (0 + Z.of_nat 100)) = image).
    destruct Hrect as [Hlen Hrows].
    rewrite <- Hlen at 1. rewrite slice_all.
    rewrite <- (map_id image) at 2. apply map_ext_in.
    intros r Hr. rewrite Forall_forall in Hrows.
    rewrite <- (Hrows r Hr). apply slice_all.
Qed.

End CropClaims.

Lemma C9_crop_witness :
  let image : ImageProcessor.ndarray nat := [[1; 2; 3]; [4; 5; 6]]%nat in
  Spec.rectangular 2 3 image
  /\ ImageProcessor.crop image 1 (-7) 9 1 = [[2; 3]]%nat
  /\ Spec.pixel (ImageProcessor.crop image 1 (-7) 9 1) 0 1 = Spec.pixel image 0 2.
Proof.
  intros image.
  assert (Hrect : Spec.rectangular 2 3 image)
    by (split; [reflexivity|repeat constructor]).
  split; [exact Hrect|]. split; [reflexivity|].
  destruct (C9_crop image 2 3 1 (-7) 9 1 Hrect) as (_ & _ & Hsub & _).
  destruct Hsub as [_ Hpix]; [discriminate|discriminate|].
  apply (Hpix 0%nat 1%nat); reflexivity.
Defined.

(** * Further properties of the code *)

(** ** [reconstruct_layout] *)

Section LayoutFacts.
Import Layout Spec.

Lemma sort_by_idempotent {A} (kv : A -> Q) (l : list A) :
  sort_by kv (sort_by kv l) = sort_by kv l.
Proof.
  symmetry. apply sort_by_unique; [apply sort_by_ascending|reflexivity].
Qed.

(** X1.  A second call changes nothing: on the list as the first call left
    it, [reconstruct_layout] returns the same string and leaves the list in
    the same order. *)
Theorem X1_reconstruct_layout_idempotent lines :
  reconstruct_layout (fst (reconstruct_layout lines)) = reconstruct_layout lines.
Proof.
  rewrite (reconstruct_layout_spec lines). simpl fst.
  rewrite (reconstruct_layout_spec (sort_by cy lines)).
  now rewrite sort_by_idempotent.
Qed.






End LayoutFacts.

Section GapFacts.
Import Layout Spec.

Lemma gap_spaces_floor (previous_right left : Q) :
  let n := gap_spaces previous_right left in
  (0 <= n)%Z
  /\ (left - previous_right < 10 -> n = 0%Z)
  /\ (0 <= left - previous_right ->
      inject_Z n * 10 <= left - previous_right
      /\ left - previous_right < (inject_Z n + 1) * 10).
Proof.
  intros n. subst n. unfold gap_spaces.
  set (d := left - previous_right).
  assert (Hm : 0 <= Qmax 0 d) by apply Q.le_max_l.
  assert (H10 : 0 < 10) by reflexivity.
  assert (Hq : 0 <= Qmax 0 d / 10).
  { apply Qle_shift_div_l; [exact H10|]. now rewrite Qmult_0_l. }
  pose proof (Qfloor_le (Qmax 0 d / 10)) as Hlo.
  pose proof (Qlt_floor (Qmax 0 d / 10)) as Hhi.
  split; [|split].
  - change 0%Z with (Qfloor 0). now apply Qfloor_resp_le.
  - intros Hd.
    assert (Hlt : Qmax 0 d / 10 < 1).
    { apply Qlt_shift_div_r; [exact H10|]. rewrite Qmult_1_l.
      apply Q.max_lub_lt; [reflexivity|exact Hd]. }
    assert (Hz : (0 <= Qfloor (Qmax 0 d / 10))%Z).
    { change 0%Z with (Qfloor 0). now apply Qfloor_resp_le. }
    assert (Hf : inject_Z (Qfloor (Qmax 0 d / 10)) < inject_Z 1).
    { eapply Qle_lt_trans; [exact Hlo|exact Hlt]. }
    rewrite <- Zlt_Qlt in Hf. lia.
  - intros Hd. assert (E : Qmax 0 d == d) by (apply Q.max_r; exact Hd).
    assert (E1 : Qmax 0 d <= d) by (apply Qle_lteq; now right).
    assert (E2 : d <= Qmax 0 d) by apply Q.le_max_r.
    split.
    + eapply Qle_trans; [|exact E1].
      apply (Qmult_le_r _ _ (/ 10)); [reflexivity|].
      rewrite <- Qmult_assoc, Qmult_inv_r, Qmult_1_r by discriminate.
      exact Hlo.
    + eapply Qle_lt_trans; [exact E2|].
      apply (Qmult_lt_r _ _ (/ 10)); [reflexivity|].
      rewrite <- (Qmult_assoc (inject_Z _ + 1)), Qmult_inv_r, Qmult_1_r
        by discriminate.
      rewrite inject_Z_plus in Hhi. exact Hhi.
Qed.

End GapFacts.

(** ** Geometry of a polygon *)

Section PolygonFacts.
Import Layout Spec.

Lemma py_len_S {B} (a : B) (l : list B) : py_len (a :: l) == py_len l + 1.
Proof.
  unfold py_len. simpl List.length. rewrite Nat2Z.inj_succ, <- Z.add_1_r.
  rewrite inject_Z_plus. reflexivity.
Qed.

Lemma sum_lower (m : Q) (xs : list Q) :
  Forall (fun v => m <= v) xs -> m * py_len xs <= fold_right Qplus 0 xs.
Proof.
  induction 1 as [|x xs Hx _ IH].
  - unfold py_len. simpl. rewrite Qmult_0_r. apply Qle_refl.
  - rewrite py_len_S. simpl. rewrite Qmult_plus_distr_r, Qmult_1_r, Qplus_comm.
    now apply Qplus_le_compat.
Qed.

Lemma sum_upper (m : Q) (xs : list Q) :
  Forall (fun v => v <= m) xs -> fold_right Qplus 0 xs <= m * py_len xs.
Proof.
  induction 1 as [|x xs Hx _ IH].
  - unfold py_len. simpl. rewrite Qmult_0_r. apply Qle_refl.
  - rewrite py_len_S. simpl. rewrite Qmult_plus_distr_r, Qmult_1_r, Qplus_comm.
    now apply Qplus_le_compat.
Qed.

Lemma py_len_pos {B} (a : B) (l : list B) : 0 < py_len (a :: l).
Proof. unfold py_len, Qlt. simpl. lia. Qed.

(** The mean of a non-empty list lies between its least and greatest
    element. *)
Lemma mean_between (x : Q) (xs : list Q) :
  exists lo hi mean,
    py_min (x :: xs) = Ok lo /\ py_max (x :: xs) = Ok hi
    /\ py_div (py_sum (x :: xs)) (py_len (x :: xs)) = Ok mean
    /\ lo <= mean /\ mean <= hi.
Proof.
  destruct (py_min_spec (x :: xs)) as (lo & Elo & _ & Hlo); [discriminate|].
  destruct (py_max_spec (x :: xs)) as (hi & Ehi & _ & Hhi); [discriminate|].
  exists lo, hi, (py_sum (x :: xs) / py_len (x :: xs)).
  split; [exact Elo|]. split; [exact Ehi|].
  split; [apply py_div_Ok, py_len_cons|].
  assert (Es : py_sum (x :: xs) == fold_right Qplus 0 (x :: xs)).
  { unfold py_sum. rewrite fold_left_Qplus. apply Qplus_0_l. }
  split.
  - apply Qle_shift_div_l; [apply py_len_pos|].
    rewrite Es. now apply sum_lower.
  - apply Qle_shift_div_r; [apply py_len_pos|].
    rewrite Es. now apply sum_upper.
Qed.

End PolygonFacts.

(** ** Engine adapters *)

Section AdapterFacts.
Import Layout Engines Spec Terms.

Lemma foldM_invariant {S A} (body : S -> A -> result S) (P : S -> Prop) :
  (forall s a s', body s a = Ok s' -> P s -> P s') ->
  forall l s s', foldM body l s = Ok s' -> P s -> P s'.
Proof.
  intros Hstep. induction l as [|a l IH]; intros s s' H Hs.
  - now injection H as <-.
  - rewrite foldM_cons in H. destruct (body s a) as [s1|e] eqn:E; [|discriminate].
    rewrite bind_Ok in H. eapply IH; [exact H|]. eapply Hstep; eassumption.
Qed.



Lemma index_Ok_In {B} (l : list B) (i : nat) (b : B) :
  index l i = Ok b -> In b l /\ (i < List.length l)%nat.
Proof.
  unfold index. destruct (nth_error l i) eqn:E; [|discriminate].
  intros [= <-]. split; [eapply nth_error_In; exact E|].
  apply nth_error_Some. congruence.
Qed.

Lemma index_Err {B} (l : list B) (i : nat) (e : exn) :
  index l i = Err e -> e = IndexError.
Proof. unfold index. destruct (nth_error l i); [discriminate|congruence]. Qed.

(** What one turn of the Tesseract loop can do. *)
Lemma tess_step_cases data lines i :
  match tess_step data lines i with
  | Ok lines' =>
      (i < List.length (d_conf data))%nat
      /\ (lines' = lines
          \/ exists c t x y w h,
               In c (d_conf data) /\ (0 < c)%Z
               /\ lines' = (lines ++ [Fragment t (inject_Z c / 100)
                                        (AxisAligned x y w h)])%list)
  | Err e => e = IndexError
  end.
Proof.
  unfold tess_step.
  destruct (index (d_conf data) i) as [c|e] eqn:Ec;
    [|simpl; eapply index_Err; exact Ec].
  apply index_Ok_In in Ec as [Hc Hi]. rewrite bind_Ok.
  destruct (0 <? c)%Z eqn:Epos; [|auto].
  apply Z.ltb_lt in Epos.
  repeat match goal with
  | |- context [bind (index ?l ?i) _] =>
      let E := fresh "E" in
      destruct (index l i) eqn:E;
        [rewrite bind_Ok|simpl; eapply index_Err; exact E]
  end.
  split; [exact Hi|]. right.
  repeat eexists; [exact Hc|exact Epos].
Qed.

(** Every fragment of [tess_lines] comes from a token of positive raw
    confidence. *)
Lemma tess_lines_each data lines :
  tess_lines data = Ok lines ->
  Forall (fun f => axis_aligned f
                   /\ exists c, In c (d_conf data) /\ (0 < c)%Z
                                /\ confidence f = inject_Z c / 100) lines.
Proof.
  unfold tess_lines. intros H.
  refine (foldM_invariant (tess_step data) _ _ _ [] lines H _); [|constructor].
  intros s i s' Hs Hinv. pose proof (tess_step_cases data s i) as Hc.
  rewrite Hs in Hc.
  destruct Hc as [_ [->|(c & t & x & y & w & h & Hin & Hpos & ->)]];
    [exact Hinv|].
  apply Forall_app. split; [exact Hinv|].
  constructor; [|constructor]. split; [exact I|]. eauto.
Qed.

(** X7.  Whatever the columns hold, every fragment the Tesseract adapter
    builds has an axis-aligned box and a confidence above 0, which is at most
    1 when no raw confidence exceeds 100; and there are at most as many
    fragments as tokens. *)
Theorem X7_tesseract_fragments data lines :
  tess_lines data = Ok lines ->
  Forall (fun f => axis_aligned f /\ 0 < confidence f) lines
  /\ (Forall (fun c => (c <= 100)%Z) (d_conf data) ->
      Forall (fun f => confidence f <= 1) lines)
  /\ (List.length lines <= List.length (d_text data))%nat.
Proof.
  intros H. pose proof (tess_lines_each data lines H) as HP.
  unfold tess_lines in H.
  assert (Hlen : forall l s s',
            foldM (tess_step data) l s = Ok s' ->
            (List.length s' <= List.length s + List.length l)%nat).
  { induction l as [|i l IH]; intros s s' Hf.
    - injection Hf as <-. simpl. lia.
    - rewrite foldM_cons in Hf.
      pose proof (tess_step_cases data s i) as Hc.
      destruct (tess_step data s i) as [s1|e]; [|discriminate].
      rewrite bind_Ok in Hf. apply IH in Hf.
      destruct Hc as [_ [->|(c & t & x & y & w & h & _ & _ & ->)]];
        [simpl; lia|].
      rewrite length_app in Hf. simpl in *. lia. }
  split; [|split].
  - eapply Forall_impl; [|exact HP].
    intros f (Ha & c & _ & Hpos & ->). split; [exact Ha|].
    unfold Qlt, Qdiv. simpl. lia.
  - intros Hmax. eapply Forall_impl; [|exact HP].
    intros f (_ & c & Hin & _ & ->).
    rewrite Forall_forall in Hmax. specialize (Hmax c Hin).
    unfold Qle, Qdiv. simpl. lia.
  - apply Hlen in H. rewrite length_seq in H. simpl in H. exact H.
Qed.

Lemma X7_tesseract_fragments_witness :
  let data := TessData ["x"; "Hello"] [0%Z; 96%Z] [0%Z; 12%Z] [0%Z; 30%Z]
                       [9%Z; 48%Z] [9%Z; 16%Z] in
  exists lines,
    tess_lines data = Ok lines
    /\ Forall (fun c => (c <= 100)%Z) (d_conf data)
    /\ Forall (fun f => confidence f <= 1) lines.
Proof.
  intros data. eexists.
  assert (H : tess_lines data = Ok _) by reflexivity.
  assert (Hmax : Forall (fun c => (c <= 100)%Z) (d_conf data))
    by (repeat constructor; lia).
  split; [exact H|]. split; [exact Hmax|].
  exact (proj1 (proj2 (X7_tesseract_fragments data _ H)) Hmax).
Defined.



Lemma tess_lines_nothing data :
  Forall (fun c => (c <= 0)%Z) (d_conf data) ->
  (List.length (d_text data) <= List.length (d_conf data))%nat ->
  tess_lines data = Ok [].
Proof.
  intros Hneg Hlen. unfold tess_lines.
  assert (H : forall n, (n <= List.length (d_conf data))%nat ->
            foldM (tess_step data) (seq 0 n) [] = Ok []).
  { induction n as [|n IH]; intros Hn; [reflexivity|].
    rewrite seq_S, foldM_app, IH, bind_Ok by lia.
    simpl. unfold tess_step.
    rewrite (index_nth _ _ 0%Z) by lia. rewrite bind_Ok.
    assert (Hc : (nth n (d_conf data) 0 <= 0)%Z).
    { rewrite Forall_forall in Hneg. apply Hneg, nth_In. lia. }
    apply Z.ltb_ge in Hc. now rewrite Hc. }
  apply H. exact Hlen.
Qed.

(** The [try] blocks of the PaddleOCR and EasyOCR adapters in closed form. *)
Lemma paddle_body_spec (self : PaddleOCREngine) image_path :
  paddle_body self image_path
  = (out <- ocr self image_path ;;
     Ok (success_result "paddleocr" (layout_text (paddle_fragments out))
                        (layout_order (paddle_fragments out)))).
Proof.
  unfold paddle_body. destruct (ocr self image_path) as [out|e]; [|reflexivity].
  rewrite !bind_Ok. destruct out as [[|[[|line page]|] pages]|]; try reflexivity.
  unfold paddle_fragments, layout_text, layout_order.
  rewrite (reconstruct_layout_spec (map paddle_fragment (line :: page))).
  reflexivity.
Qed.

Lemma easy_body_spec (self : EasyOCREngine) image_path :
  easy_body self image_path
  = (results <- readtext self image_path ;;
     Ok (success_result "easyocr" (layout_text (map easy_fragment results))
                        (layout_order (map easy_fragment results)))).
Proof.
  unfold easy_body. destruct (readtext self image_path) as [results|e];
    [|reflexivity].
  rewrite !bind_Ok. unfold layout_text, layout_order.
  rewrite (reconstruct_layout_spec (map easy_fragment results)).
  reflexivity.
Qed.

(** X9.  Nothing detected is a success, not a failure: each adapter then
    returns [success = True] with no lines; the text is empty for PaddleOCR
    and EasyOCR, and the stripped whole-image string for Tesseract. *)
Theorem X9_empty_detection :
  (forall (self : PaddleOCREngine) image_path out,
     ocr self image_path = Ok out -> paddle_fragments out = [] ->
     recognize self image_path = success_result "paddleocr" "" [])
  /\ (forall (self : EasyOCREngine) image_path,
        readtext self image_path = Ok [] ->
        recognize self image_path = success_result "easyocr" "" [])
  /\ (forall image (self : TesseractOCREngine image) image_path img data whole,
        Image_open self image_path = Ok img ->
        image_to_data self img (lang self) = Ok data ->
        image_to_string self img (lang self) = Ok whole ->
        Forall (fun c => (c <= 0)%Z) (d_conf data) ->
        (List.length (d_text data) <= List.length (d_conf data))%nat ->
        recognize self image_path
        = success_result "tesseract" (strip whole) []).
Proof.
  split; [|split].
  - intros self image_path out Ho He.
    unfold recognize, paddle_recognize.
    now rewrite paddle_body_spec, Ho, bind_Ok, He.
  - intros self image_path Hr.
    unfold recognize, easy_recognize.
    now rewrite easy_body_spec, Hr, bind_Ok.
  - intros image self image_path img data whole Ho Hd Hs Hneg Hlen.
    unfold recognize, tess_recognize, tess_body.
    now rewrite Ho, bind_Ok, Hd, bind_Ok, Hs, bind_Ok,
      (tess_lines_nothing data Hneg Hlen).
Qed.

Lemma X9_empty_detection_witness :
  let self := {| ocr := fun _ => Ok (Some [None]) |} in
  ocr self "blank.png" = Ok (Some [None])
  /\ paddle_fragments (Some [None]) = []
  /\ recognize self "blank.png" = success_result "paddleocr" "" [].
Proof.
  intros self.
  split; [reflexivity|]. split; [reflexivity|].
  exact (proj1 X9_empty_detection self "blank.png" (Some [None]) eq_refl eq_refl).
Defined.



(** [int] truncates towards zero. *)
Lemma py_int_trunc (q : Q) :
  Qabs (q - inject_Z (py_int q)) < 1
  /\ Qabs (inject_Z (py_int q)) <= Qabs q.
Proof.
  destruct q as [n d]. unfold py_int. simpl Qnum. simpl Qden.
  pose proof (Z.quot_rem' n (Z.pos d)) as Hqr.
  pose proof (Z.rem_bound_abs n (Z.pos d)) as Hb.
  pose proof (Z.rem_sign_mul n (Z.pos d)) as Hsg.
  set (k := Z.quot n (Z.pos d)) in *. set (r := Z.rem n (Z.pos d)) in *.
  assert (Hb' : (Z.abs r < Z.pos d)%Z) by lia.
  assert (Hs : (0 <= r * n)%Z) by (apply Hsg; lia).
  split.
  - unfold Qlt, Qminus, Qplus, Qopp, Qabs, inject_Z. simpl.
    replace (n * 1 + - k * Z.pos d)%Z with r by lia. lia.
  - unfold Qle, Qabs, inject_Z. simpl. subst k.
    rewrite <- (Z.quot_abs n (Z.pos d)) by lia.
    pose proof (Z.mul_quot_le (Z.abs n) (Z.abs (Z.pos d))) as Hle.
    simpl Z.abs in *. lia.
Qed.

(** X11.  The box of an EasyOCR fragment has whole-number coordinates: each
    is the raw coordinate truncated towards zero, so it differs from it by
    less than one pixel and is never larger in absolute value. *)
Theorem X11_easy_box_integral d :
  exists p ps,
    bbox (easy_fragment d) = Polygon p ps
    /\ Forall2 (fun raw pt =>
                  integral pt
                  /\ Qabs (fst raw - fst pt) < 1 /\ Qabs (snd raw - snd pt) < 1
                  /\ Qabs (fst pt) <= Qabs (fst raw)
                  /\ Qabs (snd pt) <= Qabs (snd raw))
               (fst (ed_bbox d) :: snd (ed_bbox d)) (p :: ps).
Proof.
  assert (Hpt : forall raw,
            integral (int_point raw)
            /\ Qabs (fst raw - fst (int_point raw)) < 1
            /\ Qabs (snd raw - snd (int_point raw)) < 1
            /\ Qabs (fst (int_point raw)) <= Qabs (fst raw)
            /\ Qabs (snd (int_point raw)) <= Qabs (snd raw)).
  { intros raw. unfold int_point. simpl.
    destruct (py_int_trunc (fst raw)) as [H1 H2].
    destruct (py_int_trunc (snd raw)) as [H3 H4].
    repeat split; trivial. now exists (py_int (fst raw)), (py_int (snd raw)). }
  exists (int_point (fst (ed_bbox d))), (map int_point (snd (ed_bbox d))).
  split; [reflexivity|].
  constructor; [apply Hpt|].
  induction (snd (ed_bbox d)) as [|q qs IH]; simpl; constructor; auto.
Qed.

(** X12.  The result of [recognize] has one of two shapes: on success the
    text, the lines and the engine's name and no error; on failure the error
    and the engine's name and neither text nor lines.  This holds for the
    three adapters alike. *)
Theorem X12_result_shape :
  (forall (self : PaddleOCREngine) image_path,
     let r := recognize self image_path in
     (exists t lines, r = success_result "paddleocr" t lines)
     \/ (exists e, r = failure "paddleocr" e))
  /\ (forall image (self : TesseractOCREngine image) image_path,
        let r := recognize self image_path in
        (exists t lines, r = success_result "tesseract" t lines)
        \/ (exists e, r = failure "tesseract" e))
  /\ (forall (self : EasyOCREngine) image_path,
        let r := recognize self image_path in
        (exists t lines, r = success_result "easyocr" t lines)
        \/ (exists e, r = failure "easyocr" e)).
Proof.
  split; [|split].
  - intros self image_path r. subst r. unfold recognize, paddle_recognize.
    rewrite paddle_body_spec.
    destruct (ocr self image_path); simpl; eauto.
  - intros image self image_path r. subst r.
    unfold recognize, tess_recognize, tess_body.
    destruct (Image_open self image_path) as [img|]; simpl; eauto.
    destruct (image_to_data self img (lang self)) as [data|]; simpl; eauto.
    destruct (image_to_string self img (lang self)) as [whole|]; simpl; eauto.
    destruct (tess_lines data) as [lines|]; simpl; eauto.
    left. exists (strip whole), lines. reflexivity.
  - intros self image_path r. subst r. unfold recognize, easy_recognize.
    rewrite easy_body_spec.
    destruct (readtext self image_path); simpl; eauto.
Qed.

End AdapterFacts.

(** ** [OCRService.__init__] and [process_image] *)

Section ServiceFacts.
Import Engines ServiceInit Py Terms.
Context {image : Type}.
Implicit Types (classes : engine_classes image) (kw : kwargs).

(** Every result of an engine object carries the name of its class. *)
Lemma recognize_engine_key (e : engine_object image) image_path :
  engine (recognize e image_path) = Some (engine_name e).
Proof.
  destruct e as [e|e|e]; unfold recognize, engine_object_recognize; simpl.
  - unfold recognize, paddle_recognize. rewrite paddle_body_spec.
    now destruct (ocr e image_path).
  - unfold recognize, tess_recognize, tess_body.
    destruct (Image_open e image_path) as [img|]; simpl; [|reflexivity].
    destruct (image_to_data e img (lang e)) as [data|]; simpl; [|reflexivity].
    destruct (image_to_string e img (lang e)) as [whole|]; simpl;
      [|reflexivity].
    now destruct (tess_lines data).
  - unfold recognize, easy_recognize. rewrite easy_body_spec.
    now destruct (readtext e image_path).
Qed.

Lemma new_OCRService_Ok classes t kw s :
  new_OCRService classes t kw = Ok s ->
  Service.engine_type s = str_lower t
  /\ engine_name (Service.engine s) = Service.engine_type s
  /\ In (Service.engine_type s) supported_engines.
Proof.
  unfold new_OCRService, supported_engines.
  destruct (String.eqb_spec (str_lower t) "paddleocr") as [E|_].
  { destruct (new_PaddleOCREngine classes kw); [|discriminate].
    intros [= <-]. simpl. rewrite E.
    split; [reflexivity|split; [reflexivity|simpl; auto 10]]. }
  destruct (String.eqb_spec (str_lower t) "tesseract") as [E|_].
  { destruct (new_TesseractOCREngine classes kw); [|discriminate].
    intros [= <-]. simpl. rewrite E.
    split; [reflexivity|split; [reflexivity|simpl; auto 10]]. }
  destruct (String.eqb_spec (str_lower t) "easyocr") as [E|_].
  { destruct (new_EasyOCREngine classes kw); [|discriminate].
    intros [= <-]. simpl. rewrite E.
    split; [reflexivity|split; [reflexivity|simpl; auto 10]]. }
  discriminate.
Qed.

(** X13.  [OCRService] goes by the lower-cased engine name: two names that
    differ only in case give the same service (or the same constructor
    error) when the lower-cased name is one of the three it knows, the
    service made has that lower-cased name and an engine of the class so
    named, and any other name raises the unknown-engine [ValueError] with the
    name as it was given, before any engine class is touched. *)
Theorem X13_engine_name_lowered classes t kw :
  (forall s, new_OCRService classes t kw = Ok s ->
     Service.engine_type s = str_lower t
     /\ engine_name (Service.engine s) = str_lower t
     /\ In (str_lower t) supported_engines)
  /\ (In (str_lower t) supported_engines ->
      forall t', str_lower t' = str_lower t ->
        new_OCRService classes t' kw = new_OCRService classes t kw)
  /\ (~ In (str_lower t) supported_engines ->
      forall classes',
        new_OCRService classes' t kw = Err (ValueError (unknown_engine t))).
Proof.
  split; [|split].
  - intros s Hs. destruct (new_OCRService_Ok classes t kw s Hs) as (H1 & H2 & H3).
    rewrite <- H1. auto.
  - intros Hin t' Ht. unfold new_OCRService. rewrite Ht.
    destruct (String.eqb_spec (str_lower t) "paddleocr") as [E1|E1];
      [reflexivity|].
    destruct (String.eqb_spec (str_lower t) "tesseract") as [E2|E2];
      [reflexivity|].
    destruct (String.eqb_spec (str_lower t) "easyocr") as [E3|E3];
      [reflexivity|].
    exfalso. destruct Hin as [H|[H|[H|[]]]]; congruence.
  - intros Hn classes'. unfold new_OCRService.
    destruct (String.eqb_spec (str_lower t) "paddleocr") as [E1|E1].
    { exfalso. apply Hn. rewrite E1. simpl. auto. }
    destruct (String.eqb_spec (str_lower t) "tesseract") as [E2|E2].
    { exfalso. apply Hn. rewrite E2. simpl. auto. }
    destruct (String.eqb_spec (str_lower t) "easyocr") as [E3|E3].
    { exfalso. apply Hn. rewrite E3. simpl. auto. }
    reflexivity.
Qed.

(** X14.  For a service made by [OCRService], the ["engine"] entry of what
    [process_image] returns is the service's [engine_type] whenever the file
    exists, whether recognition succeeded or failed, and is missing when the
    file does not exist. *)
Theorem X14_engine_key classes t kw s path_exists image_path :
  new_OCRService classes t kw = Ok s ->
  engine (fst (Service.process_image path_exists s image_path))
  = if path_exists image_path then Some (Service.engine_type s) else None.
Proof.
  intros Hs. destruct (new_OCRService_Ok classes t kw s Hs) as (_ & H2 & _).
  unfold Service.process_image.
  destruct (path_exists image_path); simpl; [|reflexivity].
  now rewrite recognize_engine_key, H2.
Qed.

End ServiceFacts.

Section ServiceExamples.
Import Engines ServiceInit.

Lemma X13_engine_name_lowered_witness :
  let classes : ServiceInit.engine_classes unit :=
    {| ServiceInit.new_PaddleOCREngine :=
         fun _ => Ok {| Engines.ocr := fun _ => Ok None |};
       ServiceInit.new_TesseractOCREngine :=
         fun _ => Err (RuntimeError "pytesseract not installed");
       ServiceInit.new_EasyOCREngine :=
         fun _ => Err (RuntimeError "easyocr not installed") |} in
  let kw := {| ServiceInit.kw_use_gpu := None; ServiceInit.kw_lang := None |} in
  (exists s, ServiceInit.new_OCRService classes "PaddleOCR" kw = Ok s
             /\ Service.engine_type s = "paddleocr")
  /\ ServiceInit.new_OCRService classes "PADDLEocr" kw
     = ServiceInit.new_OCRService classes "PaddleOCR" kw
  /\ ServiceInit.new_OCRService classes "Paddle" kw
     = Err (ValueError "Unknown OCR engine: Paddle. Supported engines: 'paddleocr', 'tesseract', 'easyocr'").
Proof.
  intros classes kw.
  split; [|split].
  - eexists. split; [reflexivity|].
    apply (proj1 (X13_engine_name_lowered classes "PaddleOCR" kw)).
    reflexivity.
  - apply (proj1 (proj2 (X13_engine_name_lowered classes "PaddleOCR" kw)));
      [simpl; auto|reflexivity].
  - apply (proj2 (proj2 (X13_engine_name_lowered classes "Paddle" kw))).
    intros [H|[H|[H|[]]]]; discriminate.
Defined.

Lemma X14_engine_key_witness :
  let classes : ServiceInit.engine_classes unit :=
    {| ServiceInit.new_PaddleOCREngine :=
         fun _ => Err (RuntimeError "paddleocr not installed");
       ServiceInit.new_TesseractOCREngine :=
         fun _ => Err (RuntimeError "pytesseract not installed");
       ServiceInit.new_EasyOCREngine :=
         fun _ => Ok {| Engines.readtext :=
                          fun _ => Err (RuntimeError "CUDA out of memory") |} |} in
  let kw := {| ServiceInit.kw_use_gpu := Some true; ServiceInit.kw_lang := None |} in
  exists s,
    ServiceInit.new_OCRService classes "EasyOCR" kw = Ok s
    /\ engine (fst (Service.process_image (fun _ => true) s "scan.png"))
       = Some "easyocr"
    /\ engine (fst (Service.process_image (fun _ => false) s "scan.png")) = None.
Proof.
  intros classes kw. eexists.
  split; [reflexivity|]. split.
  - exact (X14_engine_key classes "EasyOCR" kw _ (fun _ => true) "scan.png"
             eq_refl).
  - exact (X14_engine_key classes "EasyOCR" kw _ (fun _ => false) "scan.png"
             eq_refl).
Defined.

End ServiceExamples.

(** ** [api/routes.py] *)

Section RouteFacts.
Import Engines ServiceInit Py Preprocessing Routes Terms.
Context {image : Type}.
Implicit Types (cfg : config) (classes : engine_classes image)
  (g : globals image).

(** X15.  [get_ocr_service] settles on its first outcome: once it has
    returned a service or raised, every later call returns that service or
    raises that error again and leaves the globals alone, whatever the
    configuration and the engine classes have become; a failed
    initialisation is never retried.  [/health] then reports [ready] after a
    success and [not_initialized] after a failure. *)
Theorem X15_service_settled cfg classes g cfg' classes' :
  get_ocr_service cfg' classes' (fst (get_ocr_service cfg classes g))
  = get_ocr_service cfg classes g
  /\ ocr_engine (health_check cfg'
                   (fst (get_ocr_service cfg classes initial_globals)))
     = OCR_ENGINE cfg'
       ++ match snd (get_ocr_service cfg classes initial_globals) with
          | Ok _ => " (ready)"
          | Err _ => " (not_initialized)"
          end.
Proof.
  split.
  - unfold get_ocr_service at 2 3.
    destruct g as [[s|] [e|]]; simpl; try reflexivity.
    match goal with
    | |- context [match ?m with Ok _ => _ | Err _ => _ end] => destruct m
    end; reflexivity.
  - unfold get_ocr_service, health_check. simpl.
    match goal with
    | |- context [match ?m with Ok _ => _ | Err _ => _ end] => destruct m
    end; reflexivity.
Qed.

(** X16.  The routes compare [config.OCR_ENGINE] as it is written: exactly
    ["paddleocr"] starts PaddleOCR, exactly ["easyocr"] starts EasyOCR, and
    every other value, a differently cased or misspelt name included, starts
    Tesseract with [TESSERACT_LANG]. *)
Theorem X16_engine_choice cfg classes :
  OCR_ENGINE cfg <> "paddleocr" -> OCR_ENGINE cfg <> "easyocr" ->
  snd (get_ocr_service cfg classes initial_globals)
  = (e <- new_TesseractOCREngine classes
            {| kw_use_gpu := None;
               kw_lang := Some (LangStr (TESSERACT_LANG cfg)) |} ;;
     Ok {| Service.engine_type := "tesseract";
           Service.engine := TesseractObject e |}).
Proof.
  intros H1 H2. unfold get_ocr_service. simpl.
  apply String.eqb_neq in H1, H2. rewrite H1, H2.
  unfold new_OCRService. simpl.
  now destruct (new_TesseractOCREngine classes _).
Qed.

Lemma str_in_In x l : str_in x l = true <-> In x l.
Proof.
  unfold str_in. rewrite existsb_exists. split.
  - intros (y & Hy & E). apply String.eqb_eq in E. now subst.
  - intros H. exists x. split; [exact H|apply String.eqb_refl].
Qed.

Lemma set_eqb_spec a b : set_eqb a b = true <-> same_set a b.
Proof.
  unfold set_eqb, same_set. rewrite andb_true_iff, !forallb_forall. split.
  - intros [H1 H2] x. split; intros H.
    + apply str_in_In, H1, H.
    + apply str_in_In, H2, H.
  - intros H. split; intros x Hx; apply str_in_In, H, Hx.
Qed.

(** X17.  The [language] field matters only when [OCR_ENGINE] is
    ["easyocr"], the field is not empty, and its comma-separated names are
    not the configured ones as a set (order and repeats do not count): then
    the request is served by a new EasyOCR service for the requested names,
    or fails with status 500 when that cannot be made.  In every case the
    globals are those [get_ocr_service] leaves: the new service is not kept. *)
Theorem X17_language_override cfg classes g language :
  let got := get_ocr_service cfg classes g in
  let easy requested :=
    new_OCRService classes "easyocr"
      {| kw_use_gpu := Some (EASYOCR_USE_GPU cfg);
         kw_lang := Some (LangList requested) |} in
  let answer (r : result (service image)) :=
    match r with
    | Ok s => inr s
    | Err e => inl (HTTPError 500
                      ("OCR service initialization failed: " ++ str_exn e))
    end in
  fst (select_service cfg classes g language) = fst got
  /\ (OCR_ENGINE cfg <> "easyocr" \/ language = None \/ language = Some ""
      \/ (exists l, language = Some l
                    /\ same_set (split_on "," l) (EASYOCR_LANG cfg)) ->
      snd (select_service cfg classes g language) = answer (snd got))
  /\ (forall l,
        OCR_ENGINE cfg = "easyocr" -> language = Some l -> l <> "" ->
        ~ same_set (split_on "," l) (EASYOCR_LANG cfg) ->
        snd (select_service cfg classes g language)
        = answer (s <- snd got ;; easy (split_on "," l))).
Proof.
  intros got easy answer. subst got easy answer. cbv beta.
  unfold select_service.
  destruct (get_ocr_service cfg classes g) as [g1 [s|e]]; simpl.
  2:{ split; [reflexivity|]. split; reflexivity. }
  split; [|split].
  - destruct language as [[|c rest]|]; try reflexivity.
    destruct (String.eqb (OCR_ENGINE cfg) "easyocr"); [|reflexivity].
    destruct (set_eqb _ _); simpl; [reflexivity|].
    now destruct (new_OCRService classes _ _).
  - intros [H|[->|[->|(l & -> & H)]]]; try reflexivity.
    + apply String.eqb_neq in H. rewrite H.
      now destruct language as [[|c rest]|].
    + destruct l as [|c rest]; [reflexivity|].
      apply set_eqb_spec in H. rewrite H. simpl.
      now destruct (String.eqb (OCR_ENGINE cfg) "easyocr").
  - intros l He -> Hl Hn. destruct l as [|c rest]; [congruence|].
    rewrite He. simpl String.eqb.
    destruct (set_eqb _ _) eqn:E; [apply set_eqb_spec in E; contradiction|].
    simpl. now destruct (new_OCRService classes _ _).
Qed.

Lemma valid_line_spec f : valid_line f = true <-> valid_confidence f.
Proof.
  unfold valid_line, valid_confidence.
  now rewrite andb_true_iff, !Qle_bool_iff.
Qed.

Lemma forallb_valid_line lines :
  forallb valid_line lines = true <-> Forall valid_confidence lines.
Proof.
  rewrite forallb_forall, Forall_forall.
  split; intros H f Hf; apply valid_line_spec, H, Hf.
Qed.

(** X18.  What [/ocr] answers once recognition has run.  A failed
    recognition is never an HTTP error: it is a response with
    [success = False], empty text and no lines.  A missing input file is
    such a response, reported under the configured [OCR_ENGINE].  A
    successful recognition is answered with its text and its lines in order
    when every confidence lies in [[0, 1]], and with status 500 as soon as
    one does not. *)
Theorem X18_response {E} `{OCREngine E} cfg validation_error path_exists
    (s : Service.OCRService E) ocr_input :
  let r := fst (Service.process_image path_exists s ocr_input) in
  let lines := get (res_lines r) [] in
  let answer := respond cfg validation_error path_exists s ocr_input in
  (success r = false ->
   answer = inr {| r_success := false; r_text := ""; r_lines := [];
                   r_engine := get (engine r) (OCR_ENGINE cfg);
                   r_error := Some (get (error r) "Unknown error") |})
  /\ (path_exists ocr_input = false ->
      answer = inr {| r_success := false; r_text := ""; r_lines := [];
                      r_engine := OCR_ENGINE cfg;
                      r_error := Some ("Image file not found: " ++ ocr_input) |})
  /\ (success r = true -> Forall valid_confidence lines ->
      answer = inr {| r_success := true; r_text := get (res_text r) "";
                      r_lines := map new_OCRLine lines;
                      r_engine := get (engine r) (OCR_ENGINE cfg);
                      r_error := None |})
  /\ (success r = true -> ~ Forall valid_confidence lines ->
      answer = inl (HTTPError 500 ("OCR processing failed: "
                                   ++ validation_error lines))).
Proof.
  intros r lines answer. subst answer. unfold respond, build_response.
  fold r. fold lines.
  split; [|split; [|split]].
  - intros ->. reflexivity.
  - intros Hp. subst lines r. unfold Service.process_image.
    rewrite Hp. reflexivity.
  - intros -> Hv. unfold new_OCRResponse.
    apply forallb_valid_line in Hv. now rewrite Hv.
  - intros -> Hv. unfold new_OCRResponse.
    destruct (forallb valid_line lines) eqn:Ev; [|reflexivity].
    apply forallb_valid_line in Ev. contradiction.
Qed.

(** X19.  A Tesseract request is never answered with status 500 by the
    response model when the backend's raw confidences are at most 100: every
    line the adapter builds has a confidence above 0 and at most 1. *)
Theorem X19_tesseract_response cfg validation_error path_exists
    (self : TesseractOCREngine image) engine_type ocr_input :
  (forall img l data,
     image_to_data self img l = Ok data ->
     Forall (fun c => (c <= 100)%Z) (d_conf data)) ->
  exists response,
    respond cfg validation_error path_exists
      {| Service.engine_type := engine_type; Service.engine := self |}
      ocr_input
    = inr response.
Proof.
  intros Hmax. unfold respond, build_response, Service.process_image.
  destruct (path_exists ocr_input); simpl; [|eauto].
  unfold recognize, tess_recognize, tess_body.
  destruct (Image_open self ocr_input) as [img|]; simpl; eauto.
  destruct (image_to_data self img (lang self)) as [data|] eqn:Ed; simpl; eauto.
  destruct (image_to_string self img (lang self)) as [whole|]; simpl; eauto.
  destruct (tess_lines data) as [lines|] eqn:El; simpl; eauto.
  unfold new_OCRResponse.
  assert (Hv : forallb valid_line lines = true).
  { apply forallb_valid_line.
    pose proof (tess_lines_each data lines El) as HP.
    specialize (Hmax img (lang self) data Ed).
    eapply Forall_impl; [|exact HP].
    intros f (_ & c & Hin & Hpos & Hc).
    rewrite Forall_forall in Hmax. specialize (Hmax c Hin).
    unfold valid_confidence. rewrite Hc.
    unfold Qle, Qdiv. simpl. lia. }
  rewrite Hv. eauto.
Qed.

Lemma py_int_small (q : Q) : 0 < q -> q < 1 -> py_int q = 0%Z.
Proof.
  destruct q as [n d]. unfold py_int, Qlt. simpl. intros H0 H1.
  apply Z.quot_small. lia.
Qed.

Lemma crop_zero_width {A} (im : ImageProcessor.ndarray A) (x y h : Z) :
  ImageProcessor.crop im x y 0 h = im.
Proof.
  unfold ImageProcessor.crop, ImageProcessor.shape.
  set (W := match im with [] => 0%Z | r :: _ => Z.of_nat (List.length r) end).
  assert (HW : (0 <= W)%Z) by (subst W; destruct im; lia).
  replace (Z.max 0 (Z.min 0 (W - Z.max 0 (Z.min x W)))) with 0%Z by lia.
  reflexivity.
Qed.

Lemma crop_zero_height {A} (im : ImageProcessor.ndarray A) (x y w : Z) :
  ImageProcessor.crop im x y w 0 = im.
Proof.
  unfold ImageProcessor.crop, ImageProcessor.shape.
  set (Hh := Z.of_nat (List.length im)).
  assert (HH : (0 <= Hh)%Z) by (subst Hh; lia).
  replace (Z.max 0 (Z.min 0 (Hh - Z.max 0 (Z.min y Hh)))) with 0%Z by lia.
  now rewrite orb_true_r.
Qed.

(** X20.  The crop step of [/ocr] leaves the upload alone when the width or
    the height is absent, zero or negative, or when the image cannot be
    loaded.  Width and height are truncated to whole pixels, so a width or
    height below one pixel writes the whole image back instead of a crop;
    an absent [crop_x] or [crop_y] counts as 0. *)
Theorem X20_crop_request {matrix} (cv : cv2 matrix) temp_path
    (crop_x crop_y crop_width crop_height : option Q) :
  let x := match crop_x with Some q => py_int q | None => 0%Z end in
  let y := match crop_y with Some q => py_int q | None => 0%Z end in
  let cropped := crop_upload cv temp_path crop_x crop_y crop_width crop_height in
  (not_positive crop_width \/ not_positive crop_height
   \/ imread cv temp_path = None ->
   cropped = None)
  /\ (forall im w h,
        imread cv temp_path = Some im ->
        crop_width = Some w -> crop_height = Some h -> 0 < w -> 0 < h ->
        cropped = Some (crop_image im x y (py_int w) (py_int h))
        /\ (w < 1 \/ h < 1 -> cropped = Some im)).
Proof.
  intros x y cropped. subst cropped. unfold crop_upload. split.
  - assert (Hnp : forall o, not_positive o -> positive o = false).
    { intros [q|] Hq; [|reflexivity]. now apply Qltb_ge. }
    intros [Hw|[Hh|Hi]].
    + rewrite (Hnp _ Hw). now rewrite andb_false_r, andb_false_l.
    + rewrite (Hnp _ Hh). now rewrite andb_false_r.
    + unfold load_image. rewrite Hi. now destruct (_ && _).
  - intros im w h Hi -> -> Hw Hh.
    assert (Ht : forall q, 0 < q -> truthy (Some q) = true).
    { intros q Hq. unfold truthy. apply negb_true_iff.
      destruct (Qeq_bool q 0) eqn:E; [|reflexivity].
      apply Qeq_bool_iff in E. rewrite E in Hq. now apply Qlt_irrefl in Hq. }
    rewrite (Ht w Hw), (Ht h Hh). unfold positive.
    rewrite (proj2 (Qltb_lt 0 w) Hw), (proj2 (Qltb_lt 0 h) Hh).
    unfold load_image. rewrite Hi. simpl. fold x y.
    split; [reflexivity|].
    intros [H1|H1]; f_equal.
    + rewrite (py_int_small w Hw H1).
      destruct im; simpl; now rewrite crop_zero_width.
    + rewrite (py_int_small h Hh H1).
      destruct im; simpl; now rewrite crop_zero_height.
Qed.

End RouteFacts.

Section RouteExamples.
Import Engines ServiceInit Py Preprocessing Routes Terms.

Lemma X16_engine_choice_witness :
  let cfg := {| OCR_ENGINE := "PaddleOCR"; PADDLE_USE_GPU := false;
                PADDLE_LANG := "ch"; TESSERACT_LANG := "eng";
                EASYOCR_LANG := ["en"]; EASYOCR_USE_GPU := false |} in
  let tesseract : TesseractOCREngine unit :=
    {| Image_open := fun _ => Ok tt;
       image_to_data := fun _ _ => Ok (TessData [] [] [] [] [] []);
       image_to_string := fun _ _ => Ok "";
       lang := "eng" |} in
  let classes : engine_classes unit :=
    {| new_PaddleOCREngine := fun _ => Ok {| ocr := fun _ => Ok None |};
       new_TesseractOCREngine := fun _ => Ok tesseract;
       new_EasyOCREngine := fun _ => Ok {| readtext := fun _ => Ok [] |} |} in
  snd (get_ocr_service cfg classes initial_globals)
  = Ok {| Service.engine_type := "tesseract";
          Service.engine := TesseractObject tesseract |}.
Proof.
  intros cfg tesseract classes.
  rewrite (X16_engine_choice cfg classes); [reflexivity| |]; discriminate.
Defined.

Lemma X17_language_override_witness :
  let cfg := {| OCR_ENGINE := "easyocr"; PADDLE_USE_GPU := false;
                PADDLE_LANG := "ch"; TESSERACT_LANG := "eng";
                EASYOCR_LANG := ["ch_sim"; "en"]; EASYOCR_USE_GPU := false |} in
  let reader (name : string) : EasyOCREngine :=
    {| readtext := fun _ => Err (RuntimeError name) |} in
  let classes : engine_classes unit :=
    {| new_PaddleOCREngine := fun _ => Err (RuntimeError "paddleocr not installed");
       new_TesseractOCREngine := fun _ => Err (RuntimeError "pytesseract not installed");
       new_EasyOCREngine := fun kw =>
         match kw_lang kw with
         | Some (LangList l) => Ok (reader (join "+" l))
         | _ => Err (ValueError "lang")
         end |} in
  snd (select_service cfg classes initial_globals (Some "en,ch_sim,en"))
  = inr {| Service.engine_type := "easyocr";
           Service.engine := EasyObject (reader "ch_sim+en") |}
  /\ snd (select_service cfg classes initial_globals (Some "en"))
     = inr {| Service.engine_type := "easyocr";
              Service.engine := EasyObject (reader "en") |}.
Proof.
  intros cfg reader classes.
  pose proof (X17_language_override cfg classes initial_globals
                (Some "en,ch_sim,en")) as (_ & Hsame & _).
  pose proof (X17_language_override cfg classes initial_globals
                (Some "en")) as (_ & _ & Hother).
  split.
  - rewrite Hsame; [reflexivity|].
    right. right. right. exists "en,ch_sim,en". split; [reflexivity|].
    intros x. simpl. tauto.
  - rewrite (Hother "en"); [reflexivity|reflexivity|reflexivity|discriminate|].
    intros Hs. destruct (proj2 (Hs "ch_sim")) as [E|[]]; [simpl; auto|].
    discriminate.
Defined.

Lemma X18_response_witness :
  let cfg := {| OCR_ENGINE := "paddleocr"; PADDLE_USE_GPU := false;
                PADDLE_LANG := "ch"; TESSERACT_LANG := "eng";
                EASYOCR_LANG := ["en"]; EASYOCR_USE_GPU := false |} in
  let line := {| pl_bbox := AxisAligned 0 0 10 10; pl_text := "7";
                 pl_confidence := 3 # 2 |} in
  let s := {| Service.engine_type := "paddleocr";
              Service.engine := {| ocr := fun _ => Ok (Some [Some [line]]) |} |} in
  let validation_error (lines : list fragment) := "1 validation error" in
  respond cfg validation_error (fun _ => true) s "scan.png"
  = inl (HTTPError 500 "OCR processing failed: 1 validation error")
  /\ respond cfg validation_error (fun _ => false) s "scan.png"
     = inr {| r_success := false; r_text := ""; r_lines := [];
              r_engine := "paddleocr";
              r_error := Some "Image file not found: scan.png" |}.
Proof.
  intros cfg line s validation_error.
  pose proof (X18_response cfg validation_error (fun _ => true) s "scan.png")
    as (_ & _ & _ & Hbad).
  pose proof (X18_response cfg validation_error (fun _ => false) s "scan.png")
    as (_ & Hmissing & _).
  split.
  - rewrite Hbad; [reflexivity|reflexivity|].
    intros Hv. apply Forall_inv in Hv. destruct Hv as [_ Hv].
    revert Hv. vm_compute. intros Hv. now apply Hv.
  - now rewrite Hmissing.
Defined.

Lemma X19_tesseract_response_witness :
  let cfg := {| OCR_ENGINE := "tesseract"; PADDLE_USE_GPU := false;
                PADDLE_LANG := "ch"; TESSERACT_LANG := "eng";
                EASYOCR_LANG := ["en"]; EASYOCR_USE_GPU := false |} in
  let data := TessData ["Hello"] [100%Z] [12%Z] [30%Z] [48%Z] [16%Z] in
  let self : TesseractOCREngine unit :=
    {| Image_open := fun _ => Ok tt;
       image_to_data := fun _ _ => Ok data;
       image_to_string := fun _ _ => Ok "Hello";
       lang := "eng" |} in
  exists response,
    respond cfg (fun _ => "validation error") (fun _ => true)
      {| Service.engine_type := "tesseract"; Service.engine := self |}
      "scan.png"
    = inr response.
Proof.
  intros cfg data self.
  apply (X19_tesseract_response cfg (fun _ => "validation error")
           (fun _ => true) self "tesseract" "scan.png").
  intros img l d [= <-]. repeat constructor. simpl. lia.
Defined.

Lemma X20_crop_request_witness :
  let im := Gray [[1; 2; 3]; [4; 5; 6]]%Z in
  let cv : cv2 unit :=
    {| imread := fun _ => Some im;
       cvtColor_BGR2GRAY := fun i => Ok i;
       threshold_otsu := fun i => Ok i;
       adaptiveThreshold := fun i => Ok i;
       fastNlMeansDenoising := fun i => Ok i;
       minAreaRect_angle := fun _ => Ok 0;
       getRotationMatrix2D := fun _ _ => tt;
       warpAffine := fun i _ _ => Ok i |} in
  crop_upload cv "temp_scan.png" (Some (3 # 2)) None (Some 0) (Some 1) = None
  /\ crop_upload cv "temp_scan.png" (Some (3 # 2)) None (Some (5 # 2)) (Some 1)
     = Some (Gray [[2; 3]]%Z)
  /\ crop_upload cv "temp_scan.png" (Some (3 # 2)) None (Some (1 # 2)) (Some 1)
     = Some im.
Proof.
  intros im cv.
  split; [|split].
  - apply (proj1 (X20_crop_request cv "temp_scan.png" (Some (3 # 2)) None
                    (Some 0) (Some 1))).
    left. simpl. apply Qle_refl.
  - destruct (proj2 (X20_crop_request cv "temp_scan.png" (Some (3 # 2)) None
                       (Some (5 # 2)) (Some 1))
                    im (5 # 2) 1 eq_refl eq_refl eq_refl eq_refl eq_refl)
      as [E _].
    rewrite E. reflexivity.
  - destruct (proj2 (X20_crop_request cv "temp_scan.png" (Some (3 # 2)) None
                       (Some (1 # 2)) (Some 1))
                    im (1 # 2) 1 eq_refl eq_refl eq_refl eq_refl eq_refl)
      as [_ E].
    apply E. left. reflexivity.
Defined.

End RouteExamples.

(** ** [ImageProcessor.crop] *)

Section CropFacts.
Import ImageProcessor Spec.
Local Open Scope Z_scope.
Context {A : Type}.
Implicit Types (image : ndarray A).

Lemma slice_map {B C} (f : B -> C) (l : list B) (a b : Z) :
  slice (map f l) a b = map f (slice l a b).
Proof. unfold slice. now rewrite firstn_map, skipn_map. Qed.

Lemma slice_slice {B} (l : list B) (a n b m : Z) :
  0 <= a -> 0 <= b -> 0 <= m -> b + m <= n ->
  slice (slice l a (a + n)) b (b + m) = slice l (a + b) (a + b + m).
Proof.
  intros Ha Hb Hm Hn. unfold slice.
  rewrite firstn_skipn_comm, firstn_firstn, skipn_skipn.
  f_equal; [lia|]. f_equal. lia.
Qed.

(** A request that lies inside the image is honoured as it stands. *)
Lemma crop_inside image (H W : nat) (x y w h : Z) :
  rectangular H W image ->
  0 <= x -> 0 <= y -> 0 < w -> 0 < h ->
  x + w <= Z.of_nat W -> y + h <= Z.of_nat H ->
  crop image x y w h = map (fun r => slice r x (x + w)) (slice image y (y + h))
  /\ rectangular (Z.to_nat h) (Z.to_nat w) (crop image x y w h).
Proof.
  intros Hrect Hx Hy Hw Hh HxW HyH.
  pose proof (crop_clamped image H W x y w h Hrect) as E. cbv zeta in E.
  assert (EX : clamp 0 (Z.of_nat W) x = x)
    by (unfold clamp; destruct (Z.ltb_spec x 0), (Z.ltb_spec (Z.of_nat W) x); lia).
  assert (EY : clamp 0 (Z.of_nat H) y = y)
    by (unfold clamp; destruct (Z.ltb_spec y 0), (Z.ltb_spec (Z.of_nat H) y); lia).
  rewrite EX, EY in E.
  assert (EW : clamp 0 (Z.of_nat W - x) w = w)
    by (unfold clamp;
        destruct (Z.ltb_spec w 0), (Z.ltb_spec (Z.of_nat W - x) w); lia).
  assert (EH : clamp 0 (Z.of_nat H - y) h = h)
    by (unfold clamp;
        destruct (Z.ltb_spec h 0), (Z.ltb_spec (Z.of_nat H - y) h); lia).
  rewrite EW, EH in E.
  destruct (Z.eqb_spec w 0) as [?|_]; [lia|].
  destruct (Z.eqb_spec h 0) as [?|_]; [lia|].
  simpl in E. split; [exact E|]. rewrite E.
  destruct Hrect as [Hlen Hrows]. split.
  - rewrite length_map. apply slice_length; lia.
  - rewrite Forall_map. apply Forall_forall. intros r Hr.
    apply slice_In in Hr. rewrite Forall_forall in Hrows.
    apply slice_length; try lia. rewrite (Hrows r Hr). lia.
Qed.

(** X21.  [crop] never returns an empty image from a non-empty one, and
    never a larger one: the result is rectangular, at most as high and as
    wide as the image, and has a row and a column whenever the image has. *)
Theorem X21_crop_shape image (H W : nat) (x y w h : Z) :
  rectangular H W image ->
  exists H' W' : nat,
    rectangular H' W' (crop image x y w h)
    /\ (H' <= H)%nat /\ (W' <= W)%nat
    /\ ((0 < H)%nat -> (0 < H')%nat) /\ ((0 < W)%nat -> (0 < W')%nat).
Proof.
  intros Hrect.
  pose proof (crop_clamped image H W x y w h Hrect) as E. cbv zeta in E.
  set (X := clamp 0 (Z.of_nat W) x) in *.
  set (Y := clamp 0 (Z.of_nat H) y) in *.
  set (CW := clamp 0 (Z.of_nat W - X) w) in *.
  set (CH := clamp 0 (Z.of_nat H - Y) h) in *.
  assert (HX : 0 <= X <= Z.of_nat W) by (apply clamp_bounds; lia).
  assert (HY : 0 <= Y <= Z.of_nat H) by (apply clamp_bounds; lia).
  assert (HCW : 0 <= CW <= Z.of_nat W - X) by (apply clamp_bounds; lia).
  assert (HCH : 0 <= CH <= Z.of_nat H - Y) by (apply clamp_bounds; lia).
  destruct (Z.eqb_spec CW 0) as [E0|E0]; simpl in E.
  { exists H, W. rewrite E. split; [exact Hrect|repeat split; auto]. }
  destruct (Z.eqb_spec CH 0) as [E1|E1]; simpl in E.
  { exists H, W. rewrite E. split; [exact Hrect|repeat split; auto]. }
  exists (Z.to_nat CH), (Z.to_nat CW). rewrite E.
  destruct Hrect as [Hlen Hrows].
  split; [split|repeat split; lia].
  - rewrite length_map. apply slice_length; lia.
  - rewrite Forall_map. apply Forall_forall. intros r Hr.
    apply slice_In in Hr. rewrite Forall_forall in Hrows.
    apply slice_length; try lia. rewrite (Hrows r Hr). lia.
Qed.

(** X22.  Cropping inside a crop is cropping once: for a window inside the
    image and a second window inside the first, the second crop of the first
    crop is the crop of the image at the summed origin. *)
Theorem X22_crop_twice image (H W : nat) (x y w h x' y' w' h' : Z) :
  rectangular H W image ->
  0 <= x -> 0 <= y -> x + w <= Z.of_nat W -> y + h <= Z.of_nat H ->
  0 <= x' -> 0 <= y' -> 0 < w' -> 0 < h' -> x' + w' <= w -> y' + h' <= h ->
  crop (crop image x y w h) x' y' w' h' = crop image (x + x') (y + y') w' h'.
Proof.
  intros Hrect Hx Hy HxW HyH Hx' Hy' Hw' Hh' Hxw Hyh.
  destruct (crop_inside image H W x y w h Hrect) as [E1 R1]; try lia.
  destruct (crop_inside _ _ _ x' y' w' h' R1) as [E2 _]; try lia.
  destruct (crop_inside image H W (x + x') (y + y') w' h' Hrect) as [E3 _];
    try lia.
  rewrite E2, E3, E1, slice_map, map_map, slice_slice by lia.
  apply map_ext. intros r. apply slice_slice; lia.
Qed.

(** X23.  An origin left of or above the image is moved to 0 with the
    requested width and height kept, not reduced by the part that fell
    outside; an origin at or beyond the right or the bottom edge gives the
    whole image back. *)
Theorem X23_crop_origin image (x y w h : Z) :
  (x < 0 -> crop image x y w h = crop image 0 y w h)
  /\ (y < 0 -> crop image x y w h = crop image x 0 w h)
  /\ (snd (shape image) <= x -> crop image x y w h = image)
  /\ (fst (shape image) <= y -> crop image x y w h = image).
Proof.
  unfold crop, shape. simpl fst. simpl snd.
  set (Hh := Z.of_nat (List.length image)).
  set (Ww := match image with [] => 0 | r :: _ => Z.of_nat (List.length r) end).
  assert (HH : 0 <= Hh) by (subst Hh; lia).
  assert (HW : 0 <= Ww) by (subst Ww; destruct image; lia).
  split; [|split; [|split]].
  - intros Hx. now replace (Z.max 0 (Z.min x Ww)) with (Z.max 0 (Z.min 0 Ww)) by lia.
  - intros Hy. now replace (Z.max 0 (Z.min y Hh)) with (Z.max 0 (Z.min 0 Hh)) by lia.
  - intros Hx.
    replace (Z.max 0 (Z.min w (Ww - Z.max 0 (Z.min x Ww)))) with 0 by lia.
    reflexivity.
  - intros Hy.
    replace (Z.max 0 (Z.min h (Hh - Z.max 0 (Z.min y Hh)))) with 0 by lia.
    now rewrite orb_true_r.
Qed.

End CropFacts.

Lemma X21_crop_shape_witness :
  let image : ImageProcessor.ndarray nat := [[1; 2; 3]; [4; 5; 6]]%nat in
  Spec.rectangular 2 3 image
  /\ exists H' W' : nat,
       Spec.rectangular H' W' (ImageProcessor.crop image 7 0 2 2)
       /\ (0 < H')%nat /\ (0 < W')%nat.
Proof.
  intros image.
  assert (Hrect : Spec.rectangular 2 3 image)
    by (split; [reflexivity|repeat constructor]).
  split; [exact Hrect|].
  destruct (X21_crop_shape image 2 3 7 0 2 2 Hrect)
    as (H' & W' & R & _ & _ & HH & HW).
  exists H', W'. split; [exact R|]. split; [apply HH|apply HW]; lia.
Defined.

Lemma X22_crop_twice_witness :
  let image : ImageProcessor.ndarray nat :=
    [[1; 2; 3; 4]; [5; 6; 7; 8]; [9; 10; 11; 12]]%nat in
  Spec.rectangular 3 4 image
  /\ ImageProcessor.crop (ImageProcessor.crop image 1 1 3 2) 1 0 2 1
     = ImageProcessor.crop image 2 1 2 1.
Proof.
  intros image.
  assert (Hrect : Spec.rectangular 3 4 image)
    by (split; [reflexivity|repeat constructor]).
  split; [exact Hrect|].
  apply (X22_crop_twice image 3 4 1 1 3 2 1 0 2 1 Hrect); simpl; lia.
Defined.

Lemma X23_crop_origin_witness :
  let image : ImageProcessor.ndarray nat := [[1; 2; 3]; [4; 5; 6]]%nat in
  ImageProcessor.crop image (-2) 0 2 1 = [[1; 2]]%nat
  /\ ImageProcessor.crop image 3 0 2 1 = image.
Proof.
  intros image. split.
  - rewrite (proj1 (X23_crop_origin image (-2) 0 2 1)); [reflexivity|lia].
  - apply (proj1 (proj2 (proj2 (X23_crop_origin image 3 0 2 1)))). simpl. lia.
Defined.

(** ** [ImageProcessor]: loading and the preprocessing pipeline *)

Section PreprocessingFacts.
Import ImageProcessor Preprocessing Terms.
Context {matrix : Type}.
Implicit Types (cv : cv2 matrix) (im : image).

Lemma flat_map_nil {B C} (f : B -> list C) (l : list B) :
  flat_map f l = [] <-> forall b, In b l -> f b = [].
Proof.
  induction l as [|a l IH]; simpl.
  - split; [intros _ b []|reflexivity].
  - split.
    + intros E. apply app_eq_nil in E as [Ea El].
      intros b [<-|Hb]; [exact Ea|]. now apply IH.
    + intros Hall. rewrite (Hall a) by auto. simpl. apply IH. auto.
Qed.

Lemma enumerate_In {B} (l : list B) (i : nat) (b : B) :
  In (i, b) (enumerate l) -> In b l.
Proof. unfold enumerate. apply in_combine_r. Qed.

Lemma In_enumerate {B} (l : list B) (b : B) :
  In b l -> exists i, In (i, b) (enumerate l).
Proof.
  unfold enumerate. generalize 0%nat.
  induction l as [|a l IH]; intros start; [intros []|].
  intros [->|Hb].
  - exists start. now left.
  - destruct (IH (S start) Hb) as [i Hi]. exists i. now right.
Qed.

(** [np.where(image > 0)] finds nothing exactly on a blank image. *)
Lemma where_positive_blank im : where_positive im = [] <-> blank im.
Proof.
  assert (Hcell : forall (T : Type) (w : T) (v : Z),
            (if (0 <? v)%Z then [w] else []) = [] <-> (v <= 0)%Z).
  { intros T w v. destruct (Z.ltb_spec 0 v); split; try discriminate; auto; lia. }
  unfold blank, elements. rewrite Forall_forall.
  destruct im as [px|px]; unfold where_positive; rewrite flat_map_nil.
  - split.
    + intros Hw v Hv. apply in_concat in Hv as (r & Hr & Hv).
      destruct (In_enumerate px r Hr) as [i Hi].
      destruct (In_enumerate r v Hv) as [j Hj].
      specialize (Hw (i, r) Hi). cbv beta iota in Hw.
      rewrite flat_map_nil in Hw. specialize (Hw (j, v) Hj).
      cbv beta iota in Hw. now apply Hcell in Hw.
    + intros Hb [i r] Hi. apply flat_map_nil. intros [j v] Hj.
      apply Hcell. apply Hb. apply in_concat. exists r.
      split; [apply (enumerate_In px i r Hi)|apply (enumerate_In r j v Hj)].
  - split.
    + intros Hw v Hv. apply in_concat in Hv as (p & Hp & Hv).
      apply in_map_iff in Hp as (r & <- & Hr).
      apply in_concat in Hv as (q & Hq & Hv).
      destruct (In_enumerate px r Hr) as [i Hi].
      destruct (In_enumerate r q Hq) as [j Hj].
      destruct (In_enumerate q v Hv) as [k Hk].
      specialize (Hw (i, r) Hi). cbv beta iota in Hw.
      rewrite flat_map_nil in Hw. specialize (Hw (j, q) Hj).
      cbv beta iota in Hw.
      rewrite flat_map_nil in Hw. specialize (Hw (k, v) Hk).
      cbv beta iota in Hw. now apply Hcell in Hw.
    + intros Hb [i r] Hi. apply flat_map_nil. intros [j q] Hj.
      apply flat_map_nil. intros [k v] Hk.
      apply Hcell. apply Hb. apply in_concat. exists (concat r).
      split.
      * apply in_map. apply (enumerate_In px i r Hi).
      * apply in_concat. exists q.
        split; [apply (enumerate_In r j q Hj)|apply (enumerate_In q k v Hk)].
Qed.

(** X24.  [deskew] returns a blank image (no element above zero) as it is,
    without asking OpenCV for anything; on any other image it rotates about
    [(w // 2, h // 2)] into an output of the same size, by the angle
    [minAreaRect] reports for the positions of the positive elements,
    adjusted by lines 140-143. *)
Theorem X24_deskew cv im :
  (blank im -> deskew cv im = Ok im)
  /\ (~ blank im ->
      deskew cv im
      = (angle <- minAreaRect_angle cv (where_positive im) ;;
         warpAffine cv im
           (getRotationMatrix2D cv
              ((snd (shape2 im) / 2)%Z, (fst (shape2 im) / 2)%Z)
              (deskew_angle angle))
           (snd (shape2 im), fst (shape2 im)))).
Proof.
  unfold deskew. split.
  - intros Hb. apply where_positive_blank in Hb. now rewrite Hb.
  - intros Hn. destruct (where_positive im) as [|c cs] eqn:E.
    + exfalso. apply Hn. now apply where_positive_blank.
    + now destruct (shape2 im).
Qed.

(** X25.  The angle [deskew] rotates by: an angle reported in
    [[-90, -45)] becomes its complement, in [(-45, 0]]; an angle of at least
    -45 is negated, so one in [[-45, 45]] stays in that range and one above
    45 gives a rotation of more than 45 degrees. *)
Theorem X25_deskew_angle (angle : Q) :
  (angle < -45 -> deskew_angle angle == - (90 + angle))
  /\ (-45 <= angle -> deskew_angle angle == - angle)
  /\ (-90 <= angle -> angle <= 45 ->
      -45 <= deskew_angle angle /\ deskew_angle angle <= 45)
  /\ (45 < angle -> deskew_angle angle < -45).
Proof.
  unfold deskew_angle.
  destruct (Qltb angle (-45)) eqn:E;
    [apply Qltb_lt in E|apply Qltb_ge in E].
  - split; [reflexivity|]. split; [intros H; exfalso; lra|].
    split; [intros H1 H2; split; lra|intros H; lra].
  - split; [intros H; exfalso; lra|]. split; [reflexivity|].
    split; [intros H1 H2; split; lra|intros H; lra].
Qed.

(** X26.  Edge cases of [preprocess], whatever OpenCV does.  A file that
    cannot be read raises [ValueError] naming the path, whatever steps were
    asked for.  A colour image with [grayscale=False] comes back untouched,
    even with denoising, deskewing and thresholding switched on: those steps
    only run on two-dimensional arrays.  A gray image is never sent through
    the colour conversion. *)
Theorem X26_preprocess_edges cv image_path
    (grayscale threshold denoise_image deskew_image : bool) :
  (imread cv image_path = None ->
   preprocess cv image_path grayscale threshold denoise_image deskew_image
   = Err (ValueError ("Failed to load image from " ++ image_path)))
  /\ (forall px, imread cv image_path = Some (Color px) ->
        preprocess cv image_path false threshold denoise_image deskew_image
        = Ok (Color px))
  /\ (forall px, imread cv image_path = Some (Gray px) ->
        preprocess cv image_path grayscale threshold denoise_image deskew_image
        = preprocess cv image_path false threshold denoise_image deskew_image).
Proof.
  unfold preprocess, load_image. split; [|split].
  - intros ->. reflexivity.
  - intros px ->. rewrite bind_Ok. simpl.
    rewrite andb_false_r, bind_Ok. simpl.
    rewrite andb_false_r, bind_Ok. simpl.
    now rewrite andb_false_r.
  - intros px ->. rewrite !bind_Ok. now destruct grayscale.
Qed.

End PreprocessingFacts.

(** ** The text of a layout *)

Section TextFacts.
Import Layout Spec Terms.







End TextFacts.

Section PreprocessingExamples.
Import ImageProcessor Preprocessing Terms.

Lemma X24_deskew_witness :
  let cv : cv2 unit :=
    {| imread := fun _ => None;
       cvtColor_BGR2GRAY := fun _ => Err (RuntimeError "cvtColor");
       threshold_otsu := fun _ => Err (RuntimeError "threshold");
       adaptiveThreshold := fun _ => Err (RuntimeError "adaptiveThreshold");
       fastNlMeansDenoising := fun _ => Err (RuntimeError "fastNlMeansDenoising");
       minAreaRect_angle := fun _ => Ok (-60);
       getRotationMatrix2D := fun _ _ => tt;
       warpAffine := fun _ _ _ => Err (RuntimeError "warpAffine") |} in
  deskew cv (Gray [[0; 0]; [0; 0]]%Z) = Ok (Gray [[0; 0]; [0; 0]]%Z)
  /\ deskew cv (Gray [[0; 0]; [0; 255]]%Z) = Err (RuntimeError "warpAffine").
Proof.
  intros cv. split.
  - apply (proj1 (X24_deskew cv (Gray [[0; 0]; [0; 0]]%Z))).
    repeat constructor; discriminate.
  - rewrite (proj2 (X24_deskew cv (Gray [[0; 0]; [0; 255]]%Z))); [reflexivity|].
    intros Hb. unfold blank in Hb. simpl in Hb.
    do 3 apply Forall_inv_tail in Hb. apply Forall_inv in Hb. lia.
Defined.

Lemma X25_deskew_angle_witness :
  deskew_angle (-60) == -30 /\ deskew_angle 30 == -30
  /\ deskew_angle 90 < -45.
Proof.
  split; [|split].
  - rewrite (proj1 (X25_deskew_angle (-60))); reflexivity.
  - rewrite (proj1 (proj2 (X25_deskew_angle 30))); [reflexivity|discriminate].
  - apply (proj2 (proj2 (proj2 (X25_deskew_angle 90)))). reflexivity.
Defined.

Lemma X26_preprocess_edges_witness :
  let pixels : ndarray (list Z) := [[[10; 20; 30]%Z]] in
  let cv : cv2 unit :=
    {| imread := fun p => if String.eqb p "scan.png" then Some (Color pixels)
                          else None;
       cvtColor_BGR2GRAY := fun _ => Err (RuntimeError "cvtColor");
       threshold_otsu := fun _ => Err (RuntimeError "threshold");
       adaptiveThreshold := fun _ => Err (RuntimeError "adaptiveThreshold");
       fastNlMeansDenoising := fun _ => Err (RuntimeError "fastNlMeansDenoising");
       minAreaRect_angle := fun _ => Err (RuntimeError "minAreaRect");
       getRotationMatrix2D := fun _ _ => tt;
       warpAffine := fun _ _ _ => Err (RuntimeError "warpAffine") |} in
  preprocess cv "gone.png" true true true false
  = Err (ValueError "Failed to load image from gone.png")
  /\ preprocess cv "scan.png" false true true true = Ok (Color pixels).
Proof.
  intros pixels cv. split.
  - apply (proj1 (X26_preprocess_edges cv "gone.png" true true true false)).
    reflexivity.
  - apply (proj1 (proj2 (X26_preprocess_edges cv "scan.png" false true true true))).
    reflexivity.
Defined.

End PreprocessingExamples.

(** * The layout on Python's numbers *)

(** ** Rounding to binary64 *)

Section RoundingFacts.
Import Binary64.

Lemma two_neq_0 : ~ 2 == 0.
Proof. discriminate. Qed.

Lemma pow2_pos (e : Z) : 0 < 2 ^ e.
Proof. apply Qpower_0_lt. reflexivity. Qed.

Lemma pow2_Z (e : Z) : (0 <= e)%Z -> 2 ^ e == inject_Z (2 ^ e).
Proof. intros He. now rewrite (Zpower_Qpower 2 e He). Qed.

Lemma pow2_le (a b : Z) : (a <= b)%Z -> 2 ^ a <= 2 ^ b.
Proof. intros H. apply Qpower_le_compat_l; [exact H|discriminate]. Qed.

Lemma pow2_lt (a b : Z) : (a < b)%Z -> 2 ^ a < 2 ^ b.
Proof. intros H. apply Qpower_lt_compat_l; [exact H|reflexivity]. Qed.

Lemma pow2_lt_inv (a b : Z) : 2 ^ a < 2 ^ b -> (a < b)%Z.
Proof. intros H. apply (Qpower_lt_compat_l_inv 2); [exact H|reflexivity]. Qed.

Lemma pow2_plus (a b : Z) : 2 ^ (a + b) == 2 ^ a * 2 ^ b.
Proof. apply Qpower_plus, two_neq_0. Qed.

Lemma pow2_opp (a : Z) : 2 ^ (- a) == / 2 ^ a.
Proof. apply Qpower_opp. Qed.

(** [floor_log2] does not overshoot. *)
Lemma floor_log2_le (q : Q) : 0 < q -> 2 ^ floor_log2 q <= q.
Proof.
  intros Hq. destruct q as [n d]. unfold floor_log2. cbn [Qnum Qden].
  set (a := Z.log2 n). set (b := Z.log2 (Z.pos d)).
  destruct (Qle_bool (2 ^ (a - b)) (n # d)) eqn:E; [now apply Qle_bool_iff|].
  assert (Hn : (0 < n)%Z) by (unfold Qlt in Hq; simpl in Hq; lia).
  destruct (Z.log2_spec n Hn) as [Ha _]. fold a in Ha.
  destruct (Z.log2_spec (Z.pos d) (Pos2Z.is_pos d)) as [_ Hb]. fold b in Hb.
  assert (Ha0 : (0 <= a)%Z) by apply Z.log2_nonneg.
  assert (Hb0 : (0 <= b)%Z) by apply Z.log2_nonneg.
  replace (a - b - 1)%Z with (a + - (Z.succ b))%Z by lia.
  rewrite pow2_plus, pow2_opp, (pow2_Z a Ha0), (pow2_Z (Z.succ b)) by lia.
  apply Qle_shift_div_r.
  - change 0 with (inject_Z 0). rewrite <- Zlt_Qlt. lia.
  - unfold Qle, Qmult, inject_Z. cbn [Qnum Qden]. nia.
Qed.

(** [round_half_even] is within one half, and exact on the integers. *)
Lemma round_half_even_error (x : Q) :
  Qabs (inject_Z (round_half_even x) - x) <= 1 # 2.
Proof.
  unfold round_half_even.
  pose proof (Qfloor_le x) as Hlo. pose proof (Qlt_floor x) as Hhi.
  rewrite inject_Z_plus in Hhi. change (inject_Z 1) with 1 in Hhi.
  set (f := Qfloor x) in *.
  apply Qabs_Qle_condition.
  destruct (Qcompare_spec (x - inject_Z f) (1 # 2)) as [E|E|E].
  - destruct (Z.even f); [|rewrite inject_Z_plus; change (inject_Z 1) with 1];
      split; lra.
  - split; lra.
  - rewrite inject_Z_plus. change (inject_Z 1) with 1. split; lra.
Qed.

Lemma round_half_even_Z (x : Q) (m : Z) :
  x == inject_Z m -> round_half_even x = m.
Proof.
  intros E. unfold round_half_even.
  rewrite (Qfloor_comp _ _ E), Qfloor_Z.
  destruct (Qcompare_spec (x - inject_Z m) (1 # 2)) as [H|H|H];
    [exfalso; lra|reflexivity|exfalso; lra].
Qed.

Lemma round_half_even_nonneg (x : Q) : 0 <= x -> (0 <= round_half_even x)%Z.
Proof.
  intros Hx. unfold round_half_even.
  assert (Hf : (0 <= Qfloor x)%Z).
  { change 0%Z with (Qfloor 0). now apply Qfloor_resp_le. }
  destruct (Qcompare _ _); [destruct (Z.even _)| |]; lia.
Qed.

Lemma round_comp (q q' : Q) : q == q' -> round q = round q'.
Proof. intros E. unfold round. now rewrite (Qred_complete _ _ E). Qed.

Lemma round_0 (q : Q) : q == 0 -> round q = Finite 0.
Proof. intros E. now rewrite (round_comp _ _ E). Qed.

(** What [round] returns. *)
Lemma round_cases (q : Q) :
  ~ q == 0 ->
  let u := ulp_exp (Qred q) in
  let r := inject_Z (round_half_even (Qred q / 2 ^ u)) * 2 ^ u in
  (round q = Finite (Qred r) /\ - 2 ^ 1024 < r /\ r < 2 ^ 1024)
  \/ (round q = PosInf /\ 2 ^ 1024 <= r)
  \/ (round q = NegInf /\ r <= - 2 ^ 1024).
Proof.
  intros Hq u r. unfold round.
  destruct (Qeq_bool (Qred q) 0) eqn:E0.
  { exfalso. apply Hq. apply Qeq_bool_iff in E0. now rewrite <- (Qred_correct q). }
  fold u. fold r.
  destruct (Qle_bool (2 ^ 1024) (Qred r)) eqn:E1.
  { right. left. split; [reflexivity|].
    apply Qle_bool_iff in E1. now rewrite (Qred_correct r) in E1. }
  destruct (Qle_bool (Qred r) (- 2 ^ 1024)) eqn:E2.
  { right. right. split; [reflexivity|].
    apply Qle_bool_iff in E2. now rewrite (Qred_correct r) in E2. }
  left. split; [reflexivity|].
  assert (H1 : ~ 2 ^ 1024 <= Qred r)
    by (intros H; apply Qle_bool_iff in H; congruence).
  assert (H2 : ~ Qred r <= - 2 ^ 1024)
    by (intros H; apply Qle_bool_iff in H; congruence).
  rewrite (Qred_correct r) in H1, H2.
  split; [now apply Qnot_le_lt|now apply Qnot_le_lt].
Qed.

Lemma Qabs_0 (x : Q) : Qabs x == 0 -> x == 0.
Proof.
  intros H. destruct (Qlt_le_dec x 0) as [Hx|Hx].
  - rewrite Qabs_neg in H by lra. lra.
  - now rewrite Qabs_pos in H.
Qed.

Lemma Qabs_pos_lt (x : Q) : ~ x == 0 -> 0 < Qabs x.
Proof.
  intros Hx. destruct (Qlt_le_dec 0 (Qabs x)) as [H|H]; [exact H|].
  exfalso. apply Hx, Qabs_0. pose proof (Qabs_nonneg x). lra.
Qed.

(** The exponent of the last place of a number below [2^e]. *)
Lemma ulp_exp_le (q : Q) (e : Z) :
  ~ q == 0 -> Qabs q < 2 ^ e -> (ulp_exp q <= Z.max (e - 53) (-1074))%Z.
Proof.
  intros Hq Hlt. unfold ulp_exp.
  pose proof (floor_log2_le _ (Qabs_pos_lt q Hq)) as Hfl.
  assert (H : (floor_log2 (Qabs q) < e)%Z)
    by (apply pow2_lt_inv; eapply Qle_lt_trans; eassumption).
  lia.
Qed.

(** [round] is exact on a number of at most 53 bits above the exponent of
    the subnormals. *)
Lemma round_dyadic (z k : Z) (q : Q) :
  q == inject_Z z * 2 ^ (- k) ->
  (Z.abs z < 2 ^ 53)%Z -> (0 <= k <= 1074)%Z ->
  round q = Finite (Qred q).
Proof.
  intros Eq Hz Hk.
  destruct (Z.eq_dec z 0) as [->|Hz0].
  { assert (E0 : q == 0) by (rewrite Eq; ring).
    rewrite (round_0 q E0). f_equal. now rewrite (Qred_complete _ _ E0). }
  assert (Hq0 : ~ q == 0).
  { rewrite Eq. intros H. apply Qmult_integral in H as [H|H].
    - apply Hz0. unfold Qeq in H. simpl in H. lia.
    - pose proof (pow2_pos (- k)). lra. }
  pose proof (round_cases q Hq0) as Hc. cbv zeta in Hc.
  set (u := ulp_exp (Qred q)) in *.
  assert (Habs : Qabs q < 2 ^ (53 - k)).
  { rewrite Eq, Qabs_Qmult.
    rewrite (Qabs_pos (2 ^ (- k))) by (apply Qlt_le_weak, pow2_pos).
    replace (53 - k)%Z with (53 + - k)%Z by lia. rewrite pow2_plus.
    apply Qmult_lt_r; [apply pow2_pos|].
    rewrite (pow2_Z 53) by lia.
    unfold Qabs, inject_Z, Qlt. simpl. lia. }
  assert (Hu : (u <= - k)%Z).
  { assert (Hq0' : ~ Qred q == 0) by now rewrite (Qred_correct q).
    assert (Habs' : Qabs (Qred q) < 2 ^ (53 - k)) by now rewrite (Qred_correct q).
    pose proof (ulp_exp_le (Qred q) (53 - k) Hq0' Habs'). lia. }
  set (j := (- k - u)%Z).
  assert (Hm : Qred q / 2 ^ u == inject_Z (z * 2 ^ j)).
  { rewrite (Qred_correct q), Eq, inject_Z_mult, <- (pow2_Z j) by (unfold j; lia).
    unfold Qdiv. rewrite <- pow2_opp, <- Qmult_assoc, <- pow2_plus.
    now replace (- k + - u)%Z with j by (unfold j; lia). }
  rewrite (round_half_even_Z _ _ Hm) in Hc.
  assert (Er : inject_Z (z * 2 ^ j) * 2 ^ u == q).
  { rewrite Eq, inject_Z_mult, <- (pow2_Z j) by (unfold j; lia).
    rewrite <- Qmult_assoc, <- pow2_plus.
    now replace (j + u)%Z with (- k)%Z by (unfold j; lia). }
  assert (Hbig : 2 ^ (53 - k) <= 2 ^ 1024) by (apply pow2_le; lia).
  apply Qabs_Qlt_condition in Habs.
  destruct Hc as [[-> _]|[[_ H]|[_ H]]].
  - f_equal. now apply Qred_complete.
  - exfalso. rewrite Er in H. lra.
  - exfalso. rewrite Er in H. lra.
Qed.


(** The error of [round] is at most half a unit in the last place. *)
Lemma round_error (q r : Q) :
  round q = Finite r ->
  Qabs (r - q) <= 2 ^ ulp_exp (Qred q) * (1 # 2).
Proof.
  intros H.
  pose proof (pow2_pos (ulp_exp (Qred q))) as Hu.
  destruct (Qeq_dec q 0) as [E0|Hq0].
  { rewrite (round_0 q E0) in H. injection H as <-.
    setoid_replace (0 - q) with 0 by (rewrite E0; ring).
    change (Qabs 0) with 0. lra. }
  pose proof (round_cases q Hq0) as Hc. cbv zeta in Hc.
  set (u := ulp_exp (Qred q)) in *.
  destruct Hc as [[Hr _]|[[Hr _]|[Hr _]]]; rewrite Hr in H; try discriminate.
  pose proof (round_half_even_error (Qred q / 2 ^ u)) as He.
  set (m := inject_Z (round_half_even (Qred q / 2 ^ u))) in *.
  assert (Er : r == m * 2 ^ u).
  { injection H as <-. exact (Qred_correct (m * 2 ^ u)). }
  rewrite Er.
  assert (E : m * 2 ^ u - q == (m - Qred q / 2 ^ u) * 2 ^ u).
  { rewrite (Qred_correct q). field. lra. }
  rewrite E, Qabs_Qmult, (Qabs_pos (2 ^ u)) by lra.
  rewrite (Qmult_comm (2 ^ u)).
  apply Qmult_le_compat_r; [exact He|lra].
Qed.

Lemma Qfloor_unique (x : Q) (k : Z) :
  inject_Z k <= x -> x < inject_Z (k + 1) -> Qfloor x = k.
Proof.
  intros Hlo Hhi.
  pose proof (Qfloor_le x) as H1. pose proof (Qlt_floor x) as H2.
  assert (A : inject_Z k < inject_Z (Qfloor x + 1)) by lra.
  assert (B : inject_Z (Qfloor x) < inject_Z (k + 1)) by lra.
  rewrite <- Zlt_Qlt in A, B. lia.
Qed.

(** The quotient of a small [int] by 10, rounded, has the integer part of
    the exact quotient. *)
Lemma round_div10 (g : Z) :
  (0 <= g < 2 ^ 52)%Z ->
  exists r, round (inject_Z g / inject_Z 10) = Finite r
            /\ 0 <= r /\ Qfloor r = (g / 10)%Z.
Proof.
  intros Hg. set (q := inject_Z g / inject_Z 10).
  pose proof (Z.div_mod g 10 ltac:(lia)) as Hdm.
  pose proof (Z.mod_pos_bound g 10 ltac:(lia)) as Hs.
  set (k := (g / 10)%Z) in *. set (s := (g mod 10)%Z) in *.
  assert (Hk : (0 <= k)%Z) by (apply Z.div_pos; lia).
  assert (Eq : q == inject_Z k + inject_Z s * (1 # 10)).
  { unfold q. rewrite Hdm, inject_Z_plus, inject_Z_mult.
    change (inject_Z 10) with 10. field. }
  assert (Hs' : 0 <= inject_Z s /\ inject_Z s <= 9).
  { split; [change 0 with (inject_Z 0)|change 9 with (inject_Z 9)];
      rewrite <- Zle_Qle; lia. }
  assert (Hk' : 0 <= inject_Z k)
    by (change 0 with (inject_Z 0); rewrite <- Zle_Qle; lia).
  destruct (Z.eq_dec s 0) as [Es|Es].
  - assert (Eq' : q == inject_Z k * 2 ^ (- 0)).
    { rewrite Eq, Es. change (2 ^ (- 0)) with 1. change (inject_Z 0) with 0.
      field. }
    exists (Qred q). split; [apply (round_dyadic k 0 q Eq'); lia|].
    rewrite (Qred_correct q). split.
    + rewrite Eq. lra.
    + apply Qfloor_unique; rewrite Eq, Es; change (inject_Z 0) with 0;
        [lra|rewrite inject_Z_plus; change (inject_Z 1) with 1; lra].
  - assert (Hs1 : 1 <= inject_Z s)
      by (change 1 with (inject_Z 1); rewrite <- Zle_Qle; lia).
    assert (Hq0 : ~ q == 0) by (rewrite Eq; lra).
    assert (Hlt : Qabs q < 2 ^ 49).
    { rewrite Qabs_pos by (rewrite Eq; lra).
      unfold q. apply Qlt_shift_div_r; [reflexivity|].
      rewrite (pow2_Z 49) by lia.
      change (inject_Z 10) with 10.
      assert (H : inject_Z g < inject_Z (2 ^ 52)) by (rewrite <- Zlt_Qlt; lia).
      change (inject_Z (2 ^ 52)) with 4503599627370496 in H.
      change (inject_Z (2 ^ 49)) with 562949953421312. lra. }
    assert (Hq0' : ~ Qred q == 0) by now rewrite (Qred_correct q).
    assert (Hlt' : Qabs (Qred q) < 2 ^ 49) by now rewrite (Qred_correct q).
    pose proof (ulp_exp_le (Qred q) 49 Hq0' Hlt') as Hu.
    pose proof (round_cases q Hq0) as Hc. cbv zeta in Hc.
    set (u := ulp_exp (Qred q)) in *.
    assert (Hpu : 2 ^ u <= 1 # 16).
    { change (1 # 16) with (2 ^ (-4)). apply pow2_le. lia. }
    pose proof (pow2_pos u) as Hpu0.
    pose proof (round_half_even_error (Qred q / 2 ^ u)) as He.
    set (m := inject_Z (round_half_even (Qred q / 2 ^ u))) in *.
    assert (Herr : Qabs (m * 2 ^ u - q) <= 1 # 32).
    { assert (E : m * 2 ^ u - q == (m - Qred q / 2 ^ u) * 2 ^ u).
      { rewrite (Qred_correct q). field. lra. }
      rewrite E, Qabs_Qmult, (Qabs_pos (2 ^ u)) by lra.
      apply Qle_trans with ((1 # 2) * 2 ^ u).
      - apply Qmult_le_compat_r; [exact He|lra].
      - lra. }
    apply Qabs_Qle_condition in Herr.
    assert (Hbig : 2 ^ 49 <= 2 ^ 1024) by (apply pow2_le; lia).
    apply Qabs_Qlt_condition in Hlt.
    destruct Hc as [[Hr _]|[[_ H]|[_ H]]]; [|exfalso; lra|exfalso; lra].
    exists (Qred (m * 2 ^ u)). split; [exact Hr|].
    rewrite (Qred_correct (m * 2 ^ u)). split; [lra|].
    apply Qfloor_unique; [lra|].
    rewrite inject_Z_plus. change (inject_Z 1) with 1. lra.
Qed.

End RoundingFacts.

(** ** The rounding against the machine's *)

Section MachineFloats.
Import Binary64.
Local Open Scope float_scope.

(** [round] and the operations of [Binary64] against the processor's
    binary64 arithmetic: [0.1], [0.1 + 0.2], [4.1 - 2.1], [0.2 * 0.5],
    [1 / 3], a tie ([2^53 + 1]), a subnormal tie, and an overflow. *)
Example round_tenth : round (1 # 10) = of_machine 0x1.999999999999ap-4.
Proof. vm_compute. reflexivity. Qed.

Example fadd_machine :
  fadd (round (1 # 10)) (round (2 # 10))
  = of_machine (0x1.999999999999ap-4 + 0x1.999999999999ap-3).
Proof. vm_compute. reflexivity. Qed.

Example fsub_machine :
  fsub (round (41 # 10)) (round (21 # 10))
  = of_machine (0x1.0666666666666p+2 - 0x1.0cccccccccccdp+1).
Proof. vm_compute. reflexivity. Qed.

Example fmul_machine :
  fmul (round (2 # 10)) (Finite (1 # 2))
  = of_machine (0x1.999999999999ap-3 * 0x1p-1).
Proof. vm_compute. reflexivity. Qed.

Example fdiv_machine :
  fdiv (Finite 1) (Finite 3) = of_machine (0x1p+0 / 0x1.8p+1).
Proof. vm_compute. reflexivity. Qed.

Example round_tie_machine :
  round (inject_Z (2 ^ 53 + 1)) = of_machine (0x1p+53 + 0x1p+0).
Proof. vm_compute. reflexivity. Qed.

Example round_subnormal_machine :
  fdiv (round (3 * 2 ^ (-1074))) (Finite 2)
  = of_machine (0x1.8p-1073 / 0x1p+1).
Proof. vm_compute. reflexivity. Qed.

Example round_overflow_machine :
  fadd (round (2 ^ 1023)) (round (2 ^ 1023))
  = of_machine (0x1p+1023 + 0x1p+1023).
Proof. vm_compute. reflexivity. Qed.

End MachineFloats.

(** ** The loops of [reconstruct_layout] *)

Section PyLayoutFacts.
Import Binary64 PyNumber PyLayout PyTerms.

Lemma mapM_Ok_each {A B} (f : A -> result B) (l : list A) (bs : list B) :
  mapM f l = Ok bs -> Forall (fun a => exists b, f a = Ok b) l.
Proof.
  revert bs. induction l as [|a l IH]; intros bs H; [constructor|].
  simpl in H. destruct (f a) as [b|] eqn:E; [|discriminate].
  rewrite bind_Ok in H. destruct (mapM f l) as [bs'|] eqn:E'; [|discriminate].
  constructor; eauto.
Qed.

(** A sort that did not raise sorted by the values of the keys. *)
Lemma list_sort_Ok_inv {A} (key : A -> result Q) (l sorted : list A) :
  list_sort key l = Ok sorted ->
  Forall (fun a => exists k, key a = Ok k) l
  /\ sorted = Spec.sort_by (fun a => val (key a)) l.
Proof.
  intros H.
  assert (Hk : Forall (fun a => exists k, key a = Ok k) l).
  { unfold list_sort in H. destruct (mapM key l) as [keys|] eqn:E; [|discriminate].
    eapply mapM_Ok_each; exact E. }
  split; [exact Hk|].
  rewrite (list_sort_Ok (fun a => val (key a)) key l) in H.
  - now injection H.
  - eapply Forall_impl; [|exact Hk]. intros a [k ->]. reflexivity.
Qed.

Lemma list_sort_by_cy lines sorted :
  list_sort_by (fun l => get_cy (bbox l)) lines = Ok sorted ->
  sorted = Spec.sort_by cy_key lines
  /\ Forall (fun f => exists c, get_cy (bbox f) = Ok c) lines.
Proof.
  intros H. apply list_sort_Ok_inv in H as [Hk ->]. split; [reflexivity|].
  eapply Forall_impl; [|exact Hk]. intros f [k Hf]. cbv beta in Hf.
  destruct (get_cy (bbox f)) as [c|]; [eauto|discriminate].
Qed.

Lemma list_sort_by_left row :
  list_sort_by (fun l => Ok (get_x (bbox l))) row
  = Ok (Spec.sort_by left_key row).
Proof.
  unfold list_sort_by. apply list_sort_Ok.
  apply Forall_forall. intros f _. reflexivity.
Qed.

(** One turn of the grouping loop, the current row ending in [prev]. *)
Lemma group_step_same_row rows cur prev box :
  group_step (rows, (cur ++ [prev])%list) box
  = (appended <- same_row prev box ;;
     Ok (if appended
         then (rows, ((cur ++ [prev]) ++ [box])%list)
         else ((rows ++ [(cur ++ [prev])%list])%list, [box]))).
Proof.
  unfold group_step, same_row. rewrite last_item_snoc, bind_Ok.
  destruct (get_h (bbox prev)) as [h|]; [|reflexivity]. rewrite !bind_Ok.
  destruct (get_cy (bbox box)) as [c|]; [|reflexivity]. rewrite !bind_Ok.
  destruct (get_cy (bbox prev)) as [p|]; [|reflexivity]. rewrite !bind_Ok.
  destruct (sub c p) as [d|]; [|reflexivity]. rewrite !bind_Ok.
  destruct (mul h (Float (Finite (1 # 2)))) as [t|]; [|reflexivity].
  rewrite !bind_Ok. now destruct (lt (abs d) t).
Qed.

Lemma chained_snoc row a b :
  chained (row ++ [a]) -> same_row a b = Ok true ->
  chained ((row ++ [a]) ++ [b]).
Proof.
  intros Hc Hab. induction row as [|x row IH].
  - simpl. auto.
  - destruct row as [|y row].
    + simpl in *. destruct Hc as [Hxa _]. auto.
    + simpl in Hc |- *. destruct Hc as [Hxy Hc]. split; [exact Hxy|].
      apply IH. exact Hc.
Qed.

(** The rows closed so far and the current row: [rows ++ [cur]]. *)
Lemma separated_extend rows cur b :
  cur <> [] -> separated (rows ++ [cur]) -> separated (rows ++ [(cur ++ [b])%list]).
Proof.
  intros Hcur. induction rows as [|r rows IH]; intros Hs; [exact I|].
  destruct rows as [|r2 rows].
  - simpl in *. destruct Hs as [Hs _]. split; [|exact I].
    intros x y Hx Hy. apply Hs; trivial.
    destruct cur; [congruence|]. exact Hy.
  - simpl in Hs |- *. destruct Hs as [H1 Hs]. split; [exact H1|].
    apply IH. exact Hs.
Qed.

Lemma separated_snoc rows cur a b :
  separated (rows ++ [(cur ++ [a])%list]) -> same_row a b = Ok false ->
  separated ((rows ++ [(cur ++ [a])%list]) ++ [[b]]).
Proof.
  intros Hs Hab. induction rows as [|r rows IH].
  - simpl. split; [|exact I]. intros x y Hx Hy.
    rewrite last_item_snoc in Hx. injection Hx as <-. injection Hy as <-.
    exact Hab.
  - destruct rows as [|r2 rows].
    + simpl in Hs |- *. destruct Hs as [H1 _]. split; [exact H1|].
      split; [|exact I]. intros x y Hx Hy.
      rewrite last_item_snoc in Hx. injection Hx as <-. injection Hy as <-.
      exact Hab.
    + simpl in Hs |- *. destruct Hs as [H1 Hs]. split; [exact H1|].
      apply IH. exact Hs.
Qed.

Lemma group_step_grouped done st box st' :
  grouped done st -> group_step st box = Ok st' ->
  grouped (done ++ [box]) st'.
Proof.
  destruct st as [rows cur]. intros (Hcur & Hcat & Hne & Hch & Hsep) H.
  simpl in Hcur, Hcat, Hne, Hch, Hsep.
  destruct (exists_last Hcur) as (cur' & prev & ->).
  rewrite group_step_same_row in H.
  destruct (same_row prev box) as [[|]|] eqn:E; [| |discriminate];
    rewrite bind_Ok in H; injection H as <-; unfold grouped; simpl.
  - split; [now destruct (cur' ++ [prev])%list|].
    split; [now rewrite <- Hcat, !app_assoc|].
    split; [exact Hne|].
    apply Forall_app in Hch as [Hrows Hlast]. apply Forall_inv in Hlast.
    split.
    + apply Forall_app. split; [exact Hrows|].
      constructor; [|constructor]. now apply chained_snoc.
    + apply separated_extend; [now destruct cur'|exact Hsep].
  - split; [discriminate|].
    split; [now rewrite concat_app, <- Hcat; simpl; rewrite app_nil_r|].
    split; [apply Forall_app; split; [exact Hne|]; constructor;
            [now destruct cur'|constructor]|].
    split.
    + apply Forall_app. split; [exact Hch|]. now repeat constructor.
    + now apply separated_snoc.
Qed.

Lemma foldM_grouped : forall rest done st st',
  grouped done st -> foldM group_step rest st = Ok st' ->
  grouped (done ++ rest) st'.
Proof.
  induction rest as [|box rest IH]; intros done st st' Hg H.
  - injection H as <-. now rewrite app_nil_r.
  - rewrite foldM_cons in H.
    destruct (group_step st box) as [st1|] eqn:E; [|discriminate].
    rewrite bind_Ok in H.
    replace (done ++ box :: rest)%list with ((done ++ [box]) ++ rest)%list
      by now rewrite <- app_assoc.
    eapply IH; [|exact H]. eapply group_step_grouped; eassumption.
Qed.

(** The rows of the grouping loop: the list cut where the row test fails. *)
Lemma group_rows_Ok lines rows :
  group_rows lines = Ok rows ->
  concat rows = lines
  /\ Forall (fun row => row <> []) rows
  /\ Forall chained rows
  /\ separated rows.
Proof.
  destruct lines as [|first rest]; simpl; intros H.
  { injection H as <-. repeat split; constructor. }
  destruct (foldM group_step rest ([], [first])) as [[rs cur]|] eqn:E;
    [|discriminate].
  rewrite bind_Ok in H.
  assert (Hg : grouped ([first] ++ rest) (rs, cur)).
  { eapply foldM_grouped; [|exact E].
    unfold grouped. simpl. repeat split; try discriminate; repeat constructor. }
  destruct Hg as (Hcur & Hcat & Hne & Hch & Hsep). simpl in *.
  destruct cur as [|c cur]; [congruence|]. injection H as <-.
  split; [now rewrite concat_app; simpl; rewrite app_nil_r|].
  split; [apply Forall_app; split; [exact Hne|]; now repeat constructor|].
  split; assumption.
Qed.

(** One turn of the loop over a row. *)
Lemma line_step_spaces line_text last_x_end item :
  line_step (line_text, last_x_end) item
  = (pad <- (if lt (Int 0) last_x_end
             then n <- gap_spaces last_x_end (get_x (bbox item)) ;;
                  str_times " " n
             else Ok "") ;;
     e <- get_x_end (bbox item) ;;
     Ok ((line_text ++ pad) ++ text item, e)).
Proof.
  unfold line_step, gap_spaces.
  destruct (lt (Int 0) last_x_end).
  - destruct (sub (get_x (bbox item)) last_x_end) as [d|]; [|reflexivity].
    rewrite !bind_Ok.
    destruct (div_int (max2 (Int 0) d) 10) as [q|]; [|reflexivity].
    rewrite !bind_Ok.
    destruct (int q) as [n|]; [|reflexivity]. rewrite !bind_Ok.
    destruct (str_times " " n) as [pad|]; reflexivity.
  - rewrite !bind_Ok. now rewrite append_nil_r.
Qed.

(** What [reconstruct_layout] went through when it returned. *)
Lemma reconstruct_layout_Ok lines s :
  snd (reconstruct_layout lines) = Ok s ->
  exists rows output_lines,
    fst (reconstruct_layout lines) = Spec.sort_by cy_key lines
    /\ group_rows (Spec.sort_by cy_key lines) = Ok rows
    /\ mapM build_line rows = Ok output_lines
    /\ s = join newline output_lines.
Proof.
  destruct lines as [|f lines].
  { simpl. intros [= <-]. exists [], []. repeat split. }
  unfold reconstruct_layout.
  destruct (list_sort_by _ (f :: lines)) as [sorted|] eqn:E; [|discriminate].
  apply list_sort_by_cy in E as [-> _]. simpl fst. simpl snd.
  destruct (group_rows _) as [rows|] eqn:Er; [|discriminate]. rewrite bind_Ok.
  destruct (mapM build_line rows) as [outs|] eqn:Eo; [|discriminate].
  rewrite bind_Ok.
  intros [= <-]. exists rows, outs. auto.
Qed.

End PyLayoutFacts.

(** ** Boxes of small integers *)

Section ExactBoxes.
Import Exact.

Lemma exact_fragment_bbox (f : PyLayout.fragment) :
  bbox (exact_fragment f) = exact_box (PyLayout.bbox f).
Proof. reflexivity. Qed.

Lemma exact_fragment_text (f : PyLayout.fragment) :
  text (exact_fragment f) = PyLayout.text f.
Proof. reflexivity. Qed.

End ExactBoxes.

Section ExactFacts.
Import Binary64 PyNumber PyLayout PyTerms Exact.

Lemma Qltb_inject_Z (a b : Z) : Qltb (inject_Z a) (inject_Z b) = (a <? b)%Z.
Proof. unfold Qltb. simpl. now rewrite !Z.mul_1_r. Qed.

Lemma lt_Int (a b : Z) : lt (Int a) (Int b) = (a <? b)%Z.
Proof. apply Qltb_inject_Z. Qed.

Lemma round_small (q : Q) (z k : Z) :
  q == inject_Z z * 2 ^ (- k) ->
  (Z.abs z < 2 ^ 53)%Z -> (0 <= k <= 2)%Z ->
  round q = Finite (Qred q).
Proof. intros E Hz Hk. apply (round_dyadic z k q E Hz). lia. Qed.

Lemma to_float_small (z : Z) :
  (Z.abs z < 2 ^ 53)%Z -> to_float (Int z) = Ok (Finite (Qred (inject_Z z))).
Proof.
  intros Hz. unfold to_float.
  rewrite (round_small (inject_Z z) z 0); [reflexivity| |exact Hz|lia].
  change (2 ^ (- 0)) with 1. ring.
Qed.

(** Sums, least and greatest elements of lists of [int]s. *)
Lemma sum_ints (zs : list Z) : forall acc,
  foldM add (map Int zs) (Int acc) = Ok (Int (fold_left Z.add zs acc))
  /\ fold_left Qplus (map inject_Z zs) (inject_Z acc)
     == inject_Z (fold_left Z.add zs acc).
Proof.
  induction zs as [|z zs IH]; intros acc; [split; reflexivity|].
  simpl. destruct (IH (acc + z)%Z) as [H1 H2]. split; [exact H1|].
  rewrite <- H2. clear.
  assert (E : forall l a b, a == b ->
                fold_left Qplus l a == fold_left Qplus l b).
  { induction l as [|x l IHl]; intros a b Hab; simpl; [exact Hab|].
    apply IHl. now rewrite Hab. }
  apply E. now rewrite inject_Z_plus.
Qed.

Lemma max_ints (zs : list Z) : forall a,
  max_of (Int a) (map Int zs) = Int (fold_left Z.max zs a)
  /\ fold_left (fun m v => if Qltb m v then v else m) (map inject_Z zs)
               (inject_Z a)
     = inject_Z (fold_left Z.max zs a).
Proof.
  induction zs as [|z zs IH]; intros a; [split; reflexivity|].
  unfold max_of in *. simpl. rewrite lt_Int, Qltb_inject_Z.
  destruct (Z.ltb_spec a z) as [H|H].
  - replace (Z.max a z) with z by lia. apply IH.
  - replace (Z.max a z) with a by lia. apply IH.
Qed.

Lemma min_ints (zs : list Z) : forall a,
  min_of (Int a) (map Int zs) = Int (fold_left Z.min zs a)
  /\ fold_left (fun m v => if Qltb v m then v else m) (map inject_Z zs)
               (inject_Z a)
     = inject_Z (fold_left Z.min zs a).
Proof.
  induction zs as [|z zs IH]; intros a; [split; reflexivity|].
  unfold min_of in *. simpl. rewrite lt_Int, Qltb_inject_Z.
  destruct (Z.ltb_spec z a) as [H|H].
  - replace (Z.min a z) with z by lia. apply IH.
  - replace (Z.min a z) with a by lia. apply IH.
Qed.

Lemma fold_max_bound (B : Z) (zs : list Z) : forall a,
  (Z.abs a < B)%Z -> Forall (fun z => (Z.abs z < B)%Z) zs ->
  (Z.abs (fold_left Z.max zs a) < B)%Z.
Proof.
  induction zs as [|z zs IH]; intros a Ha Hz; [exact Ha|].
  apply Forall_cons_iff in Hz as [Hz Hzs]. simpl. apply IH; [lia|exact Hzs].
Qed.

Lemma fold_min_bound (B : Z) (zs : list Z) : forall a,
  (Z.abs a < B)%Z -> Forall (fun z => (Z.abs z < B)%Z) zs ->
  (Z.abs (fold_left Z.min zs a) < B)%Z.
Proof.
  induction zs as [|z zs IH]; intros a Ha Hz; [exact Ha|].
  apply Forall_cons_iff in Hz as [Hz Hzs]. simpl. apply IH; [lia|exact Hzs].
Qed.

Lemma fold_min_le_max (zs : list Z) : forall a b,
  (a <= b)%Z -> (fold_left Z.min zs a <= fold_left Z.max zs b)%Z.
Proof.
  induction zs as [|z zs IH]; intros a b H; [exact H|]. simpl. apply IH. lia.
Qed.

(** The coordinates of points that are small [int]s. *)
Lemma small_int_coordinates (B : Z) (cs : list coordinate) :
  Forall (small_int B) cs ->
  exists zs,
    map num cs = map Int zs /\ map value cs = map inject_Z zs
    /\ Forall (fun z => (Z.abs z < B)%Z) zs.
Proof.
  induction 1 as [|c cs Hc _ (zs & E1 & E2 & Hz)].
  - exists []. repeat split; constructor.
  - destruct c as [z|q]; [|destruct Hc].
    exists (z :: zs). simpl. rewrite E1, E2. repeat split. now constructor.
Qed.


Lemma small_int_points (B : Z) (pts : list point) :
  Forall (fun p => small_int B (fst p) /\ small_int B (snd p)) pts ->
  (exists xs,
     map (fun p => num (fst p)) pts = map Int xs
     /\ map fst (map exact_point pts) = map inject_Z xs
     /\ Forall (fun z => (Z.abs z < B)%Z) xs)
  /\ (exists ys,
        map (fun p => num (snd p)) pts = map Int ys
        /\ map snd (map exact_point pts) = map inject_Z ys
        /\ Forall (fun z => (Z.abs z < B)%Z) ys).
Proof.
  intros H. split.
  - destruct (small_int_coordinates B (map fst pts)) as (zs & E1 & E2 & Hz).
    { rewrite Forall_map. eapply Forall_impl; [|exact H]. now intros p [Hp _]. }
    exists zs. rewrite map_map in E1, E2. rewrite map_map. auto.
  - destruct (small_int_coordinates B (map snd pts)) as (zs & E1 & E2 & Hz).
    { rewrite Forall_map. eapply Forall_impl; [|exact H]. now intros p [_ Hp]. }
    exists zs. rewrite map_map in E1, E2. rewrite map_map. auto.
Qed.

(** The geometry of a box of small [int]s: the code computes the exact
    values. *)
Lemma small_int_geometry (b : box) :
  small_int_box (2 ^ 48) b ->
  let e := exact_box b in
  (exists c4,
     get_cy b = Ok (Float (Finite (Qred (val (Layout.get_cy e)))))
     /\ val (Layout.get_cy e) == inject_Z c4 * 2 ^ (- 2)
     /\ (Z.abs c4 < 2 ^ 51)%Z)
  /\ (exists hz,
        get_h b = Ok (Int hz) /\ val (Layout.get_h e) == inject_Z hz
        /\ (Z.abs hz < 2 ^ 49)%Z)
  /\ (exists xz,
        get_x b = Int xz /\ val (Layout.get_x e) == inject_Z xz
        /\ (Z.abs xz < 2 ^ 48)%Z)
  /\ (exists ez,
        get_x_end b = Ok (Int ez) /\ val (Layout.get_x_end e) == inject_Z ez
        /\ (Z.abs ez < 2 ^ 49)%Z).
Proof.
  destruct b as [x y w h|p ps]; unfold small_int_box.
  - intros (Hx & Hy & Hw & Hh).
    destruct x as [x|]; [|destruct Hx]. destruct y as [y|]; [|destruct Hy].
    destruct w as [w|]; [|destruct Hw]. destruct h as [h|]; [|destruct Hh].
    cbn [small_int] in Hx, Hy, Hw, Hh.
    cbn [exact_box value get_cy get_h get_x get_x_end num val
         Layout.get_cy Layout.get_h Layout.get_x Layout.get_x_end].
    split; [|split; [|split]].
    + exists (4 * y + 2 * h)%Z.
      assert (Eh : inject_Z h / inject_Z 2 == inject_Z h * 2 ^ (- 1)).
      { change (2 ^ (- 1)) with (1 # 2). change (inject_Z 2) with 2. field. }
      unfold div_int.
      rewrite (round_small _ h 1 Eh) by lia.
      rewrite bind_Ok. unfold add. rewrite to_float_small by lia.
      rewrite bind_Ok. cbn [to_float]. rewrite bind_Ok. unfold fadd.
      assert (Es : Qred (inject_Z y) + Qred (inject_Z h / inject_Z 2)
                   == inject_Z (2 * y + h) * 2 ^ (- 1)).
      { rewrite !Qred_correct, Eh, inject_Z_plus, inject_Z_mult.
        change (2 ^ (- 1)) with (1 # 2). change (inject_Z 2) with 2. ring. }
      rewrite (round_small _ (2 * y + h) 1 Es) by lia.
      split; [|split; [|lia]].
      * do 3 f_equal. apply Qred_complete.
        rewrite !Qred_correct. change (inject_Z 2) with 2. reflexivity.
      * rewrite inject_Z_plus, !inject_Z_mult.
        change (2 ^ (- 2)) with (1 # 4). change (inject_Z 2) with 2.
        change (inject_Z 4) with 4. field.
    + exists h. split; [reflexivity|split; [reflexivity|lia]].
    + exists x. split; [reflexivity|split; [reflexivity|lia]].
    + exists (x + w)%Z.
      split; [reflexivity|split; [now rewrite inject_Z_plus|lia]].
  - intros [Hlen Hpts].
    destruct (small_int_points _ (p :: ps) Hpts)
      as [(xs & X1 & X2 & HX) (ys & Y1 & Y2 & HY)].
    destruct xs as [|x1 xs]; [discriminate X1|].
    destruct ys as [|y1 ys]; [discriminate Y1|].
    cbn [map] in X1, X2, Y1, Y2.
    injection X1 as X1 X1'. injection X2 as X2 X2'.
    injection Y1 as Y1 Y1'. injection Y2 as Y2 Y2'.
    apply Forall_cons_iff in HX as [HX HXs].
    apply Forall_cons_iff in HY as [HY HYs].
    cbn [exact_box get_cy get_h get_x get_x_end
         Layout.get_cy Layout.get_h Layout.get_x Layout.get_x_end map].
    change (fst (exact_point p)) with (value (fst p)).
    change (snd (exact_point p)) with (value (snd p)).
    rewrite X1, X1', Y1, Y1', X2, X2', Y2, Y2'.
    destruct (max_ints xs x1) as [Mx1 Mx2]. destruct (min_ints xs x1) as [mx1 mx2].
    destruct (max_ints ys y1) as [My1 My2]. destruct (min_ints ys y1) as [my1 my2].
    pose proof (fold_max_bound _ xs x1 HX HXs) as BMx.
    pose proof (fold_min_bound _ xs x1 HX HXs) as Bmx.
    pose proof (fold_max_bound _ ys y1 HY HYs) as BMy.
    pose proof (fold_min_bound _ ys y1 HY HYs) as Bmy.
    split; [|split; [|split]].
    + assert (Hl : List.length ys = 3%nat).
      { rewrite <- Hlen, <- (length_map Int ys), <- Y1'. now rewrite length_map. }
      destruct ys as [|y2 [|y3 [|y4 [|? ?]]]]; try discriminate Hl.
      apply Forall_cons_iff in HYs as [HY2 HYs].
      apply Forall_cons_iff in HYs as [HY3 HYs].
      apply Forall_cons_iff in HYs as [HY4 _].
      exists (0 + y1 + y2 + y3 + y4)%Z.
      rewrite Hlen.
      destruct (sum_ints [y1; y2; y3; y4] 0) as [S1 S2].
      cbn [fold_left map] in S1, S2.
      unfold sum. cbn [map]. rewrite S1, bind_Ok.
      rewrite py_div_Ok by apply py_len_cons. cbn [val].
      unfold py_sum, py_len. cbn [List.length map].
      change (inject_Z (Z.of_nat 4)) with 4.
      change (Pos.of_succ_nat 3) with 4%positive.
      assert (Eq : inject_Z (0 + y1 + y2 + y3 + y4) / inject_Z 4
                   == inject_Z (0 + y1 + y2 + y3 + y4) * 2 ^ (- 2)).
      { change (2 ^ (- 2)) with (1 # 4). change (inject_Z 4) with 4. field. }
      unfold div_int. rewrite (round_small _ _ 2 Eq) by lia.
      split; [|split; [|lia]].
      * do 3 f_equal. apply Qred_complete.
        change (inject_Z 4) with 4. now rewrite <- S2.
      * change (inject_Z 0) with 0 in S2. rewrite S2.
        change (2 ^ (- 2)) with (1 # 4). field.
    + exists (fold_left Z.max ys y1 - fold_left Z.min ys y1)%Z.
      rewrite My1, my1. split; [reflexivity|].
      unfold py_max, py_min. rewrite My2, my2, !bind_Ok. cbn [val].
      split; [unfold Z.sub; now rewrite inject_Z_plus, inject_Z_opp|lia].
    + exists (fold_left Z.min xs x1). rewrite mx1. split; [reflexivity|].
      unfold py_min. rewrite mx2. cbn [val]. split; [reflexivity|lia].
    + exists (fold_left Z.max xs x1). rewrite Mx1. split; [reflexivity|].
      unfold py_max. rewrite Mx2. cbn [val]. split; [reflexivity|lia].
Qed.

(** On boxes of small [int]s the row test is the exact one. *)
Lemma same_row_exact (prev cur : fragment) :
  small_int_box (2 ^ 48) (bbox prev) -> small_int_box (2 ^ 48) (bbox cur) ->
  same_row prev cur
  = Ok (Spec.closeb (exact_fragment prev) (exact_fragment cur)).
Proof.
  intros Hp Hc.
  destruct (small_int_geometry _ Hp)
    as ((p4 & Ep & Vp & Bp) & (hz & Eh & Vh & Bh) & _).
  destruct (small_int_geometry _ Hc) as ((c4 & Ec & Vc & Bc) & _).
  cbv zeta in *.
  unfold same_row, Spec.closeb, Spec.cy, Spec.height.
  rewrite !exact_fragment_bbox.
  set (cp := val (Layout.get_cy (exact_box (bbox prev)))) in *.
  set (cc := val (Layout.get_cy (exact_box (bbox cur)))) in *.
  set (hh := val (Layout.get_h (exact_box (bbox prev)))) in *.
  rewrite Eh, Ec, Ep, !bind_Ok.
  unfold sub. cbn [to_float]. rewrite !bind_Ok.
  unfold fsub, fopp, fadd.
  assert (Ed : Qred cc + - Qred cp == inject_Z (c4 - p4) * 2 ^ (- 2)).
  { rewrite !Qred_correct, Vc, Vp. unfold Z.sub.
    rewrite inject_Z_plus, inject_Z_opp. ring. }
  rewrite (round_small _ _ 2 Ed) by lia.
  unfold mul. rewrite to_float_small by lia. cbn [to_float].
  rewrite !bind_Ok. unfold fmul.
  assert (Et : Qred (inject_Z hz) * (1 # 2) == inject_Z hz * 2 ^ (- 1)).
  { rewrite Qred_correct. reflexivity. }
  rewrite (round_small _ _ 1 Et) by lia.
  f_equal. unfold lt, abs, exact, fabs, flt.
  apply Qltb_Proper.
  - rewrite !Qred_correct. reflexivity.
  - rewrite !Qred_correct, Vh. reflexivity.
Qed.

Lemma Qfloor_div (n : Z) (d : positive) :
  Qfloor (inject_Z n / inject_Z (Z.pos d)) = (n / Z.pos d)%Z.
Proof.
  assert (E : inject_Z n / inject_Z (Z.pos d) == n # d).
  { symmetry. apply Qmake_Qdiv. }
  rewrite (Qfloor_comp _ _ E). reflexivity.
Qed.

(** Between two [int] edges the number of spaces is the number of whole
    tens in the gap. *)
Lemma gap_spaces_ints (last_x_end x_start : Z) :
  (Z.abs (x_start - last_x_end) < 2 ^ 52)%Z ->
  gap_spaces (Int last_x_end) (Int x_start)
  = Ok (Z.max 0 (x_start - last_x_end) / 10)%Z.
Proof.
  intros Hb. unfold gap_spaces, sub. rewrite bind_Ok.
  set (g := (x_start - last_x_end)%Z) in *.
  assert (Em : max2 (Int 0) (Int g) = Int (Z.max 0 g)).
  { unfold max2. rewrite lt_Int.
    destruct (Z.ltb_spec 0 g); f_equal; lia. }
  rewrite Em. unfold div_int.
  destruct (round_div10 (Z.max 0 g)) as (r & Er & Hr & Hf); [lia|].
  rewrite Er, bind_Ok. cbn [int]. f_equal.
  now rewrite py_int_floor.
Qed.

Lemma gap_spaces_exact (last_x_end x_start : Z) :
  Spec.gap_spaces (inject_Z last_x_end) (inject_Z x_start)
  = (Z.max 0 (x_start - last_x_end) / 10)%Z.
Proof.
  unfold Spec.gap_spaces.
  assert (E : Qmax 0 (inject_Z x_start - inject_Z last_x_end) / 10
              == inject_Z (Z.max 0 (x_start - last_x_end)) / inject_Z 10).
  { apply Qdiv_comp; [|reflexivity].
    assert (Eg : inject_Z x_start - inject_Z last_x_end
                 == inject_Z (x_start - last_x_end)).
    { unfold Z.sub. now rewrite inject_Z_plus, inject_Z_opp. }
    rewrite Eg. change 0 with (inject_Z 0).
    destruct (Z.le_ge_cases 0 (x_start - last_x_end)) as [H|H].
    - rewrite Z.max_r by exact H. apply Q.max_r. now rewrite <- Zle_Qle.
    - rewrite Z.max_l by lia. apply Q.max_l. rewrite <- Zle_Qle. lia. }
  rewrite (Qfloor_comp _ _ E). apply Qfloor_div.
Qed.

End ExactFacts.

(** ** The two layouts agree on boxes of small integers *)

Section SortMap.
Import Spec.
Context {A B : Type} (g : A -> B) (k1 : A -> Q) (k2 : B -> Q).

Lemma with_key_map (c : Q) (l : list A) :
  Forall (fun a => k1 a == k2 (g a)) l ->
  with_key k2 c (map g l) = map g (with_key k1 c l).
Proof.
  induction 1 as [|a l Ha _ IH]; [reflexivity|].
  unfold with_key in *. simpl. rewrite IH.
  assert (E : Qeq_bool (k2 (g a)) c = Qeq_bool (k1 a) c).
  { destruct (Qeq_bool (k1 a) c) eqn:E1.
    - apply Qeq_bool_iff. apply Qeq_bool_iff in E1. now rewrite <- Ha.
    - destruct (Qeq_bool (k2 (g a)) c) eqn:E2; [|reflexivity].
      apply Qeq_bool_iff in E2. rewrite <- Ha in E2.
      apply Qeq_bool_iff in E2. congruence. }
  rewrite E. now destruct (Qeq_bool (k1 a) c).
Qed.

Lemma ascending_map (l : list A) :
  Forall (fun a => k1 a == k2 (g a)) l ->
  ascending k1 l -> ascending k2 (map g l).
Proof.
  unfold ascending. intros Hk Hs. induction Hs as [|a l Hs IH Ha]; simpl.
  - constructor.
  - inversion Hk as [|? ? Ka Kl]; subst. constructor; [now apply IH|].
    apply Forall_forall. intros b Hb. apply in_map_iff in Hb as (a' & <- & Ha').
    rewrite Forall_forall in Ha, Kl.
    rewrite <- Ka, <- (Kl a' Ha'). now apply Ha.
Qed.

Lemma sort_by_map (l : list A) :
  Forall (fun a => k1 a == k2 (g a)) l ->
  map g (sort_by k1 l) = sort_by k2 (map g l).
Proof.
  intros Hk.
  assert (Hs : Forall (fun a => k1 a == k2 (g a)) (sort_by k1 l)).
  { rewrite Forall_forall in *. intros a Ha. apply Hk.
    eapply Permutation_in; [|exact Ha]. apply Permutation_sym, sort_by_perm. }
  apply sort_by_unique.
  - apply ascending_map; [exact Hs|apply sort_by_ascending].
  - intros c. rewrite (with_key_map c _ Hs), (with_key_map c _ Hk).
    now rewrite sort_by_stable.
Qed.

End SortMap.

Lemma line_after_comp (row : list fragment) (q q' : Q) :
  q == q' -> Spec.line_after q row = Spec.line_after q' row.
Proof.
  intros E. destruct row as [|item rest]; [reflexivity|].
  cbn [Spec.line_after]. rewrite (Qltb_Proper 0 0 (Qeq_refl 0) _ _ E).
  unfold Spec.gap_spaces.
  assert (G : Qmax 0 (Spec.left_x item - q) / 10
              == Qmax 0 (Spec.left_x item - q') / 10) by now rewrite E.
  now rewrite (Qfloor_comp _ _ G).
Qed.

Section Agreement.
Import Binary64 PyNumber PyLayout PyTerms Exact.

Lemma cy_key_exact (f : fragment) :
  small_ints f ->
  get_cy (bbox f) = Ok (Float (Finite (cy_key f)))
  /\ cy_key f == Spec.cy (exact_fragment f).
Proof.
  intros Hf.
  destruct (small_int_geometry _ Hf) as ((c4 & Ec & _) & _).
  cbv zeta in Ec. unfold cy_key, Spec.cy.
  rewrite exact_fragment_bbox, Ec, bind_Ok.
  split; [reflexivity|]. apply Qred_correct.
Qed.

Lemma left_key_exact (f : fragment) :
  small_ints f -> left_key f == Spec.left_x (exact_fragment f).
Proof.
  intros Hf.
  destruct (small_int_geometry _ Hf) as (_ & _ & (xz & Ex & Vx & _) & _).
  cbv zeta in Vx. unfold left_key, Spec.left_x.
  rewrite exact_fragment_bbox, Ex, Vx. reflexivity.
Qed.

Lemma foldM_group_step_exact rest : forall rows cur prev,
  small_ints prev -> Forall small_ints rest ->
  exists rows' cur',
    foldM group_step rest (rows, (cur ++ [prev])%list) = Ok (rows', cur')
    /\ foldM Layout.group_step (map exact_fragment rest)
         (map (map exact_fragment) rows, map exact_fragment (cur ++ [prev]))
       = Ok (map (map exact_fragment) rows', map exact_fragment cur')
    /\ cur' <> [].
Proof.
  induction rest as [|box rest IH]; intros rows cur prev Hp Hr.
  - exists rows, (cur ++ [prev])%list. simpl.
    split; [reflexivity|]. split; [reflexivity|]. now destruct cur.
  - inversion Hr as [|? ? Hb Hr']; subst.
    rewrite foldM_cons, group_step_same_row, (same_row_exact _ _ Hp Hb), !bind_Ok.
    cbn [map]. rewrite foldM_cons, map_app. cbn [map].
    rewrite group_step_spec, bind_Ok.
    destruct (Spec.closeb (exact_fragment prev) (exact_fragment box)).
    + destruct (IH rows (cur ++ [prev])%list box Hb Hr') as (rows' & cur' & E1 & E2 & Hne).
      exists rows', cur'. split; [exact E1|]. split; [|exact Hne].
      rewrite <- E2. now rewrite !map_app.
    + destruct (IH (rows ++ [(cur ++ [prev])%list])%list [] box Hb Hr')
        as (rows' & cur' & E1 & E2 & Hne).
      exists rows', cur'. split; [exact E1|]. split; [|exact Hne].
      rewrite <- E2. cbn [app]. rewrite !map_app. cbn [map].
      now rewrite !map_app.
Qed.

Lemma group_rows_exact lines :
  Forall small_ints lines ->
  exists rows,
    group_rows lines = Ok rows
    /\ map (map exact_fragment) rows = Spec.split_rows (map exact_fragment lines).
Proof.
  intros Hs. destruct lines as [|first rest].
  - exists []. split; reflexivity.
  - inversion Hs as [|? ? Hf Hr]; subst.
    destruct (foldM_group_step_exact rest [] [] first Hf Hr)
      as (rows' & cur' & E1 & E2 & Hne).
    pose proof (group_rows_split (map exact_fragment (first :: rest))) as G.
    unfold group_rows. cbn [app] in E1. rewrite E1, bind_Ok.
    set (R := Spec.split_rows (map exact_fragment (first :: rest))) in *.
    unfold Layout.group_rows in G. cbn [map app] in G, E2.
    rewrite E2, bind_Ok in G.
    destruct cur' as [|c cur']; [contradiction|].
    exists (rows' ++ [c :: cur'])%list. split; [reflexivity|].
    cbn [map] in G. rewrite map_app. cbn [map]. congruence.
Qed.

Lemma str_times_small (s : string) (n : Z) :
  (n < 2 ^ 63)%Z -> str_times s n = Ok (str_mul s n).
Proof.
  intros H. unfold str_times.
  destruct (Z.ltb_spec (2 ^ 63 - 1) n); [lia|reflexivity].
Qed.

Lemma foldM_line_step_exact row : forall line_text ez q,
  Forall small_ints row -> (Z.abs ez < 2 ^ 49)%Z -> q == inject_Z ez ->
  exists e,
    foldM line_step row (line_text, Int ez)
    = Ok (line_text ++ Spec.line_after q (map exact_fragment row), e).
Proof.
  induction row as [|item row IH]; intros line_text ez q Hs Hz Hq.
  - exists (Int ez). simpl. now rewrite append_nil_r.
  - inversion Hs as [|? ? Hi Hr]; subst.
    destruct (small_int_geometry _ Hi)
      as (_ & _ & (xz & Ex & Vx & Bx) & (rz & Er & Vr & Br)).
    cbv zeta in Vx, Vr.
    rewrite foldM_cons, line_step_spaces, Ex, Er, lt_Int.
    assert (Ep : (if (0 <? ez)%Z
                  then n <- gap_spaces (Int ez) (Int xz) ;; str_times " " n
                  else Ok "")
                 = Ok (if Qltb 0 q
                       then Spec.spaces
                              (Spec.gap_spaces q
                                 (Spec.left_x (exact_fragment item)))
                       else "")).
    { rewrite (Qltb_Proper 0 0 (Qeq_refl 0) _ _ Hq).
      change 0 with (inject_Z 0). rewrite Qltb_inject_Z.
      destruct (0 <? ez)%Z; [|reflexivity].
      rewrite gap_spaces_ints, bind_Ok by lia.
      assert (Hn : (Z.max 0 (xz - ez) / 10 < 2 ^ 63)%Z).
      { apply Z.div_lt_upper_bound; lia. }
      rewrite (str_times_small _ _ Hn). unfold Spec.spaces. do 2 f_equal.
      rewrite <- gap_spaces_exact. unfold Spec.gap_spaces, Spec.left_x.
      rewrite exact_fragment_bbox. apply Qfloor_comp.
      now rewrite Vx, Hq. }
    rewrite Ep, !bind_Ok.
    destruct (IH ((line_text
                   ++ (if Qltb 0 q
                       then Spec.spaces
                              (Spec.gap_spaces q
                                 (Spec.left_x (exact_fragment item)))
                       else "")) ++ text item) rz
                 (Spec.right_x (exact_fragment item)) Hr Br) as (e & Ee).
    { unfold Spec.right_x. now rewrite exact_fragment_bbox. }
    exists e. rewrite Ee. f_equal. f_equal.
    cbn [map Spec.line_after]. rewrite exact_fragment_text.
    now rewrite !append_assoc.
Qed.

Lemma build_line_exact (row : list fragment) :
  Forall small_ints row ->
  build_line row = Layout.build_line (map exact_fragment row).
Proof.
  intros Hs. rewrite build_line_spec. unfold build_line.
  rewrite list_sort_by_left, bind_Ok.
  assert (Hs' : Forall small_ints (Spec.sort_by left_key row)).
  { rewrite Forall_forall in *. intros f Hf. apply Hs.
    eapply Permutation_in; [|exact Hf]. apply Permutation_sym, sort_by_perm. }
  destruct (foldM_line_step_exact _ "" 0%Z 0 Hs') as (e & Ee);
    [simpl; lia|reflexivity|].
  rewrite Ee, bind_Ok. cbn [fst append].
  rewrite line_after_0. do 2 f_equal.
  apply sort_by_map. rewrite Forall_forall in *.
  intros f Hf. now apply left_key_exact, Hs.
Qed.

(** On boxes of [int]s below [2^48] in absolute value, the code on Python's
    numbers and the code on exact rationals are the same function. *)
Lemma reconstruct_layout_small_ints (lines : list fragment) :
  Forall small_ints lines ->
  snd (reconstruct_layout lines)
  = snd (Layout.reconstruct_layout (map exact_fragment lines))
  /\ map exact_fragment (fst (reconstruct_layout lines))
     = fst (Layout.reconstruct_layout (map exact_fragment lines)).
Proof.
  intros Hs. rewrite reconstruct_layout_spec. cbn [fst snd].
  destruct lines as [|f lines]; [split; reflexivity|].
  remember (f :: lines) as L eqn:EL.
  assert (Esort : list_sort_by (fun l => get_cy (bbox l)) L
                  = Ok (Spec.sort_by cy_key L)).
  { unfold list_sort_by. apply list_sort_Ok.
    rewrite Forall_forall in *. intros a Ha.
    destruct (cy_key_exact a (Hs a Ha)) as (E & _). now rewrite E. }
  assert (Emap : map exact_fragment (Spec.sort_by cy_key L)
                 = Spec.sort_by Spec.cy (map exact_fragment L)).
  { apply sort_by_map. rewrite Forall_forall in *.
    intros a Ha. now apply cy_key_exact, Hs. }
  assert (Hs' : Forall small_ints (Spec.sort_by cy_key L)).
  { rewrite Forall_forall in *. intros a Ha. apply Hs.
    eapply Permutation_in; [|exact Ha]. apply Permutation_sym, sort_by_perm. }
  destruct (group_rows_exact _ Hs') as (rows & Eg & Er).
  destruct (group_rows_Ok _ _ Eg) as (Ec & _).
  assert (Hrows : Forall (Forall small_ints) rows).
  { rewrite <- Ec in Hs'. clear - Hs'. induction rows as [|r rows IH].
    - constructor.
    - cbn [concat] in Hs'. apply Forall_app in Hs' as (H1 & H2).
      constructor; auto. }
  assert (Ecode : reconstruct_layout L
                  = (Spec.sort_by cy_key L,
                     rows <- group_rows (Spec.sort_by cy_key L) ;;
                     output_lines <- mapM build_line rows ;;
                     Ok (join newline output_lines))).
  { subst L. unfold reconstruct_layout. now rewrite Esort. }
  rewrite Ecode. cbn [fst snd]. split; [|exact Emap].
  rewrite Eg, bind_Ok, <- Emap, <- Er.
  rewrite (mapM_Ok _ (fun row => Spec.line_of
                        (Spec.sort_by Spec.left_x (map exact_fragment row)))).
  - rewrite bind_Ok, map_map. reflexivity.
  - rewrite Forall_forall in *. intros row Hrow.
    rewrite (build_line_exact row (Hrows row Hrow)). apply build_line_spec.
Qed.

End Agreement.

(** ** What the layout can raise *)

Section Raises.
Import Binary64 PyNumber PyLayout PyTerms.

Lemma bind_Err {A B} (m : result A) (k : A -> result B) (e : exn) :
  (x <- m ;; k x) = Err e ->
  m = Err e \/ exists a, m = Ok a /\ k a = Err e.
Proof.
  destruct m as [a|e']; simpl; intros H; [right; eauto|left].
  now injection H as ->.
Qed.

Lemma mapM_Err {A B} (f : A -> result B) (l : list A) (e : exn) :
  mapM f l = Err e -> exists a, In a l /\ f a = Err e.
Proof.
  induction l as [|a l IH]; simpl; [discriminate|].
  intros H. apply bind_Err in H as [H|(b & Eb & H)].
  - exists a. auto.
  - apply bind_Err in H as [H|(bs & _ & H)]; [|discriminate].
    destruct (IH H) as (a' & Ha & Ea). exists a'. auto.
Qed.

(** A loop raises what its body raises. *)
Lemma foldM_Err {S A} (body : S -> A -> result S) (I : S -> Prop)
  (P : exn -> Prop) :
  (forall s a s', I s -> body s a = Ok s' -> I s') ->
  (forall s a e, I s -> body s a = Err e -> P e) ->
  forall l s e, I s -> foldM body l s = Err e -> P e.
Proof.
  intros Hstep Herr. induction l as [|a l IH]; intros s e Hs H; simpl in H.
  - discriminate.
  - apply bind_Err in H as [H|(s' & Es & H)].
    + exact (Herr _ _ _ Hs H).
    + exact (IH _ _ (Hstep _ _ _ Hs Es) H).
Qed.

Lemma foldM_Ok_inv {S A} (body : S -> A -> result S) (I : S -> Prop) :
  (forall s a s', I s -> body s a = Ok s' -> I s') ->
  forall l s s', I s -> foldM body l s = Ok s' -> I s'.
Proof.
  intros Hstep. induction l as [|a l IH]; intros s s' Hs H; simpl in H.
  - now injection H as <-.
  - destruct (body s a) as [s1|e] eqn:E; [|discriminate].
    rewrite bind_Ok in H. exact (IH _ _ (Hstep _ _ _ Hs E) H).
Qed.

Lemma finite_not_nan n : finite n -> not_nan n.
Proof. intros H E. subst n. exact H. Qed.

Lemma round_not_nan (q : Q) : round q <> NaN.
Proof.
  unfold round. destruct (Qeq_bool _ _); [discriminate|].
  destruct (Qle_bool _ _); [discriminate|].
  destruct (Qle_bool _ _); discriminate.
Qed.

Lemma to_float_Err a e : to_float a = Err e -> is_overflow e.
Proof.
  destruct a as [z|f]; simpl; [|discriminate].
  destruct (round _); intros H; try discriminate;
    injection H as <-; eexists; reflexivity.
Qed.

Lemma to_float_finite a f :
  finite a -> to_float a = Ok f -> exists q, f = Finite q.
Proof.
  destruct a as [z|[q| | |]]; simpl; intros Hf H; try contradiction.
  - destruct (round _); try discriminate. injection H as <-. eauto.
  - injection H as <-. eauto.
Qed.

Lemma to_float_not_nan a f : not_nan a -> to_float a = Ok f -> f <> NaN.
Proof.
  destruct a as [z|g]; simpl; intros Hn H.
  - destruct (round _); try discriminate. now injection H as <-.
  - injection H as <-. intros ->. now apply Hn.
Qed.

Lemma num_finite c : finite (num c).
Proof. now destruct c. Qed.

Lemma add_Err a b e : add a b = Err e -> is_overflow e.
Proof.
  destruct a as [x|f], b as [y|g]; unfold add; cbv beta iota;
    try discriminate; intros H;
    (apply bind_Err in H as [H|(? & ? & H)]; [now apply to_float_Err in H|]);
    (apply bind_Err in H as [H|(? & ? & H)]; [now apply to_float_Err in H|]);
    discriminate.
Qed.

Lemma sub_Err a b e : sub a b = Err e -> is_overflow e.
Proof.
  destruct a as [x|f], b as [y|g]; unfold sub; cbv beta iota;
    try discriminate; intros H;
    (apply bind_Err in H as [H|(? & ? & H)]; [now apply to_float_Err in H|]);
    (apply bind_Err in H as [H|(? & ? & H)]; [now apply to_float_Err in H|]);
    discriminate.
Qed.

Lemma mul_Err a b e : mul a b = Err e -> is_overflow e.
Proof.
  destruct a as [x|f], b as [y|g]; unfold mul; cbv beta iota;
    try discriminate; intros H;
    (apply bind_Err in H as [H|(? & ? & H)]; [now apply to_float_Err in H|]);
    (apply bind_Err in H as [H|(? & ? & H)]; [now apply to_float_Err in H|]);
    discriminate.
Qed.

Lemma div_int_Err a n e : div_int a n = Err e -> is_overflow e.
Proof.
  destruct a as [x|f]; unfold div_int; intros H.
  - destruct (round _); try discriminate; injection H as <-;
      eexists; reflexivity.
  - apply bind_Err in H as [H|(? & ? & H)];
      [now apply to_float_Err in H|discriminate].
Qed.

Lemma sum_Err xs e : sum xs = Err e -> is_overflow e.
Proof.
  unfold sum. apply (foldM_Err add (fun _ => True)); trivial.
  intros s a e' _. apply add_Err.
Qed.

Lemma get_cy_Err b e : get_cy b = Err e -> is_overflow e.
Proof.
  destruct b as [x y w h|p ps]; unfold get_cy; intros H;
    apply bind_Err in H as [H|(? & ? & H)].
  - now apply div_int_Err in H.
  - now apply add_Err in H.
  - now apply sum_Err in H.
  - now apply div_int_Err in H.
Qed.

Lemma get_h_Err b e : get_h b = Err e -> is_overflow e.
Proof.
  destruct b as [x y w h|p ps]; unfold get_h; [discriminate|apply sub_Err].
Qed.

Lemma get_x_end_Err b e : get_x_end b = Err e -> is_overflow e.
Proof.
  destruct b as [x y w h|p ps]; unfold get_x_end; [apply add_Err|discriminate].
Qed.

Lemma same_row_Err prev cur e : same_row prev cur = Err e -> is_overflow e.
Proof.
  unfold same_row. intros H.
  apply bind_Err in H as [H|(h & _ & H)]; [now apply get_h_Err in H|].
  apply bind_Err in H as [H|(c & _ & H)]; [now apply get_cy_Err in H|].
  apply bind_Err in H as [H|(p & _ & H)]; [now apply get_cy_Err in H|].
  apply bind_Err in H as [H|(d & _ & H)]; [now apply sub_Err in H|].
  apply bind_Err in H as [H|(t & _ & H)]; [now apply mul_Err in H|].
  discriminate.
Qed.

Lemma group_rows_Err lines e : group_rows lines = Err e -> is_overflow e.
Proof.
  destruct lines as [|first rest]; [discriminate|].
  unfold group_rows. intros H.
  apply bind_Err in H as [H|(st & _ & H)].
  - revert H.
    apply (foldM_Err group_step (fun st => snd st <> [])).
    + intros [rows cur] box st' Hne E. cbn [snd] in Hne.
      destruct (exists_last Hne) as (c & prev & ->).
      rewrite group_step_same_row in E.
      destruct (same_row prev box) as [[|]|e']; [| |discriminate];
        rewrite bind_Ok in E; injection E as <-; cbn [snd];
        [now destruct (c ++ [prev])%list|discriminate].
    + intros [rows cur] box e' Hne E. cbn [snd] in Hne.
      destruct (exists_last Hne) as (c & prev & ->).
      rewrite group_step_same_row in E.
      apply bind_Err in E as [E|(? & _ & E)];
        [now apply same_row_Err in E|discriminate].
    + discriminate.
  - destruct st as [rows [|c cur]]; discriminate.
Qed.

Lemma fold_choice {A} (f : A -> A -> A) (P : A -> Prop) :
  (forall m v, f m v = m \/ f m v = v) ->
  forall l a, P a -> Forall P l -> P (fold_left f l a).
Proof.
  intros Hf. induction l as [|v l IH]; intros a Ha Hl; [exact Ha|].
  inversion Hl; subst. simpl. apply IH; [|assumption].
  destruct (Hf a v) as [-> | ->]; assumption.
Qed.

Lemma min_of_finite first rest :
  finite first -> Forall finite rest -> finite (min_of first rest).
Proof.
  apply fold_choice. intros m v. destruct (lt v m); auto.
Qed.

Lemma max_of_finite first rest :
  finite first -> Forall finite rest -> finite (max_of first rest).
Proof.
  apply fold_choice. intros m v. destruct (lt m v); auto.
Qed.

Lemma get_x_finite b : finite (get_x b).
Proof.
  destruct b as [x y w h|p ps]; unfold get_x; [apply num_finite|].
  apply min_of_finite; [apply num_finite|].
  apply Forall_forall. intros n Hn. apply in_map_iff in Hn as (q & <- & _).
  apply num_finite.
Qed.

Lemma fadd_not_nan x g : g <> NaN -> fadd (Finite x) g <> NaN.
Proof.
  destruct g; simpl; intros H; try discriminate; [apply round_not_nan|].
  now contradiction H.
Qed.

Lemma get_x_end_not_nan b e : get_x_end b = Ok e -> not_nan e.
Proof.
  destruct b as [x y w h|p ps]; unfold get_x_end; intros H.
  - pose proof (num_finite x) as Fx. pose proof (num_finite w) as Fw.
    destruct (num x) as [a|f] eqn:Ex, (num w) as [c|g] eqn:Ew; simpl in H;
      try (injection H as <-; discriminate).
    + destruct (round (inject_Z a)) as [q| | |] eqn:Ea; try discriminate.
      rewrite bind_Ok in H. injection H as <-.
      destruct g as [q'| | |]; try contradiction.
      intros E. injection E. apply round_not_nan.
    + destruct f as [q| | |]; try contradiction.
      destruct (round (inject_Z c)) as [q'| | |] eqn:Ea; try discriminate.
      rewrite !bind_Ok in H. injection H as <-.
      intros E. injection E. apply round_not_nan.
    + destruct f as [q| | |], g as [q'| | |]; try contradiction.
      injection H as <-. intros E. injection E. apply round_not_nan.
  - injection H as <-. apply finite_not_nan, max_of_finite; [apply num_finite|].
    apply Forall_forall. intros n Hn. apply in_map_iff in Hn as (q & <- & _).
    apply num_finite.
Qed.

Lemma sub_not_nan x l d :
  finite x -> not_nan l -> sub x l = Ok d -> not_nan d.
Proof.
  intros Fx Nl H. destruct x as [a|f], l as [b|g]; unfold sub in H;
    cbv beta iota in H; try (injection H as <-; discriminate).
  - destruct (to_float (Int a)) as [fa|] eqn:Ea; [|discriminate].
    destruct (to_float_finite _ _ Fx Ea) as (q & ->).
    rewrite bind_Ok in H. cbn [to_float] in H. rewrite bind_Ok in H.
    injection H as <-. intros E. injection E. unfold fsub.
    apply fadd_not_nan. destruct g; try discriminate.
    now contradiction Nl.
  - destruct f as [q| | |]; try contradiction.
    destruct (to_float (Int b)) as [fb|] eqn:Eb;
      [|cbn [to_float] in H; rewrite bind_Ok in H; discriminate].
    cbn [to_float] in H. rewrite !bind_Ok in H.
    injection H as <-. intros E. injection E.
    unfold fsub. apply fadd_not_nan.
    pose proof (to_float_not_nan (Int b) fb) as Hb.
    destruct fb; try discriminate. apply Hb; [discriminate|exact Eb].
  - destruct f as [q| | |]; try contradiction.
    cbn [to_float] in H. rewrite !bind_Ok in H.
    injection H as <-. intros E. injection E. unfold fsub.
    apply fadd_not_nan. destruct g; try discriminate.
    now contradiction Nl.
Qed.

Lemma div_int_not_nan a n q :
  not_nan a -> div_int a n = Ok q -> not_nan q.
Proof.
  intros Na H. destruct a as [x|f]; unfold div_int in H.
  - destruct (round _); try discriminate. injection H as <-. discriminate.
  - destruct (to_float (Int (Z.pos n))) as [d|] eqn:Ed; [|discriminate].
    destruct (to_float_finite (Int (Z.pos n)) d I Ed) as (dq & ->).
    rewrite bind_Ok in H. injection H as <-. intros E. injection E.
    destruct f as [x| | |]; simpl.
    + apply round_not_nan.
    + destruct (Qltb dq 0); discriminate.
    + destruct (Qltb dq 0); discriminate.
    + intros _. now apply Na.
Qed.

Lemma int_Err q e : not_nan q -> int q = Err e -> is_overflow e.
Proof.
  intros Nq H. destruct q as [z|[x| | |]]; simpl in H; try discriminate;
    try (injection H as <-; eexists; reflexivity).
  now contradiction Nq.
Qed.

Lemma gap_spaces_Err last x e :
  finite x -> not_nan last -> gap_spaces last x = Err e -> is_overflow e.
Proof.
  intros Fx Nl H. unfold gap_spaces in H.
  apply bind_Err in H as [H|(d & Ed & H)]; [now apply sub_Err in H|].
  pose proof (sub_not_nan _ _ _ Fx Nl Ed) as Nd.
  assert (Ng : not_nan (max2 (Int 0) d)).
  { unfold max2. destruct (lt _ _); [exact Nd|discriminate]. }
  apply bind_Err in H as [H|(q & Eq & H)]; [now apply div_int_Err in H|].
  exact (int_Err _ _ (div_int_not_nan _ _ _ Ng Eq) H).
Qed.

Lemma str_times_Err s n e : str_times s n = Err e -> is_overflow e.
Proof.
  unfold str_times. destruct (_ <? _)%Z; [|discriminate].
  intros H. injection H as <-. eexists; reflexivity.
Qed.

Lemma line_step_Err line_text last item e :
  not_nan last -> line_step (line_text, last) item = Err e -> is_overflow e.
Proof.
  intros Nl H. rewrite line_step_spaces in H.
  apply bind_Err in H as [H|(pad & _ & H)].
  - destruct (lt _ _); [|discriminate].
    apply bind_Err in H as [H|(n & _ & H)].
    + exact (gap_spaces_Err _ _ _ (get_x_finite _) Nl H).
    + now apply str_times_Err in H.
  - apply bind_Err in H as [H|(x & _ & H)];
      [now apply get_x_end_Err in H|discriminate].
Qed.

Lemma line_step_not_nan line_text last item st :
  line_step (line_text, last) item = Ok st -> not_nan (snd st).
Proof.
  rewrite line_step_spaces. intros H.
  destruct (if lt _ _ then _ else _) as [pad|]; [|discriminate].
  rewrite bind_Ok in H.
  destruct (get_x_end _) as [x|] eqn:Ex; [|discriminate].
  rewrite bind_Ok in H. injection H as <-.
  now apply get_x_end_not_nan in Ex.
Qed.

Lemma build_line_Err row e : build_line row = Err e -> is_overflow e.
Proof.
  unfold build_line. rewrite list_sort_by_left, bind_Ok. intros H.
  apply bind_Err in H as [H|(? & _ & H)]; [|discriminate].
  revert H. apply (foldM_Err line_step (fun st => not_nan (snd st))).
  - intros [t l] item st' _. apply line_step_not_nan.
  - intros [t l] item e'. apply line_step_Err.
  - discriminate.
Qed.

(** Whatever [reconstruct_layout] raises is an [OverflowError]. *)
Lemma reconstruct_layout_Err lines e :
  snd (reconstruct_layout lines) = Err e -> is_overflow e.
Proof.
  destruct lines as [|f lines]; [discriminate|].
  unfold reconstruct_layout.
  destruct (list_sort_by _ _) as [sorted|e'] eqn:Es; cbn [snd]; intros H.
  - apply bind_Err in H as [H|(rows & _ & H)]; [now apply group_rows_Err in H|].
    apply bind_Err in H as [H|(outs & _ & H)]; [|discriminate].
    apply mapM_Err in H as (row & _ & H). now apply build_line_Err in H.
  - injection H as <-. unfold list_sort_by, list_sort in Es.
    apply bind_Err in Es as [Es|(? & _ & Es)]; [|discriminate].
    apply mapM_Err in Es as (a & _ & Es).
    apply bind_Err in Es as [Es|(? & _ & Es)];
      [now apply get_cy_Err in Es|discriminate].
Qed.

End Raises.

(** ** Claims about the layout, on Python's numbers *)

Section PyLayoutClaims.
Import Binary64 PyNumber PyLayout PyTerms Exact.

Lemma mapM_Forall2 {A B} (f : A -> result B) (l : list A) : forall bs,
  mapM f l = Ok bs -> Forall2 (fun a b => f a = Ok b) l bs.
Proof.
  induction l as [|a l IH]; intros bs H; simpl in H.
  - injection H as <-. constructor.
  - destruct (f a) as [b|e] eqn:E; [|discriminate]. rewrite bind_Ok in H.
    destruct (mapM f l) as [bs'|e]; [|discriminate]. rewrite bind_Ok in H.
    injection H as <-. constructor; auto.
Qed.

Lemma build_line_Ok row out :
  build_line row = Ok out ->
  exists e, foldM line_step (Spec.sort_by left_key row) ("", Int 0) = Ok (out, e).
Proof.
  unfold build_line. rewrite list_sort_by_left, bind_Ok.
  destruct (foldM line_step _ _) as [[t e]|e]; [|discriminate].
  rewrite bind_Ok. intros H. injection H as <-. now exists e.
Qed.

Lemma gap_spaces_25 (last_x_end x_start d : number) (q : Q) :
  sub x_start last_x_end = Ok d -> exact d = Finite q -> q == 25 ->
  gap_spaces last_x_end x_start = Ok 2%Z.
Proof.
  intros Ed Eq H25. unfold gap_spaces. rewrite Ed, bind_Ok.
  assert (Em : max2 (Int 0) d = d).
  { unfold max2, lt. rewrite Eq. cbn [exact flt].
    rewrite (Qltb_Proper _ _ (Qeq_refl _) _ _ H25). reflexivity. }
  rewrite Em. destruct d as [z|f]; cbn [exact] in Eq.
  - injection Eq as <-.
    assert (z = 25%Z) as ->.
    { apply inject_Z_injective. exact H25. }
    vm_compute. reflexivity.
  - subst f. unfold div_int.
    replace (to_float (Int 10)) with (Ok (Finite 10)) by (vm_compute; reflexivity).
    rewrite bind_Ok. unfold fdiv.
    assert (E : q / 10 == 25 / 10) by now rewrite H25.
    rewrite (round_comp _ _ E). vm_compute. reflexivity.
Qed.

(** C1, as the code has it.  [reconstruct_layout] first sorts the fragments
    by center Y (ascending).  In the scan that follows, a fragment is appended
    to the current row exactly when the row test holds of the member appended
    last and of the fragment, as Python evaluates it:
    [abs(get_cy(box) - get_cy(prev)) < get_h(prev) * 0.5], every operation on
    [float]s rounded to binary64; otherwise the current row is closed and the
    fragment starts a new row; an exception of the test ends the call.  So,
    when the call returns, the rows cut the sorted list into consecutive
    non-empty pieces, every member but the first of a row passed the test
    against the one before it, and the first member of a row failed it
    against the last member of the row before.  On boxes of [int]s below
    [2^48] the test is the exact comparison, of the distance of the two
    centers with half the height, and the call returns.  The fragments
    [[0,0,50,20]] and [[60,8,50,20]] land in one row, the second to the
    right of the first, whichever order they are given in. *)
Theorem C1_row_grouping :
  (forall lines s,
     snd (reconstruct_layout lines) = Ok s ->
     let sorted := fst (reconstruct_layout lines) in
     exists rows output_lines,
       Permutation lines sorted
       /\ Forall (fun f => exists c, get_cy (bbox f) = Ok c
                                     /\ cy_key f = sort_key c) sorted
       /\ Spec.ascending cy_key sorted
       /\ group_rows sorted = Ok rows
       /\ concat rows = sorted
       /\ Forall (fun row => row <> []) rows
       /\ Forall chained rows
       /\ separated rows
       /\ mapM build_line rows = Ok output_lines
       /\ s = join newline output_lines)
  /\ (forall rows cur prev box,
        (same_row prev box = Ok true ->
         group_step (rows, (cur ++ [prev])%list) box
         = Ok (rows, ((cur ++ [prev]) ++ [box])%list))
        /\ (same_row prev box = Ok false ->
            group_step (rows, (cur ++ [prev])%list) box
            = Ok ((rows ++ [(cur ++ [prev])%list])%list, [box]))
        /\ (forall e, same_row prev box = Err e ->
                      group_step (rows, (cur ++ [prev])%list) box = Err e))
  /\ (forall prev box,
        small_ints prev -> small_ints box ->
        (Spec.close (exact_fragment prev) (exact_fragment box) ->
         same_row prev box = Ok true)
        /\ (~ Spec.close (exact_fragment prev) (exact_fragment box) ->
            same_row prev box = Ok false))
  /\ (forall lines,
        Forall small_ints lines ->
        exists s, snd (reconstruct_layout lines) = Ok s)
  /\ (forall tA tB cA cB,
        let A := Fragment tA cA (AxisAligned (IntCoord 0) (IntCoord 0)
                                             (IntCoord 50) (IntCoord 20)) in
        let B := Fragment tB cB (AxisAligned (IntCoord 60) (IntCoord 8)
                                             (IntCoord 50) (IntCoord 20)) in
        get_cy (bbox A) = Ok (Float (Finite 10))
        /\ get_h (bbox A) = Ok (Int 20)
        /\ get_cy (bbox B) = Ok (Float (Finite 18))
        /\ same_row A B = Ok true
        /\ group_rows (fst (reconstruct_layout [A; B])) = Ok [[A; B]]
        /\ group_rows (fst (reconstruct_layout [B; A])) = Ok [[A; B]]
        /\ snd (reconstruct_layout [A; B]) = Ok (tA ++ " " ++ tB)%string
        /\ snd (reconstruct_layout [B; A]) = Ok (tA ++ " " ++ tB)%string).
Proof.
  split; [|split; [|split; [|split]]].
  - intros lines s Hs sorted. subst sorted.
    destruct (reconstruct_layout_Ok _ _ Hs) as (rows & outs & Ef & Eg & Em & Es).
    rewrite Ef.
    destruct (group_rows_Ok _ _ Eg) as (Hc & Hn & Hch & Hsep).
    exists rows, outs.
    split; [apply sort_by_perm|].
    split.
    { assert (Hk : Forall (fun f => exists c, get_cy (bbox f) = Ok c) lines).
      { destruct lines as [|f lines]; [constructor|].
        unfold reconstruct_layout in Hs.
        destruct (list_sort_by _ (f :: lines)) as [srt|e] eqn:E;
          [|discriminate].
        now apply list_sort_by_cy in E. }
      rewrite Forall_forall in *. intros f Hf.
      destruct (Hk f) as (c & Ec).
      { eapply Permutation_in; [|exact Hf]. apply Permutation_sym, sort_by_perm. }
      exists c. split; [exact Ec|]. unfold cy_key. now rewrite Ec. }
    split; [apply sort_by_ascending|]. auto 10.
  - intros rows cur prev box. rewrite group_step_same_row.
    split; [|split]; intros; now rewrite H.
  - intros prev box Hp Hb. rewrite (same_row_exact _ _ Hp Hb).
    split; intros H.
    + apply closeb_close in H. now rewrite H.
    + apply closeb_not_close in H. now rewrite H.
  - intros lines Hs.
    destruct (reconstruct_layout_small_ints _ Hs) as (E & _).
    rewrite E, reconstruct_layout_spec. cbn [snd]. eauto.
  - intros tA tB cA cB A B.
    repeat (split; [reflexivity|]).
    split; vm_compute; exact (f_equal Ok (append_assoc tA " " tB)).
Qed.

Lemma C1_row_grouping_witness :
  let A := Fragment "Total" (Float (Finite 1))
             (AxisAligned (IntCoord 0) (IntCoord 0) (IntCoord 50) (IntCoord 20)) in
  let B := Fragment "42" (Float (Finite 1))
             (Polygon (IntCoord 60, IntCoord 8)
                [(IntCoord 110, IntCoord 8); (IntCoord 110, IntCoord 28);
                 (IntCoord 60, IntCoord 28)]) in
  small_ints A /\ small_ints B
  /\ Spec.close (exact_fragment A) (exact_fragment B)
  /\ same_row A B = Ok true
  /\ group_step ([], [A]) B = Ok ([], [A; B])
  /\ snd (reconstruct_layout [B; A]) = Ok "Total 42"
  /\ exists rows,
       group_rows (fst (reconstruct_layout [B; A])) = Ok rows
       /\ concat rows = fst (reconstruct_layout [B; A])
       /\ Forall chained rows /\ separated rows.
Proof.
  intros A B.
  assert (HA : small_ints A).
  { unfold small_ints, A. simpl. lia. }
  assert (HB : small_ints B).
  { unfold small_ints, B. simpl. split; [reflexivity|].
    repeat constructor; simpl; lia. }
  assert (Hc : Spec.close (exact_fragment A) (exact_fragment B))
    by (apply closeb_close; reflexivity).
  assert (Hs : snd (reconstruct_layout [B; A]) = Ok "Total 42") by reflexivity.
  split; [exact HA|]. split; [exact HB|]. split; [exact Hc|].
  destruct C1_row_grouping as (H & Hstep & Hex & _).
  pose proof (proj1 (Hex A B HA HB) Hc) as Hrow.
  split; [exact Hrow|].
  split; [exact (proj1 (Hstep [] [] A B) Hrow)|].
  split; [exact Hs|].
  destruct (H [B; A] _ Hs) as (rows & outs & _ & _ & _ & Hg & Hcat & _ & Hch & Hsep & _).
  exists rows. auto.
Defined.

(** C1 as stated fails on [float] coordinates: the centers of [[0, 0.1, 5,
    4.0]] and [[100, 2.1, 5, 4.0]] are 2 apart or more, which is not below
    half the height 4.0, yet the code finds [4.1 - 2.1 < 2.0] and puts the
    two fragments in one row. *)
Lemma C1_counterexample :
  let A := Fragment "a" (Float (Finite 1))
             (AxisAligned (IntCoord 0) (literal (1 # 10)) (IntCoord 5) (literal 4)) in
  let B := Fragment "b" (Float (Finite 1))
             (AxisAligned (IntCoord 100) (literal (21 # 10)) (IntCoord 5) (literal 4)) in
  ~ Spec.close (exact_fragment A) (exact_fragment B)
  /\ ~ Qabs (((21 # 10) + 4 / 2) - ((1 # 10) + 4 / 2)) < (1 # 2) * 4
  /\ same_row A B = Ok true
  /\ group_rows (fst (reconstruct_layout [A; B])) = Ok [[A; B]]
  /\ snd (reconstruct_layout [A; B]) = Ok "a         b".
Proof.
  intros A B.
  split; [intros H; vm_compute in H; discriminate|].
  split; [intros H; vm_compute in H; discriminate|].
  repeat split; vm_compute; reflexivity.
Qed.

(** C2, as the code has it.  The members of a row are put in ascending
    order of their left edge.  Before the text of a member the function
    inserts [int(max(0, left - previous_right) / 10)] spaces, as Python
    evaluates it, when the right edge of the previous member is positive, and
    nothing when it is not; the row's first member gets no spaces.  Between
    [int] edges less than [2^52] apart the count is [floor(max(0, left -
    previous_right) / 10)], exactly.  Row texts are joined by one newline,
    rows from top to bottom.  After a member whose right edge is positive, a
    gap that Python computes as 25 gives exactly 2 spaces. *)
Theorem C2_row_text :
  (forall lines s,
     snd (reconstruct_layout lines) = Ok s ->
     exists rows output_lines,
       group_rows (fst (reconstruct_layout lines)) = Ok rows
       /\ Forall2 (fun row out =>
                     Permutation row (Spec.sort_by left_key row)
                     /\ Spec.ascending left_key (Spec.sort_by left_key row)
                     /\ build_line row = Ok out
                     /\ exists e,
                          foldM line_step (Spec.sort_by left_key row) ("", Int 0)
                          = Ok (out, e))
                  rows output_lines
       /\ s = join newline output_lines)
  /\ (forall line_text last_x_end item,
        lt (Int 0) last_x_end = true ->
        line_step (line_text, last_x_end) item
        = (n <- gap_spaces last_x_end (get_x (bbox item)) ;;
           pad <- str_times " " n ;;
           e <- get_x_end (bbox item) ;;
           Ok ((line_text ++ pad) ++ text item, e)))
  /\ (forall line_text last_x_end item,
        lt (Int 0) last_x_end = false ->
        line_step (line_text, last_x_end) item
        = (e <- get_x_end (bbox item) ;;
           Ok (line_text ++ text item, e)))
  /\ (forall first, line_step ("", Int 0) first
                     = (e <- get_x_end (bbox first) ;; Ok (text first, e)))
  /\ (forall n, (n < 2 ^ 63)%Z -> str_times " " n = Ok (Spec.spaces n))
  /\ (forall previous_right left,
        (Z.abs (left - previous_right) < 2 ^ 52)%Z ->
        gap_spaces (Int previous_right) (Int left)
        = Ok (Spec.gap_spaces (inject_Z previous_right) (inject_Z left))
        /\ Spec.gap_spaces (inject_Z previous_right) (inject_Z left)
           = (Z.max 0 (left - previous_right) / 10)%Z)
  /\ (forall previous_right left d q,
        sub left previous_right = Ok d -> exact d = Finite q -> q == 25 ->
        gap_spaces previous_right left = Ok 2%Z
        /\ str_times " " 2 = Ok "  ").
Proof.
  split; [|split; [|split; [|split; [|split; [|split]]]]].
  - intros lines s Hs.
    destruct (reconstruct_layout_Ok _ _ Hs) as (rows & outs & Ef & Eg & Em & Es).
    exists rows, outs. rewrite Ef. split; [exact Eg|]. split; [|exact Es].
    apply mapM_Forall2 in Em.
    eapply Forall2_impl; [|exact Em]. intros row out Eb.
    split; [apply sort_by_perm|]. split; [apply sort_by_ascending|].
    split; [exact Eb|]. now apply build_line_Ok.
  - intros line_text last_x_end item Hpos.
    rewrite line_step_spaces, Hpos.
    destruct (gap_spaces _ _) as [n|e]; [|reflexivity].
    rewrite !bind_Ok. reflexivity.
  - intros line_text last_x_end item Hpos.
    rewrite line_step_spaces, Hpos, bind_Ok.
    now rewrite append_nil_r.
  - intros first. rewrite line_step_spaces.
    replace (lt (Int 0) (Int 0)) with false by reflexivity.
    rewrite bind_Ok. reflexivity.
  - intros n Hn. now apply str_times_small.
  - intros previous_right left Hb.
    rewrite gap_spaces_exact. split; [|reflexivity].
    now apply gap_spaces_ints.
  - intros previous_right left d q Ed Eq H25.
    split; [now apply (gap_spaces_25 _ _ d q)|reflexivity].
Qed.

Lemma C2_row_text_witness :
  let a := Fragment "Qty" (Float (Finite 1))
             (AxisAligned (IntCoord 10) (IntCoord 0) (IntCoord 30) (IntCoord 20)) in
  let b := Fragment "7" (Float (Finite 1))
             (AxisAligned (IntCoord 65) (IntCoord 2) (IntCoord 10) (IntCoord 20)) in
  get_x_end (bbox a) = Ok (Int 40)
  /\ lt (Int 0) (Int 40) = true
  /\ sub (get_x (bbox b)) (Int 40) = Ok (Int 25)
  /\ gap_spaces (Int 40) (get_x (bbox b)) = Ok 2%Z
  /\ line_step ("Qty", Int 40) b = Ok ("Qty  7", Int 75)
  /\ snd (reconstruct_layout [b; a]) = Ok "Qty  7".
Proof.
  intros a b.
  assert (Hpos : lt (Int 0) (Int 40) = true) by reflexivity.
  assert (Hd : sub (get_x (bbox b)) (Int 40) = Ok (Int 25)) by reflexivity.
  split; [reflexivity|]. split; [exact Hpos|]. split; [exact Hd|].
  destruct C2_row_text as (_ & Hstep & _ & _ & _ & _ & H25).
  destruct (H25 (Int 40) (get_x (bbox b)) (Int 25) 25 Hd eq_refl (Qeq_refl _))
    as (Hn & Hp).
  split; [exact Hn|].
  split; [|reflexivity].
  rewrite (Hstep "Qty" (Int 40) b Hpos), Hn, bind_Ok, Hp, bind_Ok.
  reflexivity.
Defined.

(** C2 as stated fails: a member other than the first gets no spaces when
    the member before it ends at [x = 0], although the gap is 25. *)
Lemma C2_counterexample :
  let a := Fragment "a" (Float (Finite 1))
             (AxisAligned (IntCoord 0) (IntCoord 0) (IntCoord 0) (IntCoord 20)) in
  let b := Fragment "b" (Float (Finite 1))
             (AxisAligned (IntCoord 25) (IntCoord 0) (IntCoord 10) (IntCoord 20)) in
  group_rows (fst (reconstruct_layout [a; b])) = Ok [[a; b]]
  /\ Spec.sort_by left_key [a; b] = [a; b]
  /\ get_x_end (bbox a) = Ok (Int 0)
  /\ sub (get_x (bbox b)) (Int 0) = Ok (Int 25)
  /\ gap_spaces (Int 0) (get_x (bbox b)) = Ok 2%Z
  /\ Spec.spec_line_of (map exact_fragment [a; b]) = "a  b"
  /\ snd (reconstruct_layout [a; b]) = Ok "ab"
  /\ snd (reconstruct_layout [a; b])
     <> Ok (join newline
              (map (fun row => Spec.spec_line_of
                                 (map exact_fragment
                                    (Spec.sort_by left_key row)))
                   [[a; b]])).
Proof.
  intros a b.
  repeat (split; [reflexivity|]).
  vm_compute. discriminate.
Qed.

End PyLayoutClaims.

(** ** Claims about the geometry accessors *)

Section PyGeometryClaims.
Import Binary64 PyNumber PyLayout PyTerms Exact.

Lemma least_of_two (A B m : Q) (L : list Q) :
  A <= B -> In A L -> Forall (fun v => v = A \/ v = B) L ->
  In m L -> Forall (fun v => m <= v) L -> m == A.
Proof.
  intros HAB HA HL Hm Hle. rewrite Forall_forall in HL, Hle.
  destruct (HL m Hm) as [-> | ->]; [reflexivity|].
  apply Qle_antisym; [now apply Hle|exact HAB].
Qed.

Lemma greatest_of_two (A B m : Q) (L : list Q) :
  A <= B -> In B L -> Forall (fun v => v = A \/ v = B) L ->
  In m L -> Forall (fun v => v <= m) L -> m == B.
Proof.
  intros HAB HB HL Hm Hle. rewrite Forall_forall in HL, Hle.
  destruct (HL m Hm) as [-> | ->]; [|reflexivity].
  apply Qle_antisym; [exact HAB|now apply Hle].
Qed.

Lemma int_corners_small (x y w h : Z) p ps :
  (Z.abs x < 2 ^ 47)%Z -> (Z.abs y < 2 ^ 47)%Z ->
  (Z.abs w < 2 ^ 47)%Z -> (Z.abs h < 2 ^ 47)%Z ->
  Permutation (int_corners x y w h) (p :: ps) ->
  small_int_box (2 ^ 48) (Polygon p ps).
Proof.
  intros Hx Hy Hw Hh HP. split.
  - apply Permutation_length in HP. simpl in HP. lia.
  - eapply Permutation_Forall; [exact HP|].
    unfold int_corners. repeat constructor; cbn [fst snd small_int]; lia.
Qed.

(** C4, as the code has it.  For [int]s [x], [y], [w], [h] below [2^47] in
    absolute value, the box [[x, y, w, h]] and the polygon of its four
    corners in any order: the center Y of both is the same [float], of value
    [y + h/2]; the left edge of both is [x] when [w >= 0]; the height of both
    is [h] when [h >= 0]. *)
Theorem C4_accessors_agree (x y w h : Z) p ps :
  (Z.abs x < 2 ^ 47)%Z -> (Z.abs y < 2 ^ 47)%Z ->
  (Z.abs w < 2 ^ 47)%Z -> (Z.abs h < 2 ^ 47)%Z ->
  Permutation (int_corners x y w h) (p :: ps) ->
  let box := AxisAligned (IntCoord x) (IntCoord y) (IntCoord w) (IntCoord h) in
  (exists c, get_cy box = Ok (Float (Finite c))
             /\ c == inject_Z y + inject_Z h / 2
             /\ get_cy (Polygon p ps) = Ok (Float (Finite c)))
  /\ get_x box = Int x
  /\ get_h box = Ok (Int h)
  /\ ((0 <= w)%Z -> get_x (Polygon p ps) = Int x)
  /\ ((0 <= h)%Z -> get_h (Polygon p ps) = Ok (Int h)).
Proof.
  intros Hx Hy Hw Hh HP box.
  assert (HB : small_int_box (2 ^ 48) box).
  { unfold box, small_int_box, small_int. lia. }
  pose proof (int_corners_small x y w h p ps Hx Hy Hw Hh HP) as HG.
  destruct (small_int_geometry _ HB) as ((c4 & Ec & _) & _).
  destruct (small_int_geometry _ HG)
    as ((c4' & Ec' & _) & (hz & Eh & Vh & _) & (xz & Ex & Vx & _) & _).
  cbv zeta in *.
  pose proof (Permutation_map fst (Permutation_map exact_point HP)) as Px.
  pose proof (Permutation_map snd (Permutation_map exact_point HP)) as Py.
  cbn [int_corners map exact_point fst snd value] in Px, Py.
  cbn [exact_box] in Ec', Vh, Vx.
  change (exact_point p :: map exact_point ps)
    with (map exact_point (p :: ps)) in Px, Py.
  split; [|split; [reflexivity|split; [reflexivity|split]]].
  - exists (Qred (val (Layout.get_cy (exact_box box)))).
    split; [exact Ec|]. split; [apply Qred_correct|].
    rewrite Ec'. do 3 f_equal. apply Qred_complete.
    unfold Layout.get_cy. rewrite py_div_Ok by apply py_len_cons.
    cbn [val exact_box box value].
    change (map snd (exact_point p :: map exact_point ps))
      with (map snd (map exact_point (p :: ps))).
    rewrite <- (py_sum_perm _ _ Py).
    unfold py_len. rewrite !length_map.
    rewrite <- (Permutation_length HP).
    unfold py_sum. cbn [fold_left int_corners List.length].
    rewrite !inject_Z_plus. simpl (inject_Z (Z.of_nat 4)). field.
  - intros Hw0. rewrite Ex. f_equal. apply inject_Z_injective.
    rewrite <- Vx. unfold Layout.get_x, py_min. cbn [map val].
    destruct (fold_min_spec (map fst (map exact_point ps)) (fst (exact_point p)))
      as (Hin & Hle).
    apply (least_of_two _ (inject_Z (x + w)) _
             (map fst (map exact_point (p :: ps)))); trivial.
    + rewrite <- Zle_Qle. lia.
    + eapply Permutation_in; [exact Px|]. now left.
    + eapply Permutation_Forall; [exact Px|]. each_member.
  - intros Hh0. rewrite Eh. do 2 f_equal. apply inject_Z_injective.
    rewrite <- Vh. unfold Layout.get_h, py_min, py_max.
    cbn [map]. rewrite !bind_Ok. cbn [val].
    destruct (fold_min_spec (map snd (map exact_point ps)) (snd (exact_point p)))
      as (Hin & Hle).
    destruct (fold_max_spec (map snd (map exact_point ps)) (snd (exact_point p)))
      as (Hin' & Hle').
    assert (Hyh : inject_Z y <= inject_Z (y + h)) by (rewrite <- Zle_Qle; lia).
    assert (HF : Forall (fun v => v = inject_Z y \/ v = inject_Z (y + h))
                        (map snd (map exact_point (p :: ps)))).
    { eapply Permutation_Forall; [exact Py|]. each_member. }
    rewrite (least_of_two (inject_Z y) (inject_Z (y + h)) _ _ Hyh
               (Permutation_in _ Py (or_introl eq_refl)) HF Hin Hle).
    rewrite (greatest_of_two (inject_Z y) (inject_Z (y + h)) _ _ Hyh
               (Permutation_in _ Py (or_intror (or_intror (or_introl eq_refl))))
               HF Hin' Hle').
    rewrite inject_Z_plus. ring.
Qed.

Lemma C4_accessors_agree_witness :
  let p := (IntCoord 50, IntCoord 20) in
  let ps := [(IntCoord 0, IntCoord 0); (IntCoord 0, IntCoord 20);
             (IntCoord 50, IntCoord 0)] in
  (Z.abs 0 < 2 ^ 47)%Z /\ (Z.abs 50 < 2 ^ 47)%Z /\ (Z.abs 20 < 2 ^ 47)%Z
  /\ Permutation (int_corners 0 0 50 20) (p :: ps)
  /\ get_cy (Polygon p ps) = Ok (Float (Finite 10))
  /\ get_x (Polygon p ps) = Int 0
  /\ get_h (Polygon p ps) = Ok (Int 20).
Proof.
  intros p ps.
  assert (HP : Permutation (int_corners 0 0 50 20) (p :: ps)).
  { change (Permutation [(IntCoord 0, IntCoord 0); (IntCoord 50, IntCoord 0);
                         (IntCoord 50, IntCoord 20); (IntCoord 0, IntCoord 20)]
                        (p :: ps)).
    apply (Permutation_cons_app [(IntCoord 50, IntCoord 20)]
             [(IntCoord 0, IntCoord 20); (IntCoord 50, IntCoord 0)]
             (IntCoord 0, IntCoord 0)).
    apply (Permutation_cons_app
             [(IntCoord 50, IntCoord 20); (IntCoord 0, IntCoord 20)] []
             (IntCoord 50, IntCoord 0)).
    reflexivity. }
  assert (H0 : (Z.abs 0 < 2 ^ 47)%Z) by (simpl; lia).
  assert (H50 : (Z.abs 50 < 2 ^ 47)%Z) by (simpl; lia).
  assert (H20 : (Z.abs 20 < 2 ^ 47)%Z) by (simpl; lia).
  split; [exact H0|]. split; [exact H50|]. split; [exact H20|].
  split; [exact HP|].
  destruct (C4_accessors_agree 0 0 50 20 p ps H0 H0 H50 H20 HP)
    as (_ & _ & _ & Hl & Ht).
  split; [reflexivity|]. split; [apply Hl; lia|apply Ht; lia].
Defined.

(** C4 as stated fails on [float] coordinates, also with extents that are
    not negative: for the box [[0, 0.1, 10, 0.2]] the corner [0.1 + 0.2] is
    the [float] 0.30000000000000004, and the height of the polygon of the
    four corners is [0.30000000000000004 - 0.1 = 0.20000000000000004], not
    the height [0.2] of the box. *)
Lemma C4_counterexample :
  let y := literal (1 # 10) in
  let h := literal (2 # 10) in
  let yh := literal (value y + value h) in
  let box := AxisAligned (IntCoord 0) y (IntCoord 10) h in
  let polygon := Polygon (IntCoord 0, y)
                   [(IntCoord 10, y); (IntCoord 10, yh); (IntCoord 0, yh)] in
  0 <= value h
  /\ add (Int 0) (Int 10) = Ok (Int 10)
  /\ add (num y) (num h) = Ok (num yh)
  /\ get_h box = Ok (num h)
  /\ (exists t, get_h polygon = Ok (Float (Finite t)) /\ value h < t)
  /\ get_h polygon <> get_h box.
Proof.
  intros y h yh box polygon.
  split; [vm_compute; discriminate|].
  split; [reflexivity|]. split; [vm_compute; reflexivity|].
  split; [reflexivity|]. split.
  - eexists. split; [vm_compute; reflexivity|]. vm_compute. reflexivity.
  - vm_compute. discriminate.
Qed.

End PyGeometryClaims.

(** ** Claims about the engine adapters, on Python's numbers *)

Section PyEngineClaims.
Import Binary64 PyNumber PyLayout PyEngines PyTerms Exact.
Import Engines (tess_data, TessData, d_text, d_conf, d_left, d_top, d_width,
                d_height, TesseractOCREngine, Image_open, image_to_data,
                image_to_string, lang).

Lemma py_tess_step_spec data lines i :
  Spec.columns_aligned data ->
  (i < List.length (d_text data))%nat ->
  (nth i (d_conf data) 0 < 2 ^ 53)%Z ->
  tess_step data lines i
  = Ok (lines ++ (if (0 <? nth i (d_conf data) 0)%Z then [token data i] else []))%list.
Proof.
  intros (Hc & Hl & Ht & Hw & Hh) Hi Hb. unfold tess_step, token.
  rewrite (index_nth _ _ 0%Z) by lia. rewrite bind_Ok.
  destruct (Z.ltb_spec 0 (nth i (d_conf data) 0%Z)) as [Hpos|Hneg].
  - rewrite (index_nth _ _ "") by lia. rewrite !bind_Ok.
    rewrite to_float_small by lia. rewrite bind_Ok.
    rewrite (index_nth (d_left data) _ 0%Z) by lia. rewrite bind_Ok.
    rewrite (index_nth (d_top data) _ 0%Z) by lia. rewrite bind_Ok.
    rewrite (index_nth (d_width data) _ 0%Z) by lia. rewrite bind_Ok.
    rewrite (index_nth (d_height data) _ 0%Z) by lia. rewrite bind_Ok.
    do 5 f_equal. unfold fdiv. apply round_comp.
    now rewrite Qred_correct.
  - now rewrite app_nil_r.
Qed.

Lemma filter_snoc {A} (f : A -> bool) (l : list A) (a : A) :
  filter f (l ++ [a]) = (filter f l ++ if f a then [a] else [])%list.
Proof. rewrite filter_app. simpl. now destruct (f a). Qed.

Lemma foldM_py_tess_step data : forall n lines,
  Spec.columns_aligned data ->
  Forall (fun c => (c < 2 ^ 53)%Z) (d_conf data) ->
  (n <= List.length (d_text data))%nat ->
  foldM (tess_step data) (seq 0 n) lines
  = Ok (lines ++ map (token data)
                     (filter (fun i => (0 <? nth i (d_conf data) 0)%Z)
                             (seq 0 n)))%list.
Proof.
  induction n as [|n IH]; intros lines Ha Hb Hn.
  - simpl. now rewrite app_nil_r.
  - rewrite seq_S, foldM_app. rewrite IH; trivial; [|lia]. rewrite bind_Ok.
    simpl foldM. rewrite py_tess_step_spec; trivial.
    + rewrite bind_Ok, filter_snoc, map_app, app_assoc. cbn [plus].
      now destruct (0 <? nth n (d_conf data) 0)%Z.
    + rewrite Forall_forall in Hb. apply Hb, nth_In.
      destruct Ha as (Hc & _). lia.
Qed.

Lemma kept_In data i :
  In i (kept data)
  <-> (i < List.length (d_text data))%nat /\ (0 < nth i (d_conf data) 0)%Z.
Proof.
  unfold kept. rewrite filter_In, in_seq, Z.ltb_lt. intuition lia.
Qed.

(** C5, as the code has it.  [recognize] of each adapter returns a result
    whatever its [try] block does: when the backend call, a conversion
    ([float], [int], an index) or [reconstruct_layout] raises, the result has
    [success = False], the exception's message as [error] and the engine's
    name; otherwise it is the success result built from the backend's answer.
    [reconstruct_layout] returns the empty string on the empty list; it
    returns a string on every list of boxes of [int]s below [2^48] (memory
    is not bounded here); whatever it raises is an [OverflowError], which
    [recognize] turns into a failed result. *)
Theorem C5_failures_become_results :
  let failed kind e :=
    {| success := false; res_text := None; res_lines := None;
       engine := Some kind; error := Some (str_exn e) |} in
  let succeeded kind t lines :=
    {| success := true; res_text := Some t; res_lines := Some lines;
       engine := Some kind; error := None |} in
  (forall (self : PaddleOCREngine) image_path,
     paddle_recognize self image_path
     = match ocr self image_path with
       | Err e => failed "paddleocr" e
       | Ok (Some (Some (line :: page) :: _)) =>
           match mapM paddle_fragment (line :: page) with
           | Err e => failed "paddleocr" e
           | Ok lines =>
               match snd (reconstruct_layout lines) with
               | Err e => failed "paddleocr" e
               | Ok t => succeeded "paddleocr" t (fst (reconstruct_layout lines))
               end
           end
       | Ok _ => succeeded "paddleocr" "" []
       end)
  /\ (forall (self : EasyOCREngine) image_path,
        easy_recognize self image_path
        = match readtext self image_path with
          | Err e => failed "easyocr" e
          | Ok results =>
              match mapM easy_fragment results with
              | Err e => failed "easyocr" e
              | Ok lines =>
                  match snd (reconstruct_layout lines) with
                  | Err e => failed "easyocr" e
                  | Ok t => succeeded "easyocr" t (fst (reconstruct_layout lines))
                  end
              end
          end)
  /\ (forall image (self : TesseractOCREngine image) image_path,
        tess_recognize self image_path
        = match Image_open self image_path with
          | Err e => failed "tesseract" e
          | Ok img =>
              match image_to_data self img (lang self) with
              | Err e => failed "tesseract" e
              | Ok data =>
                  match image_to_string self img (lang self) with
                  | Err e => failed "tesseract" e
                  | Ok whole =>
                      match tess_lines data with
                      | Err e => failed "tesseract" e
                      | Ok lines => succeeded "tesseract" (strip whole) lines
                      end
                  end
              end
          end)
  /\ reconstruct_layout [] = ([], Ok "")
  /\ (forall lines, Forall small_ints lines ->
                    exists s, snd (reconstruct_layout lines) = Ok s)
  /\ (forall lines e, snd (reconstruct_layout lines) = Err e -> is_overflow e)
  /\ (forall c, paddle_fragment (PaddleLine
                   (AxisAligned (IntCoord 0) (IntCoord 0) (IntCoord 10)
                                (IntCoord (10 ^ 400))) "a" (Float (Finite c)))
                = Ok (Fragment "a" (Float (Finite c))
                   (AxisAligned (IntCoord 0) (IntCoord 0) (IntCoord 10)
                                (IntCoord (10 ^ 400))))
                /\ paddle_recognize
                     {| ocr := fun _ => Ok (Some [Some [PaddleLine
                          (AxisAligned (IntCoord 0) (IntCoord 0) (IntCoord 10)
                                       (IntCoord (10 ^ 400))) "a"
                          (Float (Finite c))]]) |} "scan.png"
                   = {| success := false; res_text := None; res_lines := None;
                        engine := Some "paddleocr";
                        error := Some "integer division result too large for a float" |}).
Proof.
  intros failed succeeded.
  split; [|split; [|split; [|split; [|split; [|split]]]]].
  - intros self image_path. unfold paddle_recognize, paddle_body.
    destruct (ocr self image_path) as [[[|[[|line page]|] pages]|]|e];
      try reflexivity.
    rewrite bind_Ok.
    destruct (mapM paddle_fragment (line :: page)) as [lines|e]; [|reflexivity].
    rewrite bind_Ok.
    destruct (reconstruct_layout lines) as [final [t|e]]; reflexivity.
  - intros self image_path. unfold easy_recognize, easy_body.
    destruct (readtext self image_path) as [results|e]; [|reflexivity].
    rewrite bind_Ok.
    destruct (mapM easy_fragment results) as [lines|e]; [|reflexivity].
    rewrite bind_Ok.
    destruct (reconstruct_layout lines) as [final [t|e]]; reflexivity.
  - intros image self image_path. unfold tess_recognize, tess_body.
    destruct (Image_open self image_path) as [img|e]; [|reflexivity].
    rewrite bind_Ok.
    destruct (image_to_data self img (lang self)) as [data|e]; [|reflexivity].
    rewrite bind_Ok.
    destruct (image_to_string self img (lang self)) as [whole|e];
      [|reflexivity].
    rewrite bind_Ok.
    destruct (tess_lines data) as [lines|e]; reflexivity.
  - reflexivity.
  - intros lines Hs.
    destruct (reconstruct_layout_small_ints _ Hs) as (E & _).
    rewrite E, reconstruct_layout_spec. cbn [snd]. eauto.
  - apply reconstruct_layout_Err.
  - intros c. split; [reflexivity|]. vm_compute. reflexivity.
Qed.

(** C5 as stated fails: [reconstruct_layout] raises [OverflowError] on a
    box whose height is an [int] too large for a [float], and on two boxes so
    far apart that the count of spaces does not fit the machine's index
    type. *)
Lemma C5_counterexample :
  let tall := Fragment "a" (Float (Finite 1))
                (AxisAligned (IntCoord 0) (IntCoord 0) (IntCoord 10)
                             (IntCoord (10 ^ 400))) in
  let a := Fragment "a" (Float (Finite 1))
             (AxisAligned (IntCoord 0) (IntCoord 0) (IntCoord 10) (IntCoord 20)) in
  let far := Fragment "b" (Float (Finite 1))
               (AxisAligned (IntCoord (2 ^ 70)) (IntCoord 0) (IntCoord 10)
                            (IntCoord 20)) in
  snd (reconstruct_layout [tall])
  = Err (OverflowError "integer division result too large for a float")
  /\ snd (reconstruct_layout [a; far])
     = Err (OverflowError "cannot fit 'int' into an index-sized integer").
Proof.
  intros tall a far. split; vm_compute; reflexivity.
Qed.

Lemma C5_failures_become_results_witness :
  let tall := Fragment "a" (Float (Finite 1))
                (AxisAligned (IntCoord 0) (IntCoord 0) (IntCoord 10)
                             (IntCoord (10 ^ 400))) in
  let a := Fragment "a" (Float (Finite 1))
             (AxisAligned (IntCoord 0) (IntCoord 0) (IntCoord 10) (IntCoord 20)) in
  Forall small_ints [a]
  /\ (exists s, snd (reconstruct_layout [a]) = Ok s)
  /\ snd (reconstruct_layout [tall])
     = Err (OverflowError "integer division result too large for a float")
  /\ is_overflow (OverflowError "integer division result too large for a float").
Proof.
  intros tall a.
  assert (Ha : Forall small_ints [a]).
  { repeat constructor; simpl; lia. }
  assert (Ht : snd (reconstruct_layout [tall])
               = Err (OverflowError "integer division result too large for a float"))
    by (vm_compute; reflexivity).
  pose proof C5_failures_become_results as H. cbv zeta in H.
  destruct H as (_ & _ & _ & _ & Hs & He & _).
  split; [exact Ha|]. split; [exact (Hs _ Ha)|]. split; [exact Ht|].
  exact (He _ _ Ht).
Defined.

(** C6.  In the Tesseract adapter, when the backend calls succeed and the
    columns have one entry per token, [recognize] returns as fragments, token
    by token in the order of the columns, one fragment for each token whose
    integer confidence is strictly positive and none for the others (so none
    for -1 and 0); the fragment's confidence is the [float] Python computes
    for the token's confidence divided by 100, the binary64 number nearest to
    the quotient (0.45 for 45). *)
Theorem C6_tesseract_tokens {image} (self : TesseractOCREngine image)
    image_path img data whole :
  Image_open self image_path = Ok img ->
  image_to_data self img (lang self) = Ok data ->
  image_to_string self img (lang self) = Ok whole ->
  Spec.columns_aligned data ->
  Forall (fun c => (c < 2 ^ 53)%Z) (d_conf data) ->
  tess_recognize self image_path
  = {| success := true; res_text := Some (strip whole);
       res_lines := Some (map (token data) (kept data));
       engine := Some "tesseract"; error := None |}
  /\ (forall i, (i < List.length (d_text data))%nat ->
        let c := nth i (d_conf data) 0%Z in
        ((c <= 0)%Z -> ~ In i (kept data))
        /\ ((0 < c)%Z ->
            In i (kept data)
            /\ In (token data i) (map (token data) (kept data))
            /\ text (token data i) = nth i (d_text data) ""
            /\ confidence (token data i) = Float (round (inject_Z c / 100)))
        /\ (c = (-1)%Z \/ c = 0%Z -> ~ In i (kept data))
        /\ (c = 45%Z ->
            In i (kept data)
            /\ confidence (token data i)
               = Float (of_machine 0x1.ccccccccccccdp-2)))
  /\ (forall f, In f (map (token data) (kept data)) ->
        exists i, (i < List.length (d_text data))%nat
                  /\ (0 < nth i (d_conf data) 0)%Z /\ f = token data i).
Proof.
  intros E1 E2 E3 Ha Hb. split; [|split].
  - unfold tess_recognize, tess_body.
    rewrite E1, bind_Ok, E2, bind_Ok, E3, bind_Ok.
    unfold tess_lines. rewrite foldM_py_tess_step; trivial.
  - intros i Hi c.
    split; [|split; [|split]].
    + intros Hc Hin. apply kept_In in Hin. subst c. lia.
    + intros Hc.
      assert (Hin : In i (kept data)) by (apply kept_In; auto).
      split; [exact Hin|]. split; [now apply in_map|].
      split; reflexivity.
    + intros Hc Hin. apply kept_In in Hin. subst c. lia.
    + intros Hc.
      split; [apply kept_In; subst c; split; [exact Hi|lia]|].
      unfold token. cbn [confidence]. fold c. rewrite Hc.
      vm_compute. reflexivity.
  - intros f Hf. apply in_map_iff in Hf as (i & <- & Hin).
    apply kept_In in Hin. exists i. tauto.
Qed.

Lemma C6_tesseract_tokens_witness :
  let data := TessData [""; ""; "Hello"] [(-1)%Z; 0%Z; 45%Z]
                       [0%Z; 0%Z; 12%Z] [0%Z; 0%Z; 30%Z]
                       [640%Z; 0%Z; 48%Z] [480%Z; 0%Z; 16%Z] in
  let self : TesseractOCREngine unit :=
    {| Image_open := fun _ => Ok tt;
       image_to_data := fun _ _ => Ok data;
       image_to_string := fun _ _ => Ok "Hello";
       lang := "eng" |} in
  Spec.columns_aligned data
  /\ Forall (fun c => (c < 2 ^ 53)%Z) (d_conf data)
  /\ kept data = [2%nat]
  /\ res_lines (tess_recognize self "scan.png")
     = Some [ {| text := "Hello";
                 confidence := Float (of_machine 0x1.ccccccccccccdp-2);
                 bbox := AxisAligned (IntCoord 12) (IntCoord 30)
                                     (IntCoord 48) (IntCoord 16) |} ].
Proof.
  intros data self.
  assert (Ha : Spec.columns_aligned data) by (repeat split; reflexivity).
  assert (Hb : Forall (fun c => (c < 2 ^ 53)%Z) (d_conf data)).
  { repeat constructor. }
  split; [exact Ha|]. split; [exact Hb|]. split; [reflexivity|].
  rewrite (proj1 (C6_tesseract_tokens self "scan.png" tt data "Hello"
                    eq_refl eq_refl eq_refl Ha Hb)).
  vm_compute. reflexivity.
Defined.

End PyEngineClaims.

(** ** Further properties of the layout, on Python's numbers *)

Section PyLayoutExtras.
Import Binary64 PyNumber PyLayout PyTerms Exact.

Lemma foldM_line_step_append row : forall s l s' l',
  foldM line_step row (s, l) = Ok (s', l') ->
  exists t, s' = (s ++ t)%string
            /\ forall s0, foldM line_step row (s0, l) = Ok ((s0 ++ t)%string, l').
Proof.
  induction row as [|item row IH]; intros s l s' l' H.
  - simpl in H. injection H as <- <-. exists "".
    split; [now rewrite append_nil_r|]. intros s0. simpl.
    now rewrite append_nil_r.
  - rewrite foldM_cons, line_step_spaces in H.
    destruct (if lt (Int 0) l then _ else _) as [pad|] eqn:Ep; [|discriminate].
    rewrite bind_Ok in H.
    destruct (get_x_end (bbox item)) as [e|] eqn:Ee; [|discriminate].
    rewrite !bind_Ok in H.
    destruct (IH _ _ _ _ H) as (t & Es & Ht).
    exists (pad ++ text item ++ t)%string. split.
    + rewrite Es. now rewrite !append_assoc.
    + intros s0. rewrite foldM_cons, line_step_spaces, Ep, bind_Ok, Ee, !bind_Ok.
      rewrite (Ht ((s0 ++ pad) ++ text item)%string).
      now rewrite !append_assoc.
Qed.

Lemma sort_by_least {A} (kv : A -> Q) (row : list A) f rest :
  Spec.sort_by kv row = f :: rest ->
  In f row /\ forall g, In g row -> kv f <= kv g.
Proof.
  intros E.
  pose proof (sort_by_perm kv row) as HP.
  pose proof (sort_by_ascending kv row) as Hs.
  rewrite E in HP, Hs. split.
  - eapply Permutation_in; [apply Permutation_sym; exact HP|now left].
  - intros g Hg. apply (Permutation_in _ HP) in Hg.
    apply StronglySorted_inv in Hs as [_ Hall].
    destruct Hg as [<-|Hg]; [apply Qle_refl|].
    rewrite Forall_forall in Hall. now apply Hall.
Qed.

Lemma build_line_first row out :
  row <> [] -> build_line row = Ok out ->
  exists f rest e tail e',
    Spec.sort_by left_key row = f :: rest
    /\ get_x_end (bbox f) = Ok e
    /\ foldM line_step rest ("", e) = Ok (tail, e')
    /\ out = (text f ++ tail)%string.
Proof.
  intros Hne H. apply build_line_Ok in H as (e' & H).
  destruct (Spec.sort_by left_key row) as [|f rest] eqn:E.
  { pose proof (sort_by_perm left_key row) as HP. rewrite E in HP.
    apply Permutation_sym, Permutation_nil in HP. contradiction. }
  rewrite foldM_cons, line_step_spaces in H.
  replace (lt (Int 0) (Int 0)) with false in H by reflexivity.
  rewrite bind_Ok in H.
  destruct (get_x_end (bbox f)) as [e|] eqn:Ee; [|discriminate].
  rewrite bind_Ok in H. cbn [append] in H.
  destruct (foldM_line_step_append _ _ _ _ _ H) as (tail & Eo & Ht).
  exists f, rest, e, tail, e'.
  split; [reflexivity|]. split; [exact Ee|].
  split; [apply (Ht "")|exact Eo].
Qed.

(** X3.  No spaces are put before the text of the leftmost member of a row:
    the row's line is that text followed by what the loop builds for the
    other members.  So a line begins with the first character of the
    leftmost member's text when that text is not empty; when it is empty the
    line can begin with the spaces put before the second member ([''] at
    [[0,0,10,20]] and ['b'] at [[35,0,10,20]] give ['  b']).  The output for
    a list that is not empty begins with the text of the leftmost member of
    the first row. *)
Theorem X3_no_leading_spaces :
  (forall row out,
     row <> [] -> build_line row = Ok out ->
     exists f rest e tail e',
       Spec.sort_by left_key row = f :: rest
       /\ In f row
       /\ (forall g, In g row -> left_key f <= left_key g)
       /\ get_x_end (bbox f) = Ok e
       /\ foldM line_step rest ("", e) = Ok (tail, e')
       /\ out = (text f ++ tail)%string
       /\ (forall c t, text f = String c t -> out = String c (t ++ tail)))
  /\ (forall lines s,
        lines <> [] -> snd (reconstruct_layout lines) = Ok s ->
        exists row rows f rest tail,
          group_rows (fst (reconstruct_layout lines)) = Ok (row :: rows)
          /\ Spec.sort_by left_key row = f :: rest
          /\ In f lines
          /\ s = (text f ++ tail)%string)
  /\ (forall c1 c2,
        let a := Fragment "" c1 (AxisAligned (IntCoord 0) (IntCoord 0)
                                             (IntCoord 10) (IntCoord 20)) in
        let b := Fragment "b" c2 (AxisAligned (IntCoord 35) (IntCoord 0)
                                              (IntCoord 10) (IntCoord 20)) in
        Spec.sort_by left_key [a; b] = [a; b]
        /\ build_line [a; b] = Ok "  b"
        /\ snd (reconstruct_layout [a; b]) = Ok "  b").
Proof.
  split; [|split].
  - intros row out Hne H.
    destruct (build_line_first _ _ Hne H) as (f & rest & e & tail & e' & Es & Ee & Ef & Eo).
    destruct (sort_by_least _ _ _ _ Es) as (Hin & Hle).
    exists f, rest, e, tail, e'.
    repeat (split; [assumption|]). intros c t Et. now rewrite Eo, Et.
  - intros lines s Hne Hs.
    destruct (reconstruct_layout_Ok _ _ Hs) as (rows & outs & Ef & Eg & Em & Es).
    rewrite Ef.
    destruct (group_rows_Ok _ _ Eg) as (Hc & Hn & _).
    pose proof (sort_by_perm cy_key lines) as HP.
    destruct rows as [|row rows].
    { simpl in Hc. rewrite <- Hc in HP.
      apply Permutation_sym, Permutation_nil in HP. contradiction. }
    apply Forall_cons_iff in Hn as [Hrow _].
    cbn [mapM] in Em.
    destruct (build_line row) as [out|] eqn:Eb; [|discriminate].
    rewrite bind_Ok in Em.
    destruct (mapM build_line rows) as [outs'|]; [|discriminate].
    rewrite bind_Ok in Em. injection Em as <-.
    destruct (build_line_first _ _ Hrow Eb) as (f & rest & e & tail & e' & Er & _ & _ & Eo).
    destruct (sort_by_least _ _ _ _ Er) as (Hin & _).
    assert (Hf : In f lines).
    { eapply Permutation_in; [apply Permutation_sym; exact HP|].
      rewrite <- Hc. simpl. apply in_or_app. now left. }
    unfold join in Es. cbn [String.concat] in Es.
    destruct outs' as [|o outs'].
    + exists row, rows, f, rest, tail. subst. auto.
    + exists row, rows, f, rest,
        (tail ++ newline ++ String.concat newline (o :: outs'))%string.
      subst. rewrite append_assoc. auto.
  - intros c1 c2 a b. repeat split; vm_compute; reflexivity.
Qed.

Lemma X3_no_leading_spaces_witness :
  let a := Fragment "b" (Float (Finite 1))
             (AxisAligned (IntCoord 300) (IntCoord 0) (IntCoord 50) (IntCoord 20)) in
  let b := Fragment "a" (Float (Finite 1))
             (AxisAligned (IntCoord 200) (IntCoord 0) (IntCoord 50) (IntCoord 20)) in
  [a; b] <> []
  /\ build_line [a; b] = Ok "a     b"
  /\ exists f tail, In f [a; b] /\ "a     b" = (text f ++ tail)%string.
Proof.
  intros a b.
  assert (Hne : [a; b] <> []) by discriminate.
  assert (Hb : build_line [a; b] = Ok "a     b") by reflexivity.
  split; [exact Hne|]. split; [exact Hb|].
  destruct (proj1 X3_no_leading_spaces [a; b] _ Hne Hb)
    as (f & rest & e & tail & e' & _ & Hin & _ & _ & _ & Eo & _).
  exists f, tail. auto.
Defined.

(** X4.  After a member whose right edge is a positive [int], the number
    of spaces put before a member whose left edge is an [int] less than
    [2^52] away is the number of whole tens in the gap: none for a gap below
    10 (or an overlap), and [n] with [10 n <= gap < 10 (n + 1)] otherwise.
    On [float] edges the gap is the rounded one: after [[194.5, 0, 45.2, 20]]
    the member [[319.7, 0, 10, 20]] gets 8 spaces, where the exact values of
    the edges are less than 80 apart. *)
Theorem X4_gap_spaces :
  (forall line_text (last_x_end x : Z) item e,
     (0 < last_x_end)%Z -> get_x (bbox item) = Int x ->
     get_x_end (bbox item) = Ok e ->
     (Z.abs (x - last_x_end) < 2 ^ 52)%Z ->
     let gap := (x - last_x_end)%Z in
     let n := (Z.max 0 gap / 10)%Z in
     line_step (line_text, Int last_x_end) item
     = Ok ((line_text ++ str_mul " " n) ++ text item, e)%string
     /\ (0 <= n)%Z
     /\ ((gap < 10)%Z ->
         line_step (line_text, Int last_x_end) item
         = Ok (line_text ++ text item, e)%string)
     /\ ((0 <= gap)%Z -> (n * 10 <= gap < (n + 1) * 10)%Z))
  /\ (let a := Fragment "a" (Float (Finite 1))
                 (AxisAligned (literal (1945 # 10)) (IntCoord 0)
                              (literal (452 # 10)) (IntCoord 20)) in
      let b := Fragment "b" (Float (Finite 1))
                 (AxisAligned (literal (3197 # 10)) (IntCoord 0)
                              (IntCoord 10) (IntCoord 20)) in
      exists e,
        get_x_end (bbox a) = Ok e
        /\ gap_spaces e (get_x (bbox b)) = Ok 8%Z
        /\ Spec.right_x (exact_fragment a) < Spec.left_x (exact_fragment b)
        /\ Spec.left_x (exact_fragment b) - Spec.right_x (exact_fragment a) < 80
        /\ snd (reconstruct_layout [a; b]) = Ok "a        b").
Proof.
  split.
  - intros line_text last_x_end x item e Hpos Ex Ee Hb gap n.
    assert (Hn : (0 <= n)%Z) by (apply Z.div_pos; lia).
    assert (Hlt : (n < 2 ^ 63)%Z) by (apply Z.div_lt_upper_bound; lia).
    assert (Hstep : line_step (line_text, Int last_x_end) item
                    = Ok ((line_text ++ str_mul " " n) ++ text item, e)%string).
    { rewrite line_step_spaces, Ex, Ee, lt_Int.
      destruct (Z.ltb_spec 0 last_x_end); [|lia].
      rewrite gap_spaces_ints, bind_Ok by exact Hb.
      fold gap. fold n. now rewrite (str_times_small _ _ Hlt), !bind_Ok. }
    split; [exact Hstep|]. split; [exact Hn|]. split.
    + intros Hg. rewrite Hstep.
      assert (n = 0%Z) as ->.
      { subst n. apply Z.div_small. lia. }
      cbn [str_mul Z.to_nat str_repeat]. now rewrite append_nil_r.
    + intros Hg. subst n. rewrite Z.max_r by exact Hg.
      pose proof (Z.div_mod gap 10 ltac:(lia)) as Hd.
      pose proof (Z.mod_pos_bound gap 10 ltac:(lia)) as Hm. lia.
  - intros a b. eexists. split; [vm_compute; reflexivity|].
    repeat split; vm_compute; reflexivity.
Qed.

Lemma X4_gap_spaces_witness :
  let a := Fragment "7" (Float (Finite 1))
             (AxisAligned (IntCoord 49) (IntCoord 0) (IntCoord 10) (IntCoord 20)) in
  (0 < 40)%Z /\ (49 - 40 < 10)%Z
  /\ line_step ("Qty", Int 40) a = Ok ("Qty7", Int 59).
Proof.
  intros a.
  assert (Hpos : (0 < 40)%Z) by lia.
  assert (Hgap : (49 - 40 < 10)%Z) by lia.
  split; [exact Hpos|]. split; [exact Hgap|].
  destruct (proj1 X4_gap_spaces "Qty" 40%Z 49%Z a (Int 59) Hpos eq_refl eq_refl)
    as (_ & _ & H & _); [simpl; lia|].
  rewrite (H Hgap). reflexivity.
Defined.

Lemma lt_sort_key a b :
  finite a -> finite b -> lt a b = Qltb (sort_key a) (sort_key b).
Proof.
  destruct a as [x|[p| | |]], b as [y|[q| | |]]; simpl; intros Ha Hb;
    try contradiction; reflexivity.
Qed.

Lemma min_of_key : forall rest first,
  finite first -> Forall finite rest ->
  sort_key (min_of first rest)
  = fold_left (fun m v => if Qltb v m then v else m)
              (map sort_key rest) (sort_key first).
Proof.
  unfold min_of. induction rest as [|v rest IH]; intros first Hf Hr;
    [reflexivity|].
  inversion Hr; subst. cbn [fold_left map].
  rewrite (lt_sort_key v first) by assumption.
  destruct (Qltb (sort_key v) (sort_key first)); now apply IH.
Qed.

Lemma max_of_key : forall rest first,
  finite first -> Forall finite rest ->
  sort_key (max_of first rest)
  = fold_left (fun m v => if Qltb m v then v else m)
              (map sort_key rest) (sort_key first).
Proof.
  unfold max_of. induction rest as [|v rest IH]; intros first Hf Hr;
    [reflexivity|].
  inversion Hr; subst. cbn [fold_left map].
  rewrite (lt_sort_key first v) by assumption.
  destruct (Qltb (sort_key first) (sort_key v)); now apply IH.
Qed.

Lemma min_of_In first rest : In (min_of first rest) (first :: rest).
Proof.
  apply (fold_choice _ (fun m => In m (first :: rest))).
  - intros m v. destruct (lt v m); auto.
  - now left.
  - apply Forall_forall. intros v Hv. now right.
Qed.

Lemma max_of_In first rest : In (max_of first rest) (first :: rest).
Proof.
  apply (fold_choice _ (fun m => In m (first :: rest))).
  - intros m v. destruct (lt m v); auto.
  - now left.
  - apply Forall_forall. intros v Hv. now right.
Qed.

Lemma min_of_least first rest :
  finite first -> Forall finite rest ->
  Forall (fun v => lt v (min_of first rest) = false) (first :: rest).
Proof.
  intros Hf Hr.
  pose proof (min_of_key rest first Hf Hr) as Ek.
  destruct (fold_min_spec (map sort_key rest) (sort_key first)) as (_ & Hle).
  cbv zeta in Hle. rewrite <- Ek in Hle.
  change (sort_key first :: map sort_key rest)
    with (map sort_key (first :: rest)) in Hle.
  rewrite Forall_map in Hle.
  assert (Hall : Forall finite (first :: rest)) by now constructor.
  rewrite Forall_forall in *. intros v Hv.
  rewrite lt_sort_key; [|now apply Hall|now apply min_of_finite; [|apply Forall_forall]].
  apply Qltb_ge. now apply Hle.
Qed.

Lemma max_of_greatest first rest :
  finite first -> Forall finite rest ->
  Forall (fun v => lt (max_of first rest) v = false) (first :: rest).
Proof.
  intros Hf Hr.
  pose proof (max_of_key rest first Hf Hr) as Ek.
  destruct (fold_max_spec (map sort_key rest) (sort_key first)) as (_ & Hle).
  cbv zeta in Hle. rewrite <- Ek in Hle.
  change (sort_key first :: map sort_key rest)
    with (map sort_key (first :: rest)) in Hle.
  rewrite Forall_map in Hle.
  assert (Hall : Forall finite (first :: rest)) by now constructor.
  rewrite Forall_forall in *. intros v Hv.
  rewrite lt_sort_key; [|now apply max_of_finite; [|apply Forall_forall]|now apply Hall].
  apply Qltb_ge. now apply Hle.
Qed.

(** X5.  For every polygon box the left edge is the least and the right
    edge the greatest x among its points, so the left edge is not greater
    than the right one.  For the four corners of a box of [int]s below
    [2^48] the center Y lies between the least and the greatest y, and the
    height is their difference, never negative.  On [float]s the center is
    the rounded mean and can leave that range: for three points with
    [y = 0.1] it is 0.10000000000000002. *)
Theorem X5_polygon_geometry :
  (forall p ps,
     let xs := map (fun q => num (fst q)) (p :: ps) in
     let left := get_x (Polygon p ps) in
     exists right,
       get_x_end (Polygon p ps) = Ok right
       /\ In left xs /\ In right xs
       /\ Forall (fun v => lt v left = false /\ lt right v = false) xs
       /\ lt right left = false)
  /\ (forall p ps,
        small_int_box (2 ^ 48) (Polygon p ps) ->
        exists top bottom c h,
          py_min (map snd (map exact_point (p :: ps))) = Ok top
          /\ py_max (map snd (map exact_point (p :: ps))) = Ok bottom
          /\ get_cy (Polygon p ps) = Ok (Float (Finite c))
          /\ top <= c /\ c <= bottom
          /\ get_h (Polygon p ps) = Ok (Int h)
          /\ inject_Z h == bottom - top /\ (0 <= h)%Z)
  /\ (let y := literal (1 # 10) in
      let polygon := Polygon (IntCoord 0, y) [(IntCoord 10, y); (IntCoord 5, y)] in
      exists c, get_cy polygon = Ok (Float (Finite c))
                /\ value y < c
                /\ get_h polygon = Ok (Float (Finite 0))).
Proof.
  split; [|split].
  - intros p ps xs left.
    assert (Hf : finite (num (fst p))) by apply num_finite.
    assert (Hr : Forall finite (map (fun q => num (fst q)) ps)).
    { apply Forall_forall. intros n Hn. apply in_map_iff in Hn as (q & <- & _).
      apply num_finite. }
    exists (max_of (num (fst p)) (map (fun q => num (fst q)) ps)).
    pose proof (min_of_least _ _ Hf Hr) as Hmin.
    pose proof (max_of_greatest _ _ Hf Hr) as Hmax.
    pose proof (min_of_In (num (fst p)) (map (fun q => num (fst q)) ps)) as Imin.
    pose proof (max_of_In (num (fst p)) (map (fun q => num (fst q)) ps)) as Imax.
    split; [reflexivity|]. split; [exact Imin|]. split; [exact Imax|].
    rewrite Forall_forall in Hmin, Hmax. split.
    + apply Forall_forall. intros v Hv. split; [now apply Hmin|now apply Hmax].
    + now apply Hmax.
  - intros p ps Hs.
    destruct (small_int_geometry _ Hs) as ((c4 & Ec & _) & (hz & Eh & Vh & _) & _).
    cbv zeta in Ec, Vh. cbn [exact_box] in Ec, Vh.
    destruct (mean_between (snd (exact_point p)) (map snd (map exact_point ps)))
      as (top & bottom & mean & Et & Eb & Em & Hlo & Hhi).
    change (snd (exact_point p) :: map snd (map exact_point ps))
      with (map snd (map exact_point (p :: ps))) in Et, Eb, Em.
    unfold Layout.get_cy in Ec. unfold Layout.get_h in Vh.
    change (map snd (exact_point p :: map exact_point ps))
      with (map snd (map exact_point (p :: ps))) in Ec, Vh.
    rewrite Em in Ec. rewrite Eb, bind_Ok, Et, bind_Ok in Vh. cbn [val] in Ec, Vh.
    exists top, bottom, (Qred mean), hz.
    split; [exact Et|]. split; [exact Eb|]. split; [exact Ec|].
    split; [now rewrite Qred_correct|]. split; [now rewrite Qred_correct|].
    split; [exact Eh|]. split; [now rewrite Vh|].
    assert (H0 : inject_Z 0 <= inject_Z hz).
    { rewrite <- Vh. change (inject_Z 0) with 0.
      rewrite <- (Qplus_opp_r top). apply Qplus_le_l.
      eapply Qle_trans; eassumption. }
    now rewrite <- Zle_Qle in H0.
  - intros y polygon. eexists.
    split; [vm_compute; reflexivity|]. repeat split; vm_compute; reflexivity.
Qed.

Lemma X5_polygon_geometry_witness :
  let p := (IntCoord 60, IntCoord 8) in
  let ps := [(IntCoord 110, IntCoord 8); (IntCoord 110, IntCoord 28);
             (IntCoord 60, IntCoord 28)] in
  small_int_box (2 ^ 48) (Polygon p ps)
  /\ get_cy (Polygon p ps) = Ok (Float (Finite 18))
  /\ exists h, get_h (Polygon p ps) = Ok (Int h) /\ (0 <= h)%Z.
Proof.
  intros p ps.
  assert (Hs : small_int_box (2 ^ 48) (Polygon p ps)).
  { split; [reflexivity|]. repeat constructor; simpl; lia. }
  split; [exact Hs|]. split; [reflexivity|].
  destruct (proj1 (proj2 X5_polygon_geometry) p ps Hs)
    as (top & bottom & c & h & _ & _ & _ & _ & _ & Eh & _ & Hh).
  exists h. auto.
Defined.

(** X27.  On boxes of [int]s below [2^48] in absolute value no rounding
    affects [reconstruct_layout]: it returns (memory is not bounded here)
    the string that the same code gives in exact arithmetic, and leaves the
    list in the same order. *)
Theorem X27_integer_boxes_exact (lines : list fragment) :
  Forall small_ints lines ->
  (exists s, snd (reconstruct_layout lines) = Ok s)
  /\ snd (reconstruct_layout lines)
     = snd (Layout.reconstruct_layout (map exact_fragment lines))
  /\ map exact_fragment (fst (reconstruct_layout lines))
     = fst (Layout.reconstruct_layout (map exact_fragment lines))
  /\ (forall prev cur, In prev lines -> In cur lines ->
        same_row prev cur
        = Ok (Spec.closeb (exact_fragment prev) (exact_fragment cur)))
  /\ Forall (fun f => cy_key f == Spec.cy (exact_fragment f)
                      /\ left_key f == Spec.left_x (exact_fragment f)) lines.
Proof.
  intros Hs.
  destruct (reconstruct_layout_small_ints _ Hs) as (E1 & E2).
  split; [|split; [exact E1|split; [exact E2|split]]].
  - rewrite E1, reconstruct_layout_spec. cbn [snd]. eauto.
  - rewrite Forall_forall in Hs. intros prev cur Hp Hc.
    apply same_row_exact; now apply Hs.
  - rewrite Forall_forall in *. intros f Hf. split.
    + now apply cy_key_exact, Hs.
    + now apply left_key_exact, Hs.
Qed.

Lemma X27_integer_boxes_exact_witness :
  let a := Fragment "Total" (Float (Finite 1))
             (AxisAligned (IntCoord 0) (IntCoord 0) (IntCoord 50) (IntCoord 20)) in
  let b := Fragment "42" (Float (Finite 1))
             (Polygon (IntCoord 60, IntCoord 8)
                [(IntCoord 110, IntCoord 8); (IntCoord 110, IntCoord 28);
                 (IntCoord 60, IntCoord 28)]) in
  Forall small_ints [b; a]
  /\ snd (reconstruct_layout [b; a]) = Ok "Total 42"
  /\ snd (Layout.reconstruct_layout (map exact_fragment [b; a])) = Ok "Total 42".
Proof.
  intros a b.
  assert (Hs : Forall small_ints [b; a]).
  { constructor; [|constructor; [|constructor]].
    - split; [reflexivity|]. repeat constructor; simpl; lia.
    - unfold small_ints, a. simpl. lia. }
  split; [exact Hs|]. split; [reflexivity|].
  rewrite <- (proj1 (proj2 (X27_integer_boxes_exact _ Hs))). reflexivity.
Defined.

End PyLayoutExtras.
